(** * Voice-notes recorder: continuous recording pipeline and WAV encoder

    A shallow embedding of the [VoiceNotesApp] class (continuous dual-recorder
    variant) and of its WAV encoder, with the properties the specification
    states about them.

    - [Js]    : JavaScript values used by the code (UTF-16 strings, numbers,
                the integer conversions of [DataView]).
    - [Wav]   : [convertToWav].
    - [Dom]   : what the code reads and writes of a page element.
    - [Title] : the title derivation of [updateNoteTitle].
    - [App]   : the application state, its methods, and the callbacks the
                browser runs (clicks, timers, recorder events, promise
                completions) as a labelled step function; a method that
                awaits is cut at the await, each part being a callback.
    - [Props] : the predicates and invariants the properties are stated with.
    - [Examples] : sample sessions and buffers.
    - [Save]  : [saveNewNote] and the tag stripping it applies.
    - [Page]  : the placeholder handlers installed when the page loads.
    - [Base64] : [blobToBase64].
    - [Theme] : [initTheme] and [toggleTheme].
    - [Timer] : [updateLiveTimer].
    - [Single] : the single-recording variant of the class ([index.tsx]).

    Part I holds the definitions, Part II the lemmas and theorems. *)

From Stdlib Require Import ZArith QArith List String Ascii Lia Lqa DecimalString.
From stdpp Require Import base option list.
Import ListNotations.

(* ================================================================== *)
(** * Part I: definitions                                              *)
(* ================================================================== *)

(** ** JavaScript values *)

Module Js.
Local Open Scope Z_scope.

(** A string is a sequence of UTF-16 code units. *)
Definition jsstring : Type := list N.

(** The code units of a literal written in the source file, which is
    UTF-8: one-, two- and three-byte sequences (all of the Basic
    Multilingual Plane). *)
Fixpoint decodeUtf8 (bytes : list N) : jsstring :=
  match bytes with
  | [] => []
  | b :: r =>
      if (b <? 128)%N then b :: decodeUtf8 r
      else if (b <? 224)%N then
        match r with
        | b1 :: r' => ((b - 192) * 64 + (b1 - 128))%N :: decodeUtf8 r'
        | [] => [b]
        end
      else
        match r with
        | b1 :: b2 :: r' =>
            ((b - 224) * 4096 + (b1 - 128) * 64 + (b2 - 128))%N :: decodeUtf8 r'
        | _ => b :: r
        end
  end.

Definition lit (s : string) : jsstring :=
  decodeUtf8 (map N_of_ascii (list_ascii_of_string s)).

(** Truthiness of a string: [if (str)]. *)
Definition truthy (s : jsstring) : bool :=
  match s with [] => false | _ :: _ => true end.

(** ECMAScript WhiteSpace and LineTerminator code points: what
    [String.prototype.trim] removes and what [\s] matches. *)
Definition isWhiteSpace (c : N) : bool :=
  ((9 <=? c) && (c <=? 13) || (c =? 32) || (c =? 160) || (c =? 5760)
   || (8192 <=? c) && (c <=? 8202) || (c =? 8232) || (c =? 8233)
   || (c =? 8239) || (c =? 8287) || (c =? 12288) || (c =? 65279))%N.

(** [\d] without the unicode flag. *)
Definition isDigit (c : N) : bool := ((48 <=? c) && (c <=? 57))%N.

Fixpoint dropWhile (p : N -> bool) (s : jsstring) : jsstring :=
  match s with
  | [] => []
  | c :: r => if p c then dropWhile p r else s
  end.

Definition dropWhileEnd (p : N -> bool) (s : jsstring) : jsstring :=
  rev (dropWhile p (rev s)).

Definition trim (s : jsstring) : jsstring :=
  dropWhileEnd isWhiteSpace (dropWhile isWhiteSpace s).

(** [s.split(sep)] for a one-unit separator; never returns the empty list. *)
Fixpoint split (sep : N) (s : jsstring) : list jsstring :=
  match s with
  | [] => [[]]
  | c :: r =>
      if (c =? sep)%N then [] :: split sep r
      else match split sep r with
           | l :: ls => (c :: l) :: ls
           | [] => [[c]]
           end
  end.

Definition startsWith (s : jsstring) (c : N) : bool :=
  match s with
  | x :: _ => (x =? c)%N
  | [] => false
  end.

(** [s.substring(0, n)]. *)
Definition substring0 (n : nat) (s : jsstring) : jsstring := take n s.

(** [s.replace(/c/g, by)] for a one-unit pattern. *)
Definition replaceAll (c : N) (by_ : jsstring) (s : jsstring) : jsstring :=
  flat_map (fun x => if (x =? c)%N then by_ else [x]) s.

(** Template-literal rendering of a non-negative integer. *)
Definition toString (n : nat) : jsstring :=
  lit (NilZero.string_of_uint (Nat.to_uint n)).

(** A Number.  The finite values that occur in the encoder are float32
    samples and their products with [0x8000] or [0x7FFF]; such a product has
    at most 24 + 15 significant bits, so the double arithmetic of the
    source is exact on them and rationals represent it without rounding. *)
Inductive number : Type :=
| NaN
| Infinity (negative : bool)
| Num (q : Q).

Definition lt (a b : number) : bool :=
  match a, b with
  | NaN, _ | _, NaN => false
  | Infinity na, Infinity nb => na && negb nb
  | Infinity na, Num _ => na
  | Num _, Infinity nb => negb nb
  | Num x, Num y => negb (Qle_bool y x)
  end.

Definition Math_min (a b : number) : number :=
  match a, b with
  | NaN, _ | _, NaN => NaN
  | _, _ => if lt b a then b else a
  end.

Definition Math_max (a b : number) : number :=
  match a, b with
  | NaN, _ | _, NaN => NaN
  | _, _ => if lt a b then b else a
  end.

(** [a * k] for a positive integer constant [k]. *)
Definition mulConst (a : number) (k : Z) : number :=
  match a with
  | NaN => NaN
  | Infinity n => Infinity n
  | Num q => Num (q * inject_Z k)%Q
  end.

(** ToIntegerOrInfinity followed by the modulo step of ToUint16/ToInt16:
    NaN and the infinities give 0, finite values are truncated toward zero. *)
Definition truncate (a : number) : Z :=
  match a with
  | NaN | Infinity _ => 0
  | Num q => Z.quot (Qnum q) (Z.pos (Qden q))
  end.

Definition ToUint16 (a : number) : Z := truncate a mod 65536.

Definition ToInt16 (a : number) : Z :=
  let m := truncate a mod 65536 in
  if 32768 <=? m then m - 65536 else m.

End Js.

(** ** WAV encoder *)

Module Wav.
Import Js.
Local Open Scope Z_scope.

(** A decoded [AudioBuffer]: one sample array per channel.
    [numberOfChannels] is the number of channel arrays, and each of them
    holds [length] samples ([well_formed]). *)
Record AudioBuffer : Type := {
  length : nat;
  sampleRate : Z;
  channels : list (list number);
}.

Definition numberOfChannels (ab : AudioBuffer) : nat :=
  List.length (channels ab).

Definition well_formed (ab : AudioBuffer) : Prop :=
  Forall (fun ch => List.length ch = length ab) (channels ab).

(** [for (let i = 0; i < n; i++) body], and its variant for bodies that
    may throw. *)
Fixpoint for_from {A : Type} (i n : nat) (body : nat -> A -> A) (a : A) : A :=
  match n with
  | O => a
  | S n' => for_from (S i) n' body (body i a)
  end.

Fixpoint for_from_opt {A : Type} (i n : nat) (body : nat -> A -> option A) (a : A)
  : option A :=
  match n with
  | O => Some a
  | S n' => a' ← body i a; for_from_opt (S i) n' body a'
  end.

(** [channelData[channel][i]] stored into a [Float32Array] element: a read
    past the end of an array is [undefined], stored as NaN. *)
Definition sampleAt (channelData : list (list number)) (channel i : nat) : number :=
  match channelData !! channel with
  | Some d => default NaN (d !! i)
  | None => NaN
  end.

(** The interleaving loops.  A typed-array store outside the array is
    ignored, as is [insert] on a list. *)
Definition interleave (ab : AudioBuffer) : list number :=
  let channelData := channels ab in
  for_from 0 (length ab) (fun i interleaved =>
    for_from 0 (numberOfChannels ab) (fun channel interleaved =>
      <[(i * numberOfChannels ab + channel)%nat := sampleAt channelData channel i]> interleaved)
      interleaved)
    (replicate (length ab * numberOfChannels ab) (Num 0)).

(** [DataView] stores on an [ArrayBuffer] of bytes; [None] is the
    RangeError of a store that does not fit. *)
Definition setUint8 (view : list Z) (byteOffset : nat) (value : Z) : option (list Z) :=
  if (byteOffset + 1 <=? List.length view)%nat
  then Some (<[byteOffset := value mod 256]> view)
  else None.

Definition setUint16 (view : list Z) (byteOffset : nat) (value : Z) : option (list Z) :=
  if (byteOffset + 2 <=? List.length view)%nat
  then Some (<[(byteOffset + 1)%nat := (value / 256) mod 256]>
              (<[byteOffset := value mod 256]> view))
  else None.

Definition setUint32 (view : list Z) (byteOffset : nat) (value : Z) : option (list Z) :=
  if (byteOffset + 4 <=? List.length view)%nat
  then Some (<[(byteOffset + 3)%nat := (value / 16777216) mod 256]>
              (<[(byteOffset + 2)%nat := (value / 65536) mod 256]>
                (<[(byteOffset + 1)%nat := (value / 256) mod 256]>
                  (<[byteOffset := value mod 256]> view))))
  else None.

Definition setInt16 (view : list Z) (byteOffset : nat) (value : number) : option (list Z) :=
  setUint16 view byteOffset (ToUint16 value).

(** The matching little-endian loads, used to read the result back. *)
Definition getUint16 (view : list Z) (byteOffset : nat) : option Z :=
  b0 ← view !! byteOffset;
  b1 ← view !! (byteOffset + 1)%nat;
  Some (b0 + 256 * b1).

Definition getUint32 (view : list Z) (byteOffset : nat) : option Z :=
  b0 ← view !! byteOffset;
  b1 ← view !! (byteOffset + 1)%nat;
  b2 ← view !! (byteOffset + 2)%nat;
  b3 ← view !! (byteOffset + 3)%nat;
  Some (b0 + 256 * b1 + 65536 * b2 + 16777216 * b3).

Definition getInt16 (view : list Z) (byteOffset : nat) : option Z :=
  u ← getUint16 view byteOffset;
  Some (if 32768 <=? u then u - 65536 else u).

(** [writeString]. *)
Definition writeString (view : list Z) (offset : nat) (str : jsstring) : option (list Z) :=
  for_from_opt 0 (List.length str) (fun i view =>
    setUint8 view (offset + i) (Z.of_N (nth i str 0%N))) view.

(** The value handed to [setInt16] for one sample. *)
Definition scaled (x : number) : number :=
  let sample := Math_max (Num (-1)) (Math_min (Num 1) x) in
  if lt sample (Num 0) then mulConst sample 32768 else mulConst sample 32767.

Definition convertToWav (audioBuffer : AudioBuffer) : option (list Z) :=
  let interleaved := interleave audioBuffer in
  let n := List.length interleaved in
  let C := Z.of_nat (numberOfChannels audioBuffer) in
  let view := replicate (44 + n * 2) 0 in
  view ← writeString view 0 (lit "RIFF");
  view ← setUint32 view 4 (36 + Z.of_nat n * 2);
  view ← writeString view 8 (lit "WAVE");
  view ← writeString view 12 (lit "fmt ");
  view ← setUint32 view 16 16;
  view ← setUint16 view 20 1;
  view ← setUint16 view 22 C;
  view ← setUint32 view 24 (sampleRate audioBuffer);
  view ← setUint32 view 28 (sampleRate audioBuffer * C * 2);
  view ← setUint16 view 32 (C * 2);
  view ← setUint16 view 34 16;
  view ← writeString view 36 (lit "data");
  view ← setUint32 view 40 (Z.of_nat n * 2);
  for_from_opt 0 n (fun i view =>
    setInt16 view (44 + i * 2) (scaled (nth i interleaved NaN))) view.

(** Sample [i] of channel [channel], when both exist. *)
Definition channelSample (ab : AudioBuffer) (channel i : nat) : option number :=
  d ← channels ab !! channel; d !! i.

(** The layout the specification describes, written as a value: the 44-byte
    header followed by the samples frame by frame. *)
Definition le16 (v : Z) : list Z := [v mod 256; (v / 256) mod 256].

Definition le32 (v : Z) : list Z :=
  [v mod 256; (v / 256) mod 256; (v / 65536) mod 256; (v / 16777216) mod 256].

Definition spec_header (C R dataBytes : Z) : list Z :=
  map Z.of_N (lit "RIFF") ++ le32 (36 + dataBytes) ++
  map Z.of_N (lit "WAVE") ++ map Z.of_N (lit "fmt ") ++
  le32 16 ++ le16 1 ++ le16 C ++ le32 R ++ le32 (R * C * 2) ++
  le16 (C * 2) ++ le16 16 ++
  map Z.of_N (lit "data") ++ le32 dataBytes.

(** Clamp to [-1, 1], scale negatives by 32768 and the rest by 32767,
    keep the integer part. *)
Definition spec_clamp (q : Q) : Q :=
  if Qle_bool q (-1) then (-1)%Q else if Qle_bool 1 q then 1%Q else q.

Definition spec_quantize (q : Q) : Z :=
  let c := spec_clamp q in
  let v := (if Qle_bool 0 c then c * 32767 else c * 32768)%Q in
  Z.quot (Qnum v) (Z.pos (Qden v)).

Definition spec_frames (ab : AudioBuffer) : list number :=
  flat_map (fun i => map (fun ch => default NaN (ch !! i)) (channels ab))
           (seq 0 (length ab)).

End Wav.

(** ** Page elements *)

Module Dom.
Import Js.

Fixpoint eqb (a b : jsstring) : bool :=
  match a, b with
  | [], [] => true
  | x :: a', y :: b' => (x =? y)%N && eqb a' b'
  | _, _ => false
  end.

(** What the code reads and writes of an element: its text, its
    [placeholder] attribute and whether it carries the class
    [placeholder-active]. *)
Record Element : Type := {
  textContent : jsstring;
  placeholder : jsstring;
  placeholderActive : bool;
}.

Definition hasValidContent (element : option Element) : bool :=
  match element with
  | None => false
  | Some el =>
      let content := trim (textContent el) in
      truthy content && negb (eqb content (placeholder el))
      && negb (placeholderActive el)
  end.

Definition setPlaceholder (element : option Element) (showPlaceholder : bool)
  : option Element :=
  match element with
  | None => None
  | Some el =>
      if showPlaceholder
      then Some {| textContent := placeholder el;
                   placeholder := placeholder el;
                   placeholderActive := true |}
      else Some {| textContent := textContent el;
                   placeholder := placeholder el;
                   placeholderActive := false |}
  end.

Definition setTextContent (element : option Element) (text : jsstring)
  : option Element :=
  match element with
  | None => None
  | Some el => Some {| textContent := text;
                       placeholder := placeholder el;
                       placeholderActive := placeholderActive el |}
  end.

End Dom.

(** ** Title derivation *)

Module Title.
Import Js Dom.

Definition isHash (c : N) : bool := (c =? 35)%N.

(** [line.replace(/^#+\s+/, '')]: the match is the whole run of ['#']
    followed by the whole run of white space, and there is a match only
    when both runs are non-empty. *)
Definition stripHeadingMarker (line : jsstring) : jsstring :=
  let afterHashes := dropWhile isHash line in
  if startsWith line 35 && match afterHashes with
                           | c :: _ => isWhiteSpace c
                           | [] => false
                           end
  then dropWhile isWhiteSpace afterHashes
  else line.

(** The class [[\*_\`#\->\s\[\]\(.\d)]] of the leading pattern. *)
Definition isLeadingMarker (c : N) : bool :=
  ((c =? 42) || (c =? 95) || (c =? 96) || (c =? 35) || (c =? 45) || (c =? 62)
   || isWhiteSpace c || (c =? 91) || (c =? 93) || (c =? 40) || (c =? 46)
   || isDigit c || (c =? 41))%N.

(** The class [[\*_\`#]] of the trailing pattern. *)
Definition isTrailingMarker (c : N) : bool :=
  ((c =? 42) || (c =? 95) || (c =? 96) || (c =? 35))%N.

(** [line.replace(/^[...]+/, '').replace(/[...]+$/, '').trim()]. *)
Definition potentialTitle (line : jsstring) : jsstring :=
  trim (dropWhileEnd isTrailingMarker (dropWhile isLeadingMarker line)).

Definition maxLength : nat := 60.

Definition truncated (potentialTitle : jsstring) : jsstring :=
  substring0 maxLength potentialTitle
  ++ (if (maxLength <? List.length potentialTitle)%nat then lit "..." else []).

(** First loop: a line that starts with ['#']. *)
Fixpoint headingLoop (lines : list jsstring) : option jsstring :=
  match lines with
  | [] => None
  | line :: rest =>
      if startsWith line 35 then
        let title := trim (stripHeadingMarker line) in
        if truthy title then Some title else headingLoop rest
      else headingLoop rest
  end.

(** Second loop, run when the first set no title. *)
Fixpoint firstLineLoop (lines : list jsstring) : option jsstring :=
  match lines with
  | [] => None
  | line :: rest =>
      if (0 <? List.length line)%nat then
        let potentialTitle := potentialTitle line in
        if (3 <? List.length potentialTitle)%nat
        then Some (truncated potentialTitle)
        else firstLineLoop rest
      else firstLineLoop rest
  end.

(** The text [updateNoteTitle] puts in the title element, [None] when it
    falls back to the placeholder. *)
Definition derivedTitle (polishedText : jsstring) : option jsstring :=
  let lines := map trim (split 10 polishedText) in
  match headingLoop lines with
  | Some title => Some title
  | None => firstLineLoop lines
  end.

Definition updateNoteTitle (polishedText : jsstring) (editorTitle : option Element)
  : option Element :=
  match editorTitle with
  | None => None
  | Some _ =>
      match derivedTitle polishedText with
      | Some title => setPlaceholder (setTextContent editorTitle title) false
      | None => setPlaceholder editorTitle true
      end
  end.

(** The derivation as the specification words it: a line that begins with
    ['#'] gives the title once the marker is stripped; otherwise the first
    non-empty line is taken, its leading markers stripped, and kept when
    longer than 3 characters. *)
Fixpoint spec_nonEmptyLine (lines : list jsstring) : option jsstring :=
  match lines with
  | [] => None
  | line :: rest => if truthy line then Some line else spec_nonEmptyLine rest
  end.

Definition spec_derivedTitle (polishedText : jsstring) : option jsstring :=
  let lines := map trim (split 10 polishedText) in
  match List.find (fun line => startsWith line 35) lines with
  | Some line => Some (trim (dropWhile isHash line))
  | None =>
      match spec_nonEmptyLine lines with
      | Some line =>
          let stripped := potentialTitle line in
          if (3 <? List.length stripped)%nat then Some (truncated stripped) else None
      | None => None
      end
  end.

End Title.

(** ** The application *)

Module App.
Import Js Dom.
Local Open Scope Z_scope.

Definition MODEL_NAME : jsstring := lit "gemini-2.5-flash".

Definition MEETING_OPEN : jsstring := lit "[REUNIÃO]".
Definition MEETING_CLOSE : jsstring := lit "[/REUNIÃO]".
Definition USER_OPEN : jsstring := lit "[EU]".
Definition USER_CLOSE : jsstring := lit "[/EU]".

(** Raw bytes of a [Blob]; [new Blob(chunks)] concatenates. *)
Definition Blob : Type := list Z.

Definition size (b : Blob) : nat := List.length b.

Record Note : Type := {
  id : Z;
  note_rawTranscription : jsstring;
  note_polishedNote : jsstring;
  timestamp : Z;
}.

Record AudioSegment : Type := {
  blob : Blob;
  startTime : Z;
  endTime : Z;
  segmentNumber : nat;
}.

(** ['primary' | 'secondary']. *)
Inductive Slot : Type := primary | secondary.

Definition other (slot : Slot) : Slot :=
  match slot with primary => secondary | secondary => primary end.

(** [MediaRecorder.state].  [stop()] and [start()] change it at once; the
    [dataavailable] and [stop] events follow in a queued task.  A recorder
    changes state through these two calls of the application only. *)
Inductive RecordingState : Type := inactive | recording | paused.

Record MediaStream : Type := { audioTracks : nat }.

(** A segment being processed: waiting for the conversion and the
    transcription call, or for the refinement call. *)
Inductive Phase : Type := Transcribing | Refining.

Record Job : Type := {
  job_segment : AudioSegment;
  job_phase : Phase;
}.

Record State : Type := mkState {
  (** Fields of the class. *)
  primaryRecorder : option RecordingState;
  secondaryRecorder : option RecordingState;
  activeRecorder : Slot;
  primaryAudioChunks : list Blob;
  secondaryAudioChunks : list Blob;
  isRecording : bool;
  isContinuousMode : bool;
  currentNote : option Note;
  openingTags : jsstring;
  closingTags : jsstring;
  segmentCount : nat;
  accumulatedTranscription : jsstring;
  accumulatedPolishedNote : jsstring;
  processingQueue : list AudioSegment;
  isProcessingSegment : bool;
  stream : option MediaStream;
  screenStream : option MediaStream;
  micStream : option MediaStream;
  segmentIntervalId : option nat;
  segmentStartTime : Z;
  (** Page elements the pipeline reads back. *)
  rawTranscription : option Element;
  editorTitle : option Element;
  (** What the browser still owes the application: the queued stop tasks
      of the recorders (each fires [dataavailable] then [stop]), the
      segments whose asynchronous processing has started and not ended, the
      pending [setTimeout] drains, the [stopContinuousRecording] calls
      suspended in their wait loop and the [startContinuousRecording] calls
      suspended at the permission prompts. *)
  stopTasks : list Slot;
  inflight : list Job;
  drainTimers : nat;
  stopsWaiting : nat;
  startsPending : nat;
  (** Observations: every segment pushed on the queue, every refinement
      prompt sent, the number of calls of [updateNoteTitle], and the
      recorders that go on capturing after their slot was given to a new
      recorder. *)
  emitted : list AudioSegment;
  requests : list jsstring;
  titleUpdates : nat;
  orphans : nat;
}.

(** Field updates. *)
Definition set_primaryRecorder (v : option RecordingState) (s : State) : State :=
  mkState v (secondaryRecorder s) (activeRecorder s) (primaryAudioChunks s)
    (secondaryAudioChunks s) (isRecording s) (isContinuousMode s)
    (currentNote s) (openingTags s) (closingTags s) (segmentCount s)
    (accumulatedTranscription s) (accumulatedPolishedNote s)
    (processingQueue s) (isProcessingSegment s) (stream s) (screenStream s)
    (micStream s) (segmentIntervalId s) (segmentStartTime s)
    (rawTranscription s) (editorTitle s) (stopTasks s) (inflight s)
    (drainTimers s) (stopsWaiting s) (startsPending s) (emitted s)
    (requests s) (titleUpdates s) (orphans s).
Definition set_secondaryRecorder (v : option RecordingState) (s : State) : State :=
  mkState (primaryRecorder s) v (activeRecorder s) (primaryAudioChunks s)
    (secondaryAudioChunks s) (isRecording s) (isContinuousMode s)
    (currentNote s) (openingTags s) (closingTags s) (segmentCount s)
    (accumulatedTranscription s) (accumulatedPolishedNote s)
    (processingQueue s) (isProcessingSegment s) (stream s) (screenStream s)
    (micStream s) (segmentIntervalId s) (segmentStartTime s)
    (rawTranscription s) (editorTitle s) (stopTasks s) (inflight s)
    (drainTimers s) (stopsWaiting s) (startsPending s) (emitted s)
    (requests s) (titleUpdates s) (orphans s).
Definition set_activeRecorder (v : Slot) (s : State) : State :=
  mkState (primaryRecorder s) (secondaryRecorder s) v (primaryAudioChunks s)
    (secondaryAudioChunks s) (isRecording s) (isContinuousMode s)
    (currentNote s) (openingTags s) (closingTags s) (segmentCount s)
    (accumulatedTranscription s) (accumulatedPolishedNote s)
    (processingQueue s) (isProcessingSegment s) (stream s) (screenStream s)
    (micStream s) (segmentIntervalId s) (segmentStartTime s)
    (rawTranscription s) (editorTitle s) (stopTasks s) (inflight s)
    (drainTimers s) (stopsWaiting s) (startsPending s) (emitted s)
    (requests s) (titleUpdates s) (orphans s).
Definition set_primaryAudioChunks (v : list Blob) (s : State) : State :=
  mkState (primaryRecorder s) (secondaryRecorder s) (activeRecorder s) v
    (secondaryAudioChunks s) (isRecording s) (isContinuousMode s)
    (currentNote s) (openingTags s) (closingTags s) (segmentCount s)
    (accumulatedTranscription s) (accumulatedPolishedNote s)
    (processingQueue s) (isProcessingSegment s) (stream s) (screenStream s)
    (micStream s) (segmentIntervalId s) (segmentStartTime s)
    (rawTranscription s) (editorTitle s) (stopTasks s) (inflight s)
    (drainTimers s) (stopsWaiting s) (startsPending s) (emitted s)
    (requests s) (titleUpdates s) (orphans s).
Definition set_secondaryAudioChunks (v : list Blob) (s : State) : State :=
  mkState (primaryRecorder s) (secondaryRecorder s) (activeRecorder s)
    (primaryAudioChunks s) v (isRecording s) (isContinuousMode s)
    (currentNote s) (openingTags s) (closingTags s) (segmentCount s)
    (accumulatedTranscription s) (accumulatedPolishedNote s)
    (processingQueue s) (isProcessingSegment s) (stream s) (screenStream s)
    (micStream s) (segmentIntervalId s) (segmentStartTime s)
    (rawTranscription s) (editorTitle s) (stopTasks s) (inflight s)
    (drainTimers s) (stopsWaiting s) (startsPending s) (emitted s)
    (requests s) (titleUpdates s) (orphans s).
Definition set_isRecording (v : bool) (s : State) : State :=
  mkState (primaryRecorder s) (secondaryRecorder s) (activeRecorder s)
    (primaryAudioChunks s) (secondaryAudioChunks s) v (isContinuousMode s)
    (currentNote s) (openingTags s) (closingTags s) (segmentCount s)
    (accumulatedTranscription s) (accumulatedPolishedNote s)
    (processingQueue s) (isProcessingSegment s) (stream s) (screenStream s)
    (micStream s) (segmentIntervalId s) (segmentStartTime s)
    (rawTranscription s) (editorTitle s) (stopTasks s) (inflight s)
    (drainTimers s) (stopsWaiting s) (startsPending s) (emitted s)
    (requests s) (titleUpdates s) (orphans s).
Definition set_isContinuousMode (v : bool) (s : State) : State :=
  mkState (primaryRecorder s) (secondaryRecorder s) (activeRecorder s)
    (primaryAudioChunks s) (secondaryAudioChunks s) (isRecording s) v
    (currentNote s) (openingTags s) (closingTags s) (segmentCount s)
    (accumulatedTranscription s) (accumulatedPolishedNote s)
    (processingQueue s) (isProcessingSegment s) (stream s) (screenStream s)
    (micStream s) (segmentIntervalId s) (segmentStartTime s)
    (rawTranscription s) (editorTitle s) (stopTasks s) (inflight s)
    (drainTimers s) (stopsWaiting s) (startsPending s) (emitted s)
    (requests s) (titleUpdates s) (orphans s).
Definition set_currentNote (v : option Note) (s : State) : State :=
  mkState (primaryRecorder s) (secondaryRecorder s) (activeRecorder s)
    (primaryAudioChunks s) (secondaryAudioChunks s) (isRecording s)
    (isContinuousMode s) v (openingTags s) (closingTags s) (segmentCount s)
    (accumulatedTranscription s) (accumulatedPolishedNote s)
    (processingQueue s) (isProcessingSegment s) (stream s) (screenStream s)
    (micStream s) (segmentIntervalId s) (segmentStartTime s)
    (rawTranscription s) (editorTitle s) (stopTasks s) (inflight s)
    (drainTimers s) (stopsWaiting s) (startsPending s) (emitted s)
    (requests s) (titleUpdates s) (orphans s).
Definition set_openingTags (v : jsstring) (s : State) : State :=
  mkState (primaryRecorder s) (secondaryRecorder s) (activeRecorder s)
    (primaryAudioChunks s) (secondaryAudioChunks s) (isRecording s)
    (isContinuousMode s) (currentNote s) v (closingTags s) (segmentCount s)
    (accumulatedTranscription s) (accumulatedPolishedNote s)
    (processingQueue s) (isProcessingSegment s) (stream s) (screenStream s)
    (micStream s) (segmentIntervalId s) (segmentStartTime s)
    (rawTranscription s) (editorTitle s) (stopTasks s) (inflight s)
    (drainTimers s) (stopsWaiting s) (startsPending s) (emitted s)
    (requests s) (titleUpdates s) (orphans s).
Definition set_closingTags (v : jsstring) (s : State) : State :=
  mkState (primaryRecorder s) (secondaryRecorder s) (activeRecorder s)
    (primaryAudioChunks s) (secondaryAudioChunks s) (isRecording s)
    (isContinuousMode s) (currentNote s) (openingTags s) v (segmentCount s)
    (accumulatedTranscription s) (accumulatedPolishedNote s)
    (processingQueue s) (isProcessingSegment s) (stream s) (screenStream s)
    (micStream s) (segmentIntervalId s) (segmentStartTime s)
    (rawTranscription s) (editorTitle s) (stopTasks s) (inflight s)
    (drainTimers s) (stopsWaiting s) (startsPending s) (emitted s)
    (requests s) (titleUpdates s) (orphans s).
Definition set_segmentCount (v : nat) (s : State) : State :=
  mkState (primaryRecorder s) (secondaryRecorder s) (activeRecorder s)
    (primaryAudioChunks s) (secondaryAudioChunks s) (isRecording s)
    (isContinuousMode s) (currentNote s) (openingTags s) (closingTags s) v
    (accumulatedTranscription s) (accumulatedPolishedNote s)
    (processingQueue s) (isProcessingSegment s) (stream s) (screenStream s)
    (micStream s) (segmentIntervalId s) (segmentStartTime s)
    (rawTranscription s) (editorTitle s) (stopTasks s) (inflight s)
    (drainTimers s) (stopsWaiting s) (startsPending s) (emitted s)
    (requests s) (titleUpdates s) (orphans s).
Definition set_accumulatedTranscription (v : jsstring) (s : State) : State :=
  mkState (primaryRecorder s) (secondaryRecorder s) (activeRecorder s)
    (primaryAudioChunks s) (secondaryAudioChunks s) (isRecording s)
    (isContinuousMode s) (currentNote s) (openingTags s) (closingTags s)
    (segmentCount s) v (accumulatedPolishedNote s) (processingQueue s)
    (isProcessingSegment s) (stream s) (screenStream s) (micStream s)
    (segmentIntervalId s) (segmentStartTime s) (rawTranscription s)
    (editorTitle s) (stopTasks s) (inflight s) (drainTimers s)
    (stopsWaiting s) (startsPending s) (emitted s) (requests s)
    (titleUpdates s) (orphans s).
Definition set_accumulatedPolishedNote (v : jsstring) (s : State) : State :=
  mkState (primaryRecorder s) (secondaryRecorder s) (activeRecorder s)
    (primaryAudioChunks s) (secondaryAudioChunks s) (isRecording s)
    (isContinuousMode s) (currentNote s) (openingTags s) (closingTags s)
    (segmentCount s) (accumulatedTranscription s) v (processingQueue s)
    (isProcessingSegment s) (stream s) (screenStream s) (micStream s)
    (segmentIntervalId s) (segmentStartTime s) (rawTranscription s)
    (editorTitle s) (stopTasks s) (inflight s) (drainTimers s)
    (stopsWaiting s) (startsPending s) (emitted s) (requests s)
    (titleUpdates s) (orphans s).
Definition set_processingQueue (v : list AudioSegment) (s : State) : State :=
  mkState (primaryRecorder s) (secondaryRecorder s) (activeRecorder s)
    (primaryAudioChunks s) (secondaryAudioChunks s) (isRecording s)
    (isContinuousMode s) (currentNote s) (openingTags s) (closingTags s)
    (segmentCount s) (accumulatedTranscription s)
    (accumulatedPolishedNote s) v (isProcessingSegment s) (stream s)
    (screenStream s) (micStream s) (segmentIntervalId s)
    (segmentStartTime s) (rawTranscription s) (editorTitle s) (stopTasks s)
    (inflight s) (drainTimers s) (stopsWaiting s) (startsPending s)
    (emitted s) (requests s) (titleUpdates s) (orphans s).
Definition set_isProcessingSegment (v : bool) (s : State) : State :=
  mkState (primaryRecorder s) (secondaryRecorder s) (activeRecorder s)
    (primaryAudioChunks s) (secondaryAudioChunks s) (isRecording s)
    (isContinuousMode s) (currentNote s) (openingTags s) (closingTags s)
    (segmentCount s) (accumulatedTranscription s)
    (accumulatedPolishedNote s) (processingQueue s) v (stream s)
    (screenStream s) (micStream s) (segmentIntervalId s)
    (segmentStartTime s) (rawTranscription s) (editorTitle s) (stopTasks s)
    (inflight s) (drainTimers s) (stopsWaiting s) (startsPending s)
    (emitted s) (requests s) (titleUpdates s) (orphans s).
Definition set_stream (v : option MediaStream) (s : State) : State :=
  mkState (primaryRecorder s) (secondaryRecorder s) (activeRecorder s)
    (primaryAudioChunks s) (secondaryAudioChunks s) (isRecording s)
    (isContinuousMode s) (currentNote s) (openingTags s) (closingTags s)
    (segmentCount s) (accumulatedTranscription s)
    (accumulatedPolishedNote s) (processingQueue s) (isProcessingSegment s)
    v (screenStream s) (micStream s) (segmentIntervalId s)
    (segmentStartTime s) (rawTranscription s) (editorTitle s) (stopTasks s)
    (inflight s) (drainTimers s) (stopsWaiting s) (startsPending s)
    (emitted s) (requests s) (titleUpdates s) (orphans s).
Definition set_screenStream (v : option MediaStream) (s : State) : State :=
  mkState (primaryRecorder s) (secondaryRecorder s) (activeRecorder s)
    (primaryAudioChunks s) (secondaryAudioChunks s) (isRecording s)
    (isContinuousMode s) (currentNote s) (openingTags s) (closingTags s)
    (segmentCount s) (accumulatedTranscription s)
    (accumulatedPolishedNote s) (processingQueue s) (isProcessingSegment s)
    (stream s) v (micStream s) (segmentIntervalId s) (segmentStartTime s)
    (rawTranscription s) (editorTitle s) (stopTasks s) (inflight s)
    (drainTimers s) (stopsWaiting s) (startsPending s) (emitted s)
    (requests s) (titleUpdates s) (orphans s).
Definition set_micStream (v : option MediaStream) (s : State) : State :=
  mkState (primaryRecorder s) (secondaryRecorder s) (activeRecorder s)
    (primaryAudioChunks s) (secondaryAudioChunks s) (isRecording s)
    (isContinuousMode s) (currentNote s) (openingTags s) (closingTags s)
    (segmentCount s) (accumulatedTranscription s)
    (accumulatedPolishedNote s) (processingQueue s) (isProcessingSegment s)
    (stream s) (screenStream s) v (segmentIntervalId s) (segmentStartTime s)
    (rawTranscription s) (editorTitle s) (stopTasks s) (inflight s)
    (drainTimers s) (stopsWaiting s) (startsPending s) (emitted s)
    (requests s) (titleUpdates s) (orphans s).
Definition set_segmentIntervalId (v : option nat) (s : State) : State :=
  mkState (primaryRecorder s) (secondaryRecorder s) (activeRecorder s)
    (primaryAudioChunks s) (secondaryAudioChunks s) (isRecording s)
    (isContinuousMode s) (currentNote s) (openingTags s) (closingTags s)
    (segmentCount s) (accumulatedTranscription s)
    (accumulatedPolishedNote s) (processingQueue s) (isProcessingSegment s)
    (stream s) (screenStream s) (micStream s) v (segmentStartTime s)
    (rawTranscription s) (editorTitle s) (stopTasks s) (inflight s)
    (drainTimers s) (stopsWaiting s) (startsPending s) (emitted s)
    (requests s) (titleUpdates s) (orphans s).
Definition set_segmentStartTime (v : Z) (s : State) : State :=
  mkState (primaryRecorder s) (secondaryRecorder s) (activeRecorder s)
    (primaryAudioChunks s) (secondaryAudioChunks s) (isRecording s)
    (isContinuousMode s) (currentNote s) (openingTags s) (closingTags s)
    (segmentCount s) (accumulatedTranscription s)
    (accumulatedPolishedNote s) (processingQueue s) (isProcessingSegment s)
    (stream s) (screenStream s) (micStream s) (segmentIntervalId s) v
    (rawTranscription s) (editorTitle s) (stopTasks s) (inflight s)
    (drainTimers s) (stopsWaiting s) (startsPending s) (emitted s)
    (requests s) (titleUpdates s) (orphans s).
Definition set_rawTranscription (v : option Element) (s : State) : State :=
  mkState (primaryRecorder s) (secondaryRecorder s) (activeRecorder s)
    (primaryAudioChunks s) (secondaryAudioChunks s) (isRecording s)
    (isContinuousMode s) (currentNote s) (openingTags s) (closingTags s)
    (segmentCount s) (accumulatedTranscription s)
    (accumulatedPolishedNote s) (processingQueue s) (isProcessingSegment s)
    (stream s) (screenStream s) (micStream s) (segmentIntervalId s)
    (segmentStartTime s) v (editorTitle s) (stopTasks s) (inflight s)
    (drainTimers s) (stopsWaiting s) (startsPending s) (emitted s)
    (requests s) (titleUpdates s) (orphans s).
Definition set_editorTitle (v : option Element) (s : State) : State :=
  mkState (primaryRecorder s) (secondaryRecorder s) (activeRecorder s)
    (primaryAudioChunks s) (secondaryAudioChunks s) (isRecording s)
    (isContinuousMode s) (currentNote s) (openingTags s) (closingTags s)
    (segmentCount s) (accumulatedTranscription s)
    (accumulatedPolishedNote s) (processingQueue s) (isProcessingSegment s)
    (stream s) (screenStream s) (micStream s) (segmentIntervalId s)
    (segmentStartTime s) (rawTranscription s) v (stopTasks s) (inflight s)
    (drainTimers s) (stopsWaiting s) (startsPending s) (emitted s)
    (requests s) (titleUpdates s) (orphans s).
Definition set_stopTasks (v : list Slot) (s : State) : State :=
  mkState (primaryRecorder s) (secondaryRecorder s) (activeRecorder s)
    (primaryAudioChunks s) (secondaryAudioChunks s) (isRecording s)
    (isContinuousMode s) (currentNote s) (openingTags s) (closingTags s)
    (segmentCount s) (accumulatedTranscription s)
    (accumulatedPolishedNote s) (processingQueue s) (isProcessingSegment s)
    (stream s) (screenStream s) (micStream s) (segmentIntervalId s)
    (segmentStartTime s) (rawTranscription s) (editorTitle s) v (inflight s)
    (drainTimers s) (stopsWaiting s) (startsPending s) (emitted s)
    (requests s) (titleUpdates s) (orphans s).
Definition set_inflight (v : list Job) (s : State) : State :=
  mkState (primaryRecorder s) (secondaryRecorder s) (activeRecorder s)
    (primaryAudioChunks s) (secondaryAudioChunks s) (isRecording s)
    (isContinuousMode s) (currentNote s) (openingTags s) (closingTags s)
    (segmentCount s) (accumulatedTranscription s)
    (accumulatedPolishedNote s) (processingQueue s) (isProcessingSegment s)
    (stream s) (screenStream s) (micStream s) (segmentIntervalId s)
    (segmentStartTime s) (rawTranscription s) (editorTitle s) (stopTasks s)
    v (drainTimers s) (stopsWaiting s) (startsPending s) (emitted s)
    (requests s) (titleUpdates s) (orphans s).
Definition set_drainTimers (v : nat) (s : State) : State :=
  mkState (primaryRecorder s) (secondaryRecorder s) (activeRecorder s)
    (primaryAudioChunks s) (secondaryAudioChunks s) (isRecording s)
    (isContinuousMode s) (currentNote s) (openingTags s) (closingTags s)
    (segmentCount s) (accumulatedTranscription s)
    (accumulatedPolishedNote s) (processingQueue s) (isProcessingSegment s)
    (stream s) (screenStream s) (micStream s) (segmentIntervalId s)
    (segmentStartTime s) (rawTranscription s) (editorTitle s) (stopTasks s)
    (inflight s) v (stopsWaiting s) (startsPending s) (emitted s)
    (requests s) (titleUpdates s) (orphans s).
Definition set_stopsWaiting (v : nat) (s : State) : State :=
  mkState (primaryRecorder s) (secondaryRecorder s) (activeRecorder s)
    (primaryAudioChunks s) (secondaryAudioChunks s) (isRecording s)
    (isContinuousMode s) (currentNote s) (openingTags s) (closingTags s)
    (segmentCount s) (accumulatedTranscription s)
    (accumulatedPolishedNote s) (processingQueue s) (isProcessingSegment s)
    (stream s) (screenStream s) (micStream s) (segmentIntervalId s)
    (segmentStartTime s) (rawTranscription s) (editorTitle s) (stopTasks s)
    (inflight s) (drainTimers s) v (startsPending s) (emitted s)
    (requests s) (titleUpdates s) (orphans s).
Definition set_startsPending (v : nat) (s : State) : State :=
  mkState (primaryRecorder s) (secondaryRecorder s) (activeRecorder s)
    (primaryAudioChunks s) (secondaryAudioChunks s) (isRecording s)
    (isContinuousMode s) (currentNote s) (openingTags s) (closingTags s)
    (segmentCount s) (accumulatedTranscription s)
    (accumulatedPolishedNote s) (processingQueue s) (isProcessingSegment s)
    (stream s) (screenStream s) (micStream s) (segmentIntervalId s)
    (segmentStartTime s) (rawTranscription s) (editorTitle s) (stopTasks s)
    (inflight s) (drainTimers s) (stopsWaiting s) v (emitted s) (requests s)
    (titleUpdates s) (orphans s).
Definition set_emitted (v : list AudioSegment) (s : State) : State :=
  mkState (primaryRecorder s) (secondaryRecorder s) (activeRecorder s)
    (primaryAudioChunks s) (secondaryAudioChunks s) (isRecording s)
    (isContinuousMode s) (currentNote s) (openingTags s) (closingTags s)
    (segmentCount s) (accumulatedTranscription s)
    (accumulatedPolishedNote s) (processingQueue s) (isProcessingSegment s)
    (stream s) (screenStream s) (micStream s) (segmentIntervalId s)
    (segmentStartTime s) (rawTranscription s) (editorTitle s) (stopTasks s)
    (inflight s) (drainTimers s) (stopsWaiting s) (startsPending s) v
    (requests s) (titleUpdates s) (orphans s).
Definition set_requests (v : list jsstring) (s : State) : State :=
  mkState (primaryRecorder s) (secondaryRecorder s) (activeRecorder s)
    (primaryAudioChunks s) (secondaryAudioChunks s) (isRecording s)
    (isContinuousMode s) (currentNote s) (openingTags s) (closingTags s)
    (segmentCount s) (accumulatedTranscription s)
    (accumulatedPolishedNote s) (processingQueue s) (isProcessingSegment s)
    (stream s) (screenStream s) (micStream s) (segmentIntervalId s)
    (segmentStartTime s) (rawTranscription s) (editorTitle s) (stopTasks s)
    (inflight s) (drainTimers s) (stopsWaiting s) (startsPending s)
    (emitted s) v (titleUpdates s) (orphans s).
Definition set_titleUpdates (v : nat) (s : State) : State :=
  mkState (primaryRecorder s) (secondaryRecorder s) (activeRecorder s)
    (primaryAudioChunks s) (secondaryAudioChunks s) (isRecording s)
    (isContinuousMode s) (currentNote s) (openingTags s) (closingTags s)
    (segmentCount s) (accumulatedTranscription s)
    (accumulatedPolishedNote s) (processingQueue s) (isProcessingSegment s)
    (stream s) (screenStream s) (micStream s) (segmentIntervalId s)
    (segmentStartTime s) (rawTranscription s) (editorTitle s) (stopTasks s)
    (inflight s) (drainTimers s) (stopsWaiting s) (startsPending s)
    (emitted s) (requests s) v (orphans s).
Definition set_orphans (v : nat) (s : State) : State :=
  mkState (primaryRecorder s) (secondaryRecorder s) (activeRecorder s)
    (primaryAudioChunks s) (secondaryAudioChunks s) (isRecording s)
    (isContinuousMode s) (currentNote s) (openingTags s) (closingTags s)
    (segmentCount s) (accumulatedTranscription s)
    (accumulatedPolishedNote s) (processingQueue s) (isProcessingSegment s)
    (stream s) (screenStream s) (micStream s) (segmentIntervalId s)
    (segmentStartTime s) (rawTranscription s) (editorTitle s) (stopTasks s)
    (inflight s) (drainTimers s) (stopsWaiting s) (startsPending s)
    (emitted s) (requests s) (titleUpdates s) v.

(** The callbacks the browser runs. *)
Inductive Capture : Type :=
| MicrophoneFailed
| Captured (screen : option MediaStream) (mic : MediaStream).

(** How the conversion and the transcription call of a segment end;
    [TranscriptionText t] carries [response.text]. *)
Inductive Transcription : Type :=
| ConversionFailed
| Base64Empty
| TranscriptionThrew
| TranscriptionText (text : option jsstring).

Inductive Refinement : Type :=
| RefinementThrew
| RefinementText (text : option jsstring).

(** [ClickRecord capture now] is a click on the record button; when it
    starts a recording, the permission prompts are answered with [capture]
    before any other callback runs, and [now] is the time at that moment.
    [ClickRecordOpen] is a click on the record button that, when it starts
    a recording, leaves the start suspended at its permission prompts, and
    [CaptureSettled capture now] is the moment the prompts of a suspended
    start are answered. *)
Inductive Event : Type :=
| ClickRecord (capture : Capture) (now : Z)
| ClickRecordOpen
| CaptureSettled (capture : Capture) (now : Z)
| ClickNew (now : Z)
| SegmentTimer (now : Z)
| RecorderStopTask (data : Blob) (now : Z)
| TranscriptionDone (i : nat) (result : Transcription)
| RefinementDone (i : nat) (result : Refinement)
| DrainTimer
| StopWaitOver.

(** A method either returns or throws, with the state it leaves. *)
Inductive Completion : Type :=
| Returns (s : State)
| Throws (s : State).

Definition andThen (c : Completion) (k : State -> Completion) : Completion :=
  match c with
  | Returns s => k s
  | Throws s => Throws s
  end.

Definition SEGMENT_DURATION_MS : Z := 2 * 60 * 1000.

Definition PROMPT : jsstring := lit "Pegue nesta transcrição bruta e crie uma nota bem formatada e melhorada.
                    Remova palavras de preenchimento (hum, ah, tipo), repetições e falsos começos.
                    Formate corretamente quaisquer listas ou marcadores. Use formatação markdown para títulos, listas, etc.
                    Mantenha todo o conteúdo e significado original.
                    Esta é uma transcrição de múltiplos segmentos de uma reunião contínua.

                    Transcrição bruta:
                    ".

Section Methods.

(** The text a browser reports for an element after [innerHTML = html]. *)
Variable textOfHtml : jsstring -> jsstring.

Definition cleanupStreams (s : State) : State :=
  let s := set_stream None s in
  let s := set_screenStream None s in
  set_micStream None s.

Definition cleanupAnimations (s : State) : State :=
  set_segmentIntervalId None s.

(** Of [stopLiveDisplay] only the call of [cleanupAnimations] touches the
    modelled state. *)
Definition stopLiveDisplay (s : State) : State := cleanupAnimations s.

Definition setupAudioTags (hasTabAudio hasMicAudio : bool) (s : State) : State :=
  if hasTabAudio && hasMicAudio then
    set_closingTags (MEETING_CLOSE ++ USER_CLOSE)
      (set_openingTags (MEETING_OPEN ++ USER_OPEN) s)
  else if hasTabAudio then
    set_closingTags MEETING_CLOSE (set_openingTags MEETING_OPEN s)
  else if hasMicAudio then
    set_closingTags USER_CLOSE (set_openingTags USER_OPEN s)
  else
    set_closingTags [] (set_openingTags [] s).

Definition mergeAudioStreams (stream1 stream2 : MediaStream) : MediaStream :=
  {| audioTracks := 1 |}.

Definition setupFinalStream (hasTabAudio hasMicAudio : bool) (s : State)
  : option MediaStream :=
  if hasTabAudio && hasMicAudio then
    match screenStream s, micStream s with
    | Some screen, Some mic => Some (mergeAudioStreams screen mic)
    | _, _ => None
    end
  else if hasMicAudio then micStream s
  else if hasTabAudio then
    match screenStream s with
    | Some screen => Some (mergeAudioStreams screen screen)
    | None => None
    end
  else None.

Definition hasAudioTracks (m : option MediaStream) : bool :=
  match m with
  | Some m => (0 <? audioTracks m)%nat
  | None => false
  end.

(** [setupStreams] from the answer to the permission prompts: until then
    it has only called [cleanupStreams]. *)
Definition setupStreams_settled (capture : Capture) (s : State) : Completion :=
  match capture with
  | MicrophoneFailed => Throws s
  | Captured screen mic =>
      let s := set_screenStream screen s in
      let s := set_micStream (Some mic) s in
      let hasTabAudio := hasAudioTracks (screenStream s) in
      let hasMicAudio := hasAudioTracks (micStream s) in
      let s := setupAudioTags hasTabAudio hasMicAudio s in
      match setupFinalStream hasTabAudio hasMicAudio s with
      | Some final => Returns (set_stream (Some final) s)
      | None => Throws s
      end
  end.

Definition setupStreams (capture : Capture) (s : State) : Completion :=
  let s := cleanupStreams s in
  setupStreams_settled capture s.

(** Recorder handles. *)
Definition recorderOf (type : Slot) (s : State) : option RecordingState :=
  match type with
  | primary => primaryRecorder s
  | secondary => secondaryRecorder s
  end.

Definition set_recorder (type : Slot) (r : option RecordingState) (s : State) : State :=
  match type with
  | primary => set_primaryRecorder r s
  | secondary => set_secondaryRecorder r s
  end.

Definition chunksOf (type : Slot) (s : State) : list Blob :=
  match type with
  | primary => primaryAudioChunks s
  | secondary => secondaryAudioChunks s
  end.

Definition set_chunks (type : Slot) (chunks : list Blob) (s : State) : State :=
  match type with
  | primary => set_primaryAudioChunks chunks s
  | secondary => set_secondaryAudioChunks chunks s
  end.

(** [recorder.stop()] on a recording recorder: inactive at once, events
    queued. *)
Definition recorder_stop (type : Slot) (s : State) : State :=
  let s := set_recorder type (Some inactive) s in
  set_stopTasks (stopTasks s ++ [type]) s.

(** [if (recorder && recorder.state === 'recording') recorder.stop()]. *)
Definition stopIfRecording (type : Slot) (s : State) : State :=
  match recorderOf type s with
  | Some recording => recorder_stop type s
  | _ => s
  end.

(** [recorder.start()]: InvalidStateError unless the recorder is
    inactive. *)
Definition recorder_start (type : Slot) (s : State) : Completion :=
  match recorderOf type s with
  | Some inactive => Returns (set_recorder type (Some recording) s)
  | _ => Throws s
  end.

(** A recorder that captures goes on capturing when its slot is given to
    a new recorder. *)
Definition displaced (r : option RecordingState) : nat :=
  match r with
  | Some recording => 1
  | _ => 0
  end.

Definition setupDualMediaRecorders (s : State) : State :=
  let s := set_orphans (orphans s + displaced (primaryRecorder s)) s in
  let s := set_primaryRecorder (Some inactive) s in
  let s := set_orphans (orphans s + displaced (secondaryRecorder s)) s in
  set_secondaryRecorder (Some inactive) s.

Definition startDualRecording (now : Z) (s : State) : Completion :=
  let s := set_primaryAudioChunks [] s in
  let s := set_secondaryAudioChunks [] s in
  let s := setupDualMediaRecorders s in
  let s := set_activeRecorder primary s in
  andThen (recorder_start primary s) (fun s =>
  let s := set_segmentStartTime now s in
  let s := set_isRecording true s in
  Returns s).

Definition stopDualRecording (s : State) : State :=
  let s := stopIfRecording primary s in
  let s := stopIfRecording secondary s in
  let s := set_isRecording false s in
  stopLiveDisplay s.

Definition setupSegmentTimer (s : State) : State :=
  set_segmentIntervalId (Some 1%nat) s.

Definition handleRecordingError (s : State) : State :=
  let s := set_isRecording false s in
  let s := set_isContinuousMode false s in
  let s := cleanupStreams s in
  stopLiveDisplay s.

(** [startContinuousRecording] up to the permission prompts that
    [setupStreams] awaits, and from their answer on. *)
Definition startContinuousRecording_begin (s : State) : State :=
  let s := set_isContinuousMode true s in
  let s := set_segmentCount 1 s in
  let s := set_accumulatedTranscription [] s in
  let s := set_accumulatedPolishedNote [] s in
  let s := set_processingQueue [] s in
  let s := set_isProcessingSegment false s in
  cleanupStreams s.

Definition startContinuousRecording_settled (capture : Capture) (now : Z) (s : State)
  : State :=
  match andThen (setupStreams_settled capture s) (startDualRecording now) with
  | Returns s => if isRecording s then setupSegmentTimer s else s
  | Throws s => handleRecordingError (set_isContinuousMode false s)
  end.

(** A start whose prompts are answered before any other callback runs. *)
Definition startContinuousRecording (capture : Capture) (now : Z) (s : State) : State :=
  startContinuousRecording_settled capture now (startContinuousRecording_begin s).

(** The queue. *)
Definition processNextSegment_finally (s : State) : State :=
  let s := set_isProcessingSegment false s in
  match processingQueue s with
  | _ :: _ => set_drainTimers (S (drainTimers s)) s
  | [] => s
  end.

Definition processAudioSegment_begin (segment : AudioSegment) (s : State) : State :=
  if (size (blob segment) =? 0)%nat
  then processNextSegment_finally s
  else set_inflight (inflight s ++ [{| job_segment := segment;
                                       job_phase := Transcribing |}]) s.

Definition processNextSegment (s : State) : State :=
  match isProcessingSegment s, processingQueue s with
  | false, segment :: rest =>
      let s := set_isProcessingSegment true s in
      let s := set_processingQueue rest s in
      processAudioSegment_begin segment s
  | _, _ => s
  end.

(** Recorder events. *)
Definition ondataavailable (type : Slot) (data : Blob) (s : State) : State :=
  if (0 <? size data)%nat
  then set_chunks type (chunksOf type s ++ [data]) s
  else s.

Definition onstop (type : Slot) (now : Z) (s : State) : State :=
  let chunks := chunksOf type s in
  if (0 <? List.length chunks)%nat then
    let audioBlob := concat chunks in
    let segment := {| blob := audioBlob;
                      startTime := segmentStartTime s;
                      endTime := now;
                      segmentNumber := (segmentCount s + 1)%nat |} in
    let s := set_processingQueue (processingQueue s ++ [segment]) s in
    let s := set_emitted (emitted s ++ [segment]) s in
    let s := processNextSegment s in
    set_chunks type [] s
  else s.

(** The segment timer. *)
Definition switchRecorders (now : Z) (s : State) : State :=
  if negb (isContinuousMode s) || negb (isRecording s) then s else
  let current := activeRecorder s in
  let next := other current in
  match recorderOf current s, recorderOf next s with
  | Some _, Some _ =>
      let s := stopIfRecording current s in
      let s := set_activeRecorder next s in
      let s := set_segmentStartTime now s in
      match recorder_start next s with
      | Returns s => s
      | Throws s => s
      end
  | _, _ => s
  end.

Definition segmentTimerCallback (now : Z) (s : State) : State :=
  if isContinuousMode s && isRecording s then switchRecorders now s else s.

(** Transcription and refinement. *)
Definition addAudioTags (transcription : jsstring) (s : State) : jsstring :=
  if negb (truthy (openingTags s)) && negb (truthy (closingTags s))
  then transcription
  else openingTags s ++ transcription ++ lit " " ++ closingTags s.

Definition updateTranscriptionDisplay (text : jsstring) (s : State) : State :=
  match rawTranscription s with
  | None => s
  | Some _ =>
      let htmlText := replaceAll 10 (lit "<br>") text in
      let el := setTextContent (rawTranscription s) (textOfHtml htmlText) in
      set_rawTranscription (setPlaceholder el (negb (truthy (trim text)))) s
  end.

Definition segmentBlock (segmentNumber : nat) (text : jsstring) (s : State) : jsstring :=
  let segmentHeader :=
    [10; 10]%N ++ lit "=== SEGMENTO " ++ toString segmentNumber ++ lit " ===" ++ [10]%N in
  let finalRaw := addAudioTags (trim text) s in
  segmentHeader ++ finalRaw.

Definition set_note_rawTranscription (text : jsstring) (s : State) : State :=
  match currentNote s with
  | Some n => set_currentNote (Some {| id := id n;
                                       note_rawTranscription := text;
                                       note_polishedNote := note_polishedNote n;
                                       timestamp := timestamp n |}) s
  | None => s
  end.

Definition set_note_polishedNote (text : jsstring) (s : State) : State :=
  match currentNote s with
  | Some n => set_currentNote (Some {| id := id n;
                                       note_rawTranscription := note_rawTranscription n;
                                       note_polishedNote := text;
                                       timestamp := timestamp n |}) s
  | None => s
  end.

(** The end of [processNextSegment] for job [i]: the job is over, the
    guard is released and a drain is scheduled if segments wait. *)
Definition finish (i : nat) (s : State) : State :=
  processNextSegment_finally (set_inflight (delete i (inflight s)) s).

(** [getPolishedNote] up to its remote call. *)
Definition getPolishedNote_begin (i : nat) (s : State) : State :=
  if negb (hasValidContent (rawTranscription s)) then finish i s else
  let prompt := PROMPT ++ accumulatedTranscription s in
  let s := set_requests (requests s ++ [prompt]) s in
  match inflight s !! i with
  | Some job => set_inflight (<[i := {| job_segment := job_segment job;
                                        job_phase := Refining |}]> (inflight s)) s
  | None => s
  end.

(** [getSegmentTranscription] from the arrival of a non-empty text. *)
Definition getSegmentTranscription_text (i : nat) (segmentNumber : nat)
           (transcriptionText : jsstring) (s : State) : State :=
  let s := set_segmentCount (Nat.max (segmentCount s) segmentNumber) s in
  let fullTranscription := segmentBlock segmentNumber transcriptionText s in
  let s := set_accumulatedTranscription (accumulatedTranscription s ++ fullTranscription) s in
  let s := updateTranscriptionDisplay (accumulatedTranscription s) s in
  let s := set_note_rawTranscription (accumulatedTranscription s) s in
  getPolishedNote_begin i s.

Definition transcriptionDone (i : nat) (result : Transcription) (s : State) : State :=
  match inflight s !! i with
  | Some {| job_segment := segment; job_phase := Transcribing |} =>
      match result with
      | TranscriptionText (Some transcriptionText) =>
          if truthy transcriptionText
          then getSegmentTranscription_text i (segmentNumber segment) transcriptionText s
          else finish i s
      | _ => finish i s
      end
  | _ => s
  end.

(** [getPolishedNote] from the arrival of a non-empty text. *)
Definition getPolishedNote_text (polishedText : jsstring) (s : State) : State :=
  let s := set_accumulatedPolishedNote polishedText s in
  let s := if (segmentCount s =? 1)%nat
           then set_titleUpdates (S (titleUpdates s))
                  (set_editorTitle (Title.updateNoteTitle polishedText (editorTitle s)) s)
           else s in
  set_note_polishedNote polishedText s.

Definition refinementDone (i : nat) (result : Refinement) (s : State) : State :=
  match inflight s !! i with
  | Some {| job_segment := _; job_phase := Refining |} =>
      let s := match result with
               | RefinementText (Some polishedText) =>
                   if truthy polishedText then getPolishedNote_text polishedText s else s
               | _ => s
               end in
      finish i s
  | _ => s
  end.

(** Stopping.  [stopContinuousRecording] runs up to the wait loop of
    [finalizeContinuousRecording], sleeps, and ends with the teardown. *)
Definition stopContinuousRecording_begin (s : State) : State :=
  let s := set_isContinuousMode false s in
  let s := cleanupAnimations s in
  if isRecording s then stopIfRecording (activeRecorder s) s else s.

Definition stopContinuousRecording_end (s : State) : State :=
  let s := stopDualRecording s in
  cleanupStreams s.

(** The wait loop: [sleep k] is whatever the other callbacks do to the
    state during the [k]-th sleep of 200 ms; [remaining] is [50 - attempts]. *)
Fixpoint waitForQueue (remaining : nat) (sleep : nat -> State -> State)
         (attempts : nat) (s : State) : State * nat :=
  match remaining with
  | O => (s, attempts)
  | S remaining' =>
      if negb (List.length (processingQueue s) =? 0)%nat || isProcessingSegment s
      then waitForQueue remaining' sleep (S attempts) (sleep attempts s)
      else (s, attempts)
  end.

Definition stopContinuousRecording (sleep : nat -> State -> State) (s : State)
  : State * nat :=
  let waiting := isRecording s in
  let s := stopContinuousRecording_begin s in
  let '(s, attempts) := if waiting then waitForQueue 50 sleep 0 s else (s, 0%nat) in
  (stopContinuousRecording_end s, attempts).

Definition toggleRecording (capture : Capture) (now : Z) (s : State) : State :=
  if negb (isRecording s)
  then startContinuousRecording capture now s
  else set_stopsWaiting (S (stopsWaiting s)) (stopContinuousRecording_begin s).

(** [toggleRecording] up to the first suspension of the call it makes. *)
Definition toggleRecording_begin (s : State) : State :=
  if negb (isRecording s)
  then set_startsPending (S (startsPending s)) (startContinuousRecording_begin s)
  else set_stopsWaiting (S (stopsWaiting s)) (stopContinuousRecording_begin s).

Definition createNewNote (now : Z) (s : State) : State :=
  let s := if isContinuousMode s
           then cleanupAnimations (set_isContinuousMode false s)
           else s in
  let s := set_currentNote (Some {| id := now;
                                    note_rawTranscription := [];
                                    note_polishedNote := [];
                                    timestamp := now |}) s in
  let s := set_segmentCount 0 s in
  let s := set_accumulatedTranscription [] s in
  let s := set_accumulatedPolishedNote [] s in
  let s := set_processingQueue [] s in
  let s := set_isProcessingSegment false s in
  let s := set_rawTranscription (setPlaceholder (rawTranscription s) true) s in
  let s := set_editorTitle (setPlaceholder (editorTitle s) true) s in
  if isRecording s then stopDualRecording s else stopLiveDisplay s.

(** One callback. *)
Definition step (e : Event) (s : State) : State :=
  match e with
  | ClickRecord capture now => toggleRecording capture now s
  | ClickRecordOpen => toggleRecording_begin s
  | CaptureSettled capture now =>
      match startsPending s with
      | S n => startContinuousRecording_settled capture now (set_startsPending n s)
      | O => s
      end
  | ClickNew now => createNewNote now s
  | SegmentTimer now =>
      match segmentIntervalId s with
      | Some _ => segmentTimerCallback now s
      | None => s
      end
  | RecorderStopTask data now =>
      match stopTasks s with
      | type :: rest =>
          onstop type now (ondataavailable type data (set_stopTasks rest s))
      | [] => s
      end
  | TranscriptionDone i result => transcriptionDone i result s
  | RefinementDone i result => refinementDone i result s
  | DrainTimer =>
      match drainTimers s with
      | S n => processNextSegment (set_drainTimers n s)
      | O => s
      end
  | StopWaitOver =>
      match stopsWaiting s with
      | S n => stopContinuousRecording_end (set_stopsWaiting n s)
      | O => s
      end
  end.

Fixpoint run (events : list Event) (s : State) : State :=
  match events with
  | [] => s
  | e :: events' => run events' (step e s)
  end.

(** The state the constructor leaves, for a page with the given
    elements. *)
Definition fieldInitialisers (rawTranscription editorTitle : option Element) : State :=
  {| primaryRecorder := None; secondaryRecorder := None; activeRecorder := primary;
     primaryAudioChunks := []; secondaryAudioChunks := [];
     isRecording := false; isContinuousMode := false; currentNote := None;
     openingTags := []; closingTags := []; segmentCount := 0;
     accumulatedTranscription := []; accumulatedPolishedNote := [];
     processingQueue := []; isProcessingSegment := false;
     stream := None; screenStream := None; micStream := None;
     segmentIntervalId := None; segmentStartTime := 0;
     rawTranscription := rawTranscription; editorTitle := editorTitle;
     stopTasks := []; inflight := []; drainTimers := 0; stopsWaiting := 0;
     startsPending := 0; emitted := []; requests := []; titleUpdates := 0;
     orphans := 0 |}.

Definition constructed (rawTranscription editorTitle : option Element) (now : Z) : State :=
  createNewNote now (fieldInitialisers rawTranscription editorTitle).

End Methods.

End App.

(** ** Properties of states, and schedules *)

Module Props.
Import Js Dom App.

(** A recorder slot is capturing. *)
Definition capturing (type : Slot) (s : State) : Prop :=
  recorderOf type s = Some recording.

(** Recording is on in the sense of the guards of the segment timer and of
    [switchRecorders]. *)
Definition recordingOn (s : State) : Prop :=
  isContinuousMode s = true /\ isRecording s = true.

(** The recorder invariant: while [isRecording] holds both recorders exist,
    the one that is not active is inactive and, while recording is on, the
    active one captures and the segment timer is armed; otherwise no
    recorder captures. *)
Definition recordersConsistent (s : State) : Prop :=
  if isRecording s then
    recorderOf (activeRecorder s) s <> None
    /\ recorderOf (other (activeRecorder s)) s = Some inactive
    /\ (isContinuousMode s = true ->
        capturing (activeRecorder s) s /\ segmentIntervalId s <> None)
  else ~ capturing primary s /\ ~ capturing secondary s.

(** Single flight: at most one segment is being processed, and the guard
    flag is set exactly while one is. *)
Definition singleFlight (s : State) : Prop :=
  (List.length (inflight s) <= 1)%nat
  /\ (isProcessingSegment s = true <-> inflight s <> []).

(** Events that reset the queue and its guard: a click on "new note", and a
    click on the record button that starts a session. *)
Definition resets (e : Event) (s : State) : bool :=
  match e with
  | ClickNew _ => true
  | ClickRecord _ _ | ClickRecordOpen => negb (isRecording s)
  | _ => false
  end.

Definition idle (s : State) : bool :=
  match inflight s with [] => true | _ :: _ => false end.


(** The two halves of a start that is suspended at its permission
    prompts. *)
Definition suspendedStart (e : Event) : bool :=
  match e with
  | ClickRecordOpen | CaptureSettled _ _ => true
  | _ => false
  end.

Section Schedules.
Variable textOfHtml : jsstring -> jsstring.


(** No reset happens while a segment is being processed. *)
Fixpoint resetsWhenIdle (events : list Event) (s : State) : bool :=
  match events with
  | [] => true
  | e :: events' =>
      (negb (resets e s) || idle s)
      && resetsWhenIdle events' (step textOfHtml e s)
  end.

End Schedules.

Section Display.
Variable textOfHtml : jsstring -> jsstring.

(** What the raw-transcript element shows for an accumulated text, and
    whether [hasValidContent] accepts it: not blank and not the
    placeholder of the element. *)
Definition shownText (text : jsstring) : jsstring :=
  trim (textOfHtml (replaceAll 10 (lit "<br>") text)).

Definition displayable (el : Element) (text : jsstring) : bool :=
  truthy (shownText text) && negb (eqb (shownText text) (placeholder el)).

End Display.

(** The text of a successful transcription. *)
Definition transcribed (result : Transcription) : option jsstring :=
  match result with
  | TranscriptionText (Some text) => if truthy text then Some text else None
  | _ => None
  end.

(** The callbacks that take the head of the queue through its
    transcription, its refinement and the scheduled drain, one triple per
    segment. *)
Definition drainEvents (outcomes : list (Transcription * Refinement)) : list Event :=
  flat_map (fun o => [TranscriptionDone 0 (fst o); RefinementDone 0 (snd o); DrainTimer])
           outcomes.

(** The blocks of the segments whose transcription succeeded, in order. *)
Fixpoint blocks (segments : list AudioSegment)
         (outcomes : list (Transcription * Refinement)) (s : State) : jsstring :=
  match segments, outcomes with
  | segment :: segments', o :: outcomes' =>
      match transcribed (fst o) with
      | Some text => segmentBlock (segmentNumber segment) text s
      | None => []
      end ++ blocks segments' outcomes' s
  | _, _ => []
  end.

(** Invariants of the proofs, and the fields each of them reads. *)

(** What the recorder invariant reads. *)
Definition recorderView (s : State) :=
  (primaryRecorder s, secondaryRecorder s, activeRecorder s,
   isRecording s, isContinuousMode s, segmentIntervalId s,
   startsPending s, orphans s).


(** What the single-flight guard reads, and its invariant: no segment in
    processing and the guard clear, or one and the guard set. *)
Definition queueView (s : State) := (isProcessingSegment s, inflight s).

Definition queueConsistent (s : State) : Prop :=
  match inflight s with
  | [] => isProcessingSegment s = false
  | [_] => isProcessingSegment s = true
  | _ => False
  end.

(** The chunk lists of the two recorders; between callbacks they are
    empty. *)
Definition chunkView (s : State) := (primaryAudioChunks s, secondaryAudioChunks s).

Definition chunksEmpty (s : State) : Prop := forall type, chunksOf type s = [].

(** What a drain leaves alone or extends: the transcript, the source tags
    and the waiting segments. *)
Definition drainView (s : State) :=
  (accumulatedTranscription s, openingTags s, closingTags s, processingQueue s).

(** The one segment in processing awaits its transcription, respectively
    its refinement. *)
Definition transcribing (s : State) (segment : AudioSegment) : Prop :=
  inflight s = [{| job_segment := segment; job_phase := Transcribing |}]
  /\ isProcessingSegment s = true.

Definition refining (s : State) (segment : AudioSegment) : Prop :=
  inflight s = [{| job_segment := segment; job_phase := Refining |}]
  /\ isProcessingSegment s = true.

(** The segment is over; if others wait, a drain is scheduled. *)
Definition released (s : State) : Prop :=
  inflight s = [] /\ isProcessingSegment s = false
  /\ (processingQueue s <> [] -> drainTimers s <> 0%nat).

(** The callbacks that may run between the start of a session and the
    click that stops it: fires of the segment timer, recorder stops that
    flush data, and the queue's completions and drains. *)
Definition whileRecording (e : Event) : bool :=
  match e with
  | SegmentTimer _ | TranscriptionDone _ _ | RefinementDone _ _ | DrainTimer => true
  | RecorderStopTask data _ => (0 <? size data)%nat
  | ClickRecord _ _ | ClickRecordOpen | CaptureSettled _ _ | ClickNew _
  | StopWaitOver => false
  end.

(** The callbacks that neither start nor stop a recording: fires of the
    segment timer, recorder stops with or without data, and the queue's
    completions and drains. *)
Definition duringRecording (e : Event) : bool :=
  match e with
  | SegmentTimer _ | RecorderStopTask _ _ | TranscriptionDone _ _ | RefinementDone _ _
  | DrainTimer => true
  | ClickRecord _ _ | ClickRecordOpen | CaptureSettled _ _ | ClickNew _
  | StopWaitOver => false
  end.

(** After the click that stops the session the end of the wait loop may
    run as well. *)
Definition whileStopping (e : Event) : bool :=
  match e with
  | StopWaitOver => true
  | _ => whileRecording e
  end.

(** The segment-timer intervals that elapse in a schedule. *)
Fixpoint intervals (events : list Event) : nat :=
  match events with
  | [] => 0
  | SegmentTimer _ :: events' => S (intervals events')
  | _ :: events' => intervals events'
  end.

(** What the count of a session's segments reads. *)
Definition tallyView (s : State) := (emitted s, stopTasks s, segmentCount s).

(** [n] recorder stops were requested since the segments [before]: each
    has either emitted its segment or is still to run, and every segment
    emitted since is numbered 2 or more. *)
Definition tally (before : list AudioSegment) (n : nat) (s : State) : Prop :=
  (1 <= segmentCount s)%nat
  /\ exists segments,
       emitted s = before ++ segments
       /\ (List.length segments + List.length (stopTasks s))%nat = n
       /\ Forall (fun segment => (2 <= segmentNumber segment)%nat) segments.

(** A session is recording, respectively was stopped by the user. *)
Definition recordingPhase (before : list AudioSegment) (n : nat) (s : State) : Prop :=
  recordersConsistent s /\ recordingOn s /\ tally before n s.

Definition stoppingPhase (before : list AudioSegment) (n : nat) (s : State) : Prop :=
  isContinuousMode s = false
  /\ ~ capturing primary s /\ ~ capturing secondary s
  /\ tally before n s.

(** What the numbering of the segments reads, and what the title
    derivation writes. *)
Definition numberView (s : State) := (segmentCount s, processingQueue s, inflight s).

Definition titleView (s : State) := (titleUpdates s, editorTitle s).

(** The numbering of a session: [segmentCount] is at least 1, the segments
    that wait or are in processing are numbered 2 or more, and once one of
    them is transcribed [segmentCount] is 2 or more as well. *)
Definition numbered (s : State) : Prop :=
  (1 <= segmentCount s)%nat
  /\ Forall (fun segment => (2 <= segmentNumber segment)%nat) (processingQueue s)
  /\ Forall (fun job => (2 <= segmentNumber (job_segment job))%nat
                        /\ (job_phase job = Refining -> (2 <= segmentCount s)%nat))
            (inflight s).

(** The capture yields sound: the microphone was granted, and the tab or
    the microphone carries an audio track. *)
Definition audible (capture : Capture) : bool :=
  match capture with
  | MicrophoneFailed => false
  | Captured screen mic => hasAudioTracks screen || hasAudioTracks (Some mic)
  end.

(** The recorder slots that capture, primary first. *)
Definition isCapturing (type : Slot) (s : State) : bool :=
  match recorderOf type s with
  | Some recording => true
  | _ => false
  end.

Definition capturingSlots (s : State) : list Slot :=
  List.filter (fun type => isCapturing type s) [primary; secondary].

(** The queue cannot stall: while the guard is set a segment is in
    processing, whose completion clears it; and while the guard is clear
    and segments wait, a drain is scheduled. *)
Definition neverStalls (s : State) : Prop :=
  (isProcessingSegment s = true -> inflight s <> [])
  /\ (isProcessingSegment s = false -> processingQueue s <> [] ->
      drainTimers s <> 0%nat).

Definition stallView (s : State) :=
  (isProcessingSegment s, inflight s, processingQueue s, drainTimers s).

(** The segments in processing and waiting are the last ones emitted, in
    the order of their emission; [done] are the earlier ones. *)
Definition inOrder (s : State) : Prop :=
  exists done,
    emitted s = done ++ map job_segment (inflight s) ++ processingQueue s.

Definition orderView (s : State) := (emitted s, inflight s, processingQueue s).

(** The states the wait loop of [finalizeContinuousRecording] sees: the
    state at its [k]-th test, when the first test is number [attempts]. *)
Fixpoint waitStates (sleep : nat -> State -> State) (attempts : nat) (s : State)
         (k : nat) : State :=
  match k with
  | O => s
  | S k' => waitStates sleep (S attempts) (sleep attempts s) k'
  end.

(** The test of the wait loop. *)
Definition queueBusy (s : State) : bool :=
  negb (List.length (processingQueue s) =? 0)%nat || isProcessingSegment s.

Section Resets.
Variable textOfHtml : jsstring -> jsstring.

(** No event of the schedule resets the session. *)
Fixpoint noResets (events : list Event) (s : State) : bool :=
  match events with
  | [] => true
  | e :: events' => negb (resets e s) && noResets events' (step textOfHtml e s)
  end.

End Resets.

(** What grows in the course of a session. *)
Definition progressView (s : State) := (accumulatedTranscription s, segmentCount s).

(** The transcript of [s'] extends that of [s], and the segment counter
    did not go back. *)
Definition extends (s s' : State) : Prop :=
  (exists blocks, accumulatedTranscription s' = accumulatedTranscription s ++ blocks)
  /\ (segmentCount s <= segmentCount s')%nat.

End Props.

(** ** Sample data for concrete runs *)

Module Examples.
Import Js Dom App Props.
Local Open Scope Z_scope.

(** A page that reports the markup it was given as its text. *)
Definition markupAsText (html : jsstring) : jsstring := html.

Definition rawElement : option Element :=
  Some {| textContent := []; placeholder := lit "Raw transcription will appear here...";
          placeholderActive := false |}.

Definition titleElement : option Element :=
  Some {| textContent := []; placeholder := lit "Untitled Note";
          placeholderActive := false |}.

Definition fresh : State := constructed rawElement titleElement 0.

Definition microphone : Capture := Captured None {| audioTracks := 1 |}.

Definition said (text : string) : Transcription := TranscriptionText (Some (lit text)).

Definition polished (text : string) : Refinement := RefinementText (Some (lit text)).

(** Record, stop before the first interval, the recorder flushes 3 bytes. *)
Definition shortSession : list Event :=
  [ClickRecord microphone 0; ClickRecord microphone 5000;
   RecorderStopTask [1; 2; 3] 5001; StopWaitOver].

(** One interval elapses and the user stops while the first segment is
    still being transcribed. *)
Definition slowSession : list Event :=
  [ClickRecord microphone 0; SegmentTimer 120000; RecorderStopTask [1; 2; 3] 120001;
   ClickRecord microphone 130000; RecorderStopTask [4; 5] 130001].

(** One interval elapses and the first segment is transcribed and refined
    before the user stops. *)
Definition promptSession : list Event :=
  [ClickRecord microphone 0; SegmentTimer 120000; RecorderStopTask [1; 2; 3] 120001;
   TranscriptionDone 0 (said "first part"); RefinementDone 0 (polished "# Notes");
   ClickRecord microphone 130000; RecorderStopTask [4; 5] 130001;
   TranscriptionDone 0 (said "second part"); RefinementDone 0 (polished "# Notes again");
   StopWaitOver].

(** "New note" is clicked while the first segment is being processed. *)
Definition newNoteWhileProcessing : list Event :=
  [ClickRecord microphone 0; SegmentTimer 120000; RecorderStopTask [1; 2; 3] 120001;
   ClickNew 125000; RecorderStopTask [4; 5] 125001].

(** A session is stopped while its first segment is still being processed
    (the wait loop gives up), and the next session starts. *)
Definition restartWhileProcessing : list Event :=
  [ClickRecord microphone 0; SegmentTimer 120000; RecorderStopTask [1; 2; 3] 120001;
   ClickRecord microphone 130000; RecorderStopTask [4; 5] 130001; StopWaitOver;
   ClickRecord microphone 150000; SegmentTimer 270000; RecorderStopTask [6] 270001].


(** "New note" is clicked while the permission prompts of a start are
    open; the capture is granted afterwards. *)
Definition newNoteAtPrompt : list Event :=
  [ClickRecordOpen; ClickNew 1000; CaptureSettled microphone 2000].


(** Three queued segments, the second of which fails to transcribe. *)
Definition segment1 : AudioSegment :=
  {| blob := [1]; startTime := 0; endTime := 10; segmentNumber := 1 |}.
Definition segment2 : AudioSegment :=
  {| blob := [2]; startTime := 10; endTime := 20; segmentNumber := 2 |}.
Definition segment3 : AudioSegment :=
  {| blob := [3]; startTime := 20; endTime := 30; segmentNumber := 3 |}.

Definition threeQueued : State :=
  set_processingQueue [segment1; segment2; segment3] fresh.

Definition secondFails : list (Transcription * Refinement) :=
  [(said "one", polished "one"); (TranscriptionThrew, RefinementThrew);
   (said "three", polished "one three")].

Definition stereo : Wav.AudioBuffer :=
  {| Wav.length := 2; Wav.sampleRate := 48000;
     Wav.channels := [[Num (1 # 2); Num (-2)]; [Num (- (1 # 2)); Num 0]] |}.

End Examples.


(** ** Saving notes *)

Module Save.
Import Js Dom App.

(** [s.replace(/<[^>]*>/g, '')], read from left to right: a ['<'] opens a
    candidate tag, which the next ['>'] closes and removes; [held] is the
    text of a candidate that is still open, and stays in the result when
    no ['>'] follows. *)
Fixpoint stripTagsFrom (held : option jsstring) (s : jsstring) : jsstring :=
  match s with
  | [] => default [] held
  | c :: r =>
      match held with
      | None => if (c =? 60)%N then stripTagsFrom (Some [c]) r
                else c :: stripTagsFrom None r
      | Some tag => if (c =? 62)%N then stripTagsFrom None r
                    else stripTagsFrom (Some (tag ++ [c])) r
      end
  end.

Definition stripTags (s : jsstring) : jsstring := stripTagsFrom None s.

(** The element with the id [polishedNote]: [hasValidContent] and the
    placeholder handlers read its [innerText], [saveNewNote] its
    [innerHTML]. *)
Record NoteElement : Type := {
  innerText : jsstring;
  innerHTML : jsstring;
  note_placeholder : jsstring;
  note_placeholderActive : bool;
}.

(** [hasValidContent] on the polished note. *)
Definition hasValidNote (element : option NoteElement) : bool :=
  match element with
  | None => false
  | Some el =>
      let content := trim (innerText el) in
      truthy content && negb (eqb content (note_placeholder el))
      && negb (note_placeholderActive el)
  end.

Definition NO_NOTE_TO_SAVE : jsstring := lit "Nenhuma nota para salvar".
Definition NOTE_SAVED : jsstring := lit "Nota salva com sucesso no navegador".
Definition SAVE_ERROR : jsstring := lit "Erro ao salvar a nota".
Definition UNTITLED : jsstring := lit "Nota sem título".

(** What [saveNewNote] leaves: the application state, the item
    [voiceNotesAppNotas] of [localStorage], the status line and the content
    behind the download link. *)
Record Saved : Type := {
  state : State;
  store : option jsstring;
  status : jsstring;
  download : option jsstring;
}.

Definition segmentInfo (s : State) : jsstring :=
  if (0 <? segmentCount s)%nat
  then lit " (" ++ toString (segmentCount s) ++ lit " segmentos)"
  else [].

Definition noteTitle (s : State) : jsstring :=
  if hasValidContent (editorTitle s)
  then match editorTitle s with
       | Some el => textContent el
       | None => []
       end
  else UNTITLED.

Definition finalContent (title segmentInfo dateFormatted timeFormatted textContent
                         : jsstring) : jsstring :=
  [10; 10]%N ++ lit "=== " ++ title ++ segmentInfo ++ lit " - " ++ dateFormatted
  ++ lit " às " ++ timeFormatted ++ lit " ===" ++ [10; 10]%N ++ textContent ++ [10; 10]%N.

Definition set_note_timestamp (now : Z) (s : State) : State :=
  match currentNote s with
  | Some n => set_currentNote (Some {| id := id n;
                                       note_rawTranscription := note_rawTranscription n;
                                       note_polishedNote := note_polishedNote n;
                                       timestamp := now |}) s
  | None => s
  end.

(** [saveNewNote].  [dateFormatted] and [timeFormatted] are what
    [toLocaleDateString] and [toLocaleTimeString] give; [setItemThrows]
    says that [localStorage.setItem] throws (the quota is exceeded), which
    the [catch] turns into the error status. *)
Definition saveNewNote (polishedNote : option NoteElement)
           (dateFormatted timeFormatted : jsstring) (now : Z) (setItemThrows : bool)
           (savedNotes : option jsstring) (s : State) : Saved :=
  if negb (hasValidNote polishedNote) then
    {| state := s; store := savedNotes; status := NO_NOTE_TO_SAVE; download := None |}
  else
    let noteContent := match polishedNote with
                       | Some el => innerHTML el
                       | None => []
                       end in
    let textContent := stripTags noteContent in
    let title := noteTitle s in
    let finalContent :=
      finalContent title (segmentInfo s) dateFormatted timeFormatted textContent in
    let updatedNotes := default [] savedNotes ++ finalContent in
    if setItemThrows then
      {| state := s; store := savedNotes; status := SAVE_ERROR; download := None |}
    else
      {| state := set_note_timestamp now s; store := Some updatedNotes;
         status := NOTE_SAVED; download := Some updatedNotes |}.

End Save.

(** ** The placeholder handlers of the page *)

Module Page.
Import Js Dom.

(** [updatePlaceholderState], run when the page is loaded and on [blur],
    for an editable element other than the polished note. *)
Definition updatePlaceholderState (el : Element) : Element :=
  let currentText := trim (textContent el) in
  let isEmpty := negb (truthy currentText) || eqb currentText (placeholder el) in
  if isEmpty then
    {| textContent := if negb (truthy currentText) then [] else textContent el;
       placeholder := placeholder el;
       placeholderActive := true |}
  else
    {| textContent := textContent el;
       placeholder := placeholder el;
       placeholderActive := false |}.

(** The [focus] handler. *)
Definition onfocus (el : Element) : Element :=
  let currentText := trim (textContent el) in
  if eqb currentText (placeholder el) then
    {| textContent := []; placeholder := placeholder el; placeholderActive := false |}
  else el.

Definition onblur (el : Element) : Element := updatePlaceholderState el.

End Page.

(** ** The data URL of a converted segment *)

Module Base64.
Import Js.

(** [base64data.split(',')[1]] in [blobToBase64]; [None] is [undefined]. *)
Definition blobToBase64 (base64data : jsstring) : option jsstring :=
  split 44 base64data !! 1%nat.

End Base64.

(** ** The theme *)

Module Theme.
Import Js.

(** The page as the theme code sees it: the class [light-mode] of the body,
    the item [theme] of [localStorage], and the classes [fa-moon] and
    [fa-sun] of the toggle icon when the page has one. *)
Record Page : Type := {
  lightMode : bool;
  savedTheme : option jsstring;
  icon : option (bool * bool);
}.

Definition isLightTheme (savedTheme : option jsstring) : bool :=
  match savedTheme with
  | Some t => Dom.eqb t (lit "light")
  | None => false
  end.

Definition initTheme (p : Page) : Page :=
  let isLight := isLightTheme (savedTheme p) in
  {| lightMode := isLight;
     savedTheme := savedTheme p;
     icon := match icon p with
             | Some _ => Some (isLight, negb isLight)
             | None => None
             end |}.

Definition toggleTheme (p : Page) : Page :=
  let isLight := negb (lightMode p) in
  {| lightMode := isLight;
     savedTheme := Some (if isLight then lit "light" else lit "dark");
     icon := match icon p with
             | Some _ => Some (isLight, negb isLight)
             | None => None
             end |}.

(** Loading the page again: only [localStorage] survives; [iconClasses]
    are the classes of the icon in the markup. *)
Definition reload (iconClasses : option (bool * bool)) (p : Page) : Page :=
  initTheme {| lightMode := false; savedTheme := savedTheme p; icon := iconClasses |}.

End Theme.

(** ** The live timer *)

Module Timer.
Import Js App.
Local Open Scope Z_scope.

(** [String(n)] for an integer. *)
Definition numberToString (n : Z) : jsstring :=
  lit (NilZero.string_of_int (Z.to_int n)).

(** [s.padStart(targetLength, pad)] for a one-unit pad. *)
Definition padStart (targetLength : nat) (pad : N) (s : jsstring) : jsstring :=
  replicate (targetLength - List.length s) pad ++ s.

Definition pad2 (n : Z) : jsstring := padStart 2 48 (numberToString n).

(** The text of [updateLiveTimer]; [Math.floor] of a quotient of integers
    is [Z.div], and [%] is [Z.rem]. *)
Definition timerText (now recordingStartTime : Z) (s : State) : jsstring :=
  let elapsedMs := now - recordingStartTime in
  let totalSeconds := elapsedMs / 1000 in
  let minutes := totalSeconds / 60 in
  let seconds := Z.rem totalSeconds 60 in
  let hundredths := Z.rem elapsedMs 1000 / 10 in
  let timerText := pad2 minutes ++ lit ":" ++ pad2 seconds ++ lit "." ++ pad2 hundredths in
  if isContinuousMode s then
    let segmentElapsed := now - segmentStartTime s in
    let segmentSeconds := segmentElapsed / 1000 in
    let segmentMinutes := segmentSeconds / 60 in
    let segmentRemainingSeconds := Z.rem segmentSeconds 60 in
    let timerText :=
      timerText ++ lit " | Seg: " ++ pad2 segmentMinutes ++ lit ":"
      ++ pad2 segmentRemainingSeconds in
    if (0 <? List.length (processingQueue s))%nat || isProcessingSegment s
    then timerText ++ lit " | Processando: " ++ toString (segmentCount s) ++ lit " Seg"
    else timerText
  else timerText.

(** [updateLiveTimer]: [display] is the text of the timer element, [None]
    when the page has none. *)
Definition updateLiveTimer (display : option jsstring) (now recordingStartTime : Z)
           (s : State) : option jsstring :=
  match display with
  | Some text => if negb (isRecording s) then Some text
                 else Some (timerText now recordingStartTime s)
  | None => None
  end.

(** Two decimal digits. *)
Definition digits2 (n : Z) : jsstring := [Z.to_N (48 + n / 10); Z.to_N (48 + n mod 10)].

End Timer.

(** ** The single-recording variant of the application ([index.tsx]) *)

Module Single.
Import Js Dom.

Definition PROMPT : jsstring := lit "Pegue nesta transcrição bruta e crie uma nota bem formatada e melhorada.
                    Remova palavras de preenchimento (hum, ah, tipo), repetições e falsos começos.
                    Formate corretamente quaisquer listas ou marcadores. Use formatação markdown para títulos, listas, etc.
                    Mantenha todo o conteúdo e significado original.

                    Transcrição bruta:
                    ".

Record State : Type := mkState {
  (** Fields of the class. *)
  mediaRecorder : option App.RecordingState;
  audioChunks : list App.Blob;
  isRecording : bool;
  currentNote : option App.Note;
  openingTags : jsstring;
  closingTags : jsstring;
  stream : option App.MediaStream;
  screenStream : option App.MediaStream;
  micStream : option App.MediaStream;
  (** Page elements the pipeline reads back. *)
  rawTranscription : option Element;
  editorTitle : option Element;
  (** What the browser still owes the application: the queued stop tasks
      of stopped recorders and the recordings whose processing has started
      and not ended; and the refinement prompts sent. *)
  stopTasks : nat;
  inflight : list App.Phase;
  requests : list jsstring;
}.

(** Field updates. *)
Definition set_mediaRecorder (v : option App.RecordingState) (s : State) : State :=
  mkState v (audioChunks s) (isRecording s) (currentNote s) (openingTags s)
          (closingTags s) (stream s) (screenStream s) (micStream s)
          (rawTranscription s) (editorTitle s) (stopTasks s) (inflight s)
          (requests s).
Definition set_audioChunks (v : list App.Blob) (s : State) : State :=
  mkState (mediaRecorder s) v (isRecording s) (currentNote s) (openingTags s)
          (closingTags s) (stream s) (screenStream s) (micStream s)
          (rawTranscription s) (editorTitle s) (stopTasks s) (inflight s)
          (requests s).
Definition set_isRecording (v : bool) (s : State) : State :=
  mkState (mediaRecorder s) (audioChunks s) v (currentNote s) (openingTags s)
          (closingTags s) (stream s) (screenStream s) (micStream s)
          (rawTranscription s) (editorTitle s) (stopTasks s) (inflight s)
          (requests s).
Definition set_currentNote (v : option App.Note) (s : State) : State :=
  mkState (mediaRecorder s) (audioChunks s) (isRecording s) v (openingTags s)
          (closingTags s) (stream s) (screenStream s) (micStream s)
          (rawTranscription s) (editorTitle s) (stopTasks s) (inflight s)
          (requests s).
Definition set_openingTags (v : jsstring) (s : State) : State :=
  mkState (mediaRecorder s) (audioChunks s) (isRecording s) (currentNote s) v
          (closingTags s) (stream s) (screenStream s) (micStream s)
          (rawTranscription s) (editorTitle s) (stopTasks s) (inflight s)
          (requests s).
Definition set_closingTags (v : jsstring) (s : State) : State :=
  mkState (mediaRecorder s) (audioChunks s) (isRecording s) (currentNote s)
          (openingTags s) v (stream s) (screenStream s) (micStream s)
          (rawTranscription s) (editorTitle s) (stopTasks s) (inflight s)
          (requests s).
Definition set_stream (v : option App.MediaStream) (s : State) : State :=
  mkState (mediaRecorder s) (audioChunks s) (isRecording s) (currentNote s)
          (openingTags s) (closingTags s) v (screenStream s) (micStream s)
          (rawTranscription s) (editorTitle s) (stopTasks s) (inflight s)
          (requests s).
Definition set_screenStream (v : option App.MediaStream) (s : State) : State :=
  mkState (mediaRecorder s) (audioChunks s) (isRecording s) (currentNote s)
          (openingTags s) (closingTags s) (stream s) v (micStream s)
          (rawTranscription s) (editorTitle s) (stopTasks s) (inflight s)
          (requests s).
Definition set_micStream (v : option App.MediaStream) (s : State) : State :=
  mkState (mediaRecorder s) (audioChunks s) (isRecording s) (currentNote s)
          (openingTags s) (closingTags s) (stream s) (screenStream s) v
          (rawTranscription s) (editorTitle s) (stopTasks s) (inflight s)
          (requests s).
Definition set_rawTranscription (v : option Element) (s : State) : State :=
  mkState (mediaRecorder s) (audioChunks s) (isRecording s) (currentNote s)
          (openingTags s) (closingTags s) (stream s) (screenStream s)
          (micStream s) v (editorTitle s) (stopTasks s) (inflight s) (requests s).
Definition set_editorTitle (v : option Element) (s : State) : State :=
  mkState (mediaRecorder s) (audioChunks s) (isRecording s) (currentNote s)
          (openingTags s) (closingTags s) (stream s) (screenStream s)
          (micStream s) (rawTranscription s) v (stopTasks s) (inflight s)
          (requests s).
Definition set_stopTasks (v : nat) (s : State) : State :=
  mkState (mediaRecorder s) (audioChunks s) (isRecording s) (currentNote s)
          (openingTags s) (closingTags s) (stream s) (screenStream s)
          (micStream s) (rawTranscription s) (editorTitle s) v (inflight s)
          (requests s).
Definition set_inflight (v : list App.Phase) (s : State) : State :=
  mkState (mediaRecorder s) (audioChunks s) (isRecording s) (currentNote s)
          (openingTags s) (closingTags s) (stream s) (screenStream s)
          (micStream s) (rawTranscription s) (editorTitle s) (stopTasks s) v
          (requests s).
Definition set_requests (v : list jsstring) (s : State) : State :=
  mkState (mediaRecorder s) (audioChunks s) (isRecording s) (currentNote s)
          (openingTags s) (closingTags s) (stream s) (screenStream s)
          (micStream s) (rawTranscription s) (editorTitle s) (stopTasks s)
          (inflight s) v.

Inductive Event : Type :=
| ClickRecord (capture : App.Capture)
| ClickNew (now : Z)
| RecorderStopTask (data : App.Blob)
| TranscriptionDone (i : nat) (result : App.Transcription)
| RefinementDone (i : nat) (result : App.Refinement).

(** How a method body ends. *)
Inductive Completion : Type :=
| Returns (s : State)
| Throws (s : State).

Definition andThen (c : Completion) (k : State -> Completion) : Completion :=
  match c with
  | Returns s => k s
  | Throws s => Throws s
  end.

Definition cleanupStreams (s : State) : State :=
  let s := set_stream None s in
  let s := set_screenStream None s in
  set_micStream None s.

Definition setupAudioTags (hasTabAudio hasMicAudio : bool) (s : State) : State :=
  if hasTabAudio && hasMicAudio then
    set_closingTags (App.MEETING_CLOSE ++ App.USER_CLOSE)
      (set_openingTags (App.MEETING_OPEN ++ App.USER_OPEN) s)
  else if hasTabAudio then
    set_closingTags App.MEETING_CLOSE (set_openingTags App.MEETING_OPEN s)
  else if hasMicAudio then
    set_closingTags App.USER_CLOSE (set_openingTags App.USER_OPEN s)
  else
    set_closingTags [] (set_openingTags [] s).

Definition setupFinalStream (hasTabAudio hasMicAudio : bool) (s : State)
  : option App.MediaStream :=
  if hasTabAudio && hasMicAudio then
    match screenStream s, micStream s with
    | Some screen, Some mic => Some (App.mergeAudioStreams screen mic)
    | _, _ => None
    end
  else if hasMicAudio then micStream s
  else if hasTabAudio then
    match screenStream s with
    | Some screen => Some (App.mergeAudioStreams screen screen)
    | None => None
    end
  else None.

Definition handleRecordingError (s : State) : State :=
  let s := set_isRecording false s in
  cleanupStreams s.

Definition setupMediaRecorder (s : State) : State :=
  set_mediaRecorder (Some App.inactive) s.

(** [mediaRecorder.start()]: InvalidStateError unless the recorder is
    inactive. *)
Definition recorder_start (s : State) : Completion :=
  match mediaRecorder s with
  | Some App.inactive => Returns (set_mediaRecorder (Some App.recording) s)
  | _ => Throws s
  end.

(** [mediaRecorder.stop()]: InvalidStateError on an inactive recorder;
    otherwise the recorder is inactive at once and its [dataavailable] and
    [stop] events are queued. *)
Definition recorder_stop (s : State) : Completion :=
  match mediaRecorder s with
  | Some App.inactive | None => Throws s
  | Some _ =>
      let s := set_mediaRecorder (Some App.inactive) s in
      Returns (set_stopTasks (S (stopTasks s)) s)
  end.

(** The body of the [try] of [startRecording]; the capture and the
    merging of the streams, which the source awaits, are taken with it as
    one step. *)
Definition startRecording_try (capture : App.Capture) (s : State) : Completion :=
  let s := set_audioChunks [] s in
  let s := set_openingTags [] s in
  let s := set_closingTags [] s in
  let s := cleanupStreams s in
  match capture with
  | App.MicrophoneFailed => Throws s
  | App.Captured screen mic =>
      let s := set_screenStream screen s in
      let s := set_micStream (Some mic) s in
      let hasTabAudio := App.hasAudioTracks (screenStream s) in
      let hasMicAudio := App.hasAudioTracks (micStream s) in
      let s := setupAudioTags hasTabAudio hasMicAudio s in
      match setupFinalStream hasTabAudio hasMicAudio s with
      | Some final =>
          let s := set_stream (Some final) s in
          let s := setupMediaRecorder s in
          andThen (recorder_start s) (fun s =>
          Returns (set_isRecording true s))
      | None => Throws s
      end
  end.

Definition startRecording (capture : App.Capture) (s : State) : State :=
  match startRecording_try capture s with
  | Returns s => s
  | Throws s => handleRecordingError s
  end.

(** [stopRecording]; its [catch] absorbs what [stop()] throws. *)
Definition stopRecording (s : State) : State :=
  match mediaRecorder s with
  | Some _ =>
      if isRecording s then
        let s := match recorder_stop s with
                 | Returns s => s
                 | Throws s => s
                 end in
        set_isRecording false s
      else s
  | None => s
  end.

Definition toggleRecording (capture : App.Capture) (s : State) : State :=
  if negb (isRecording s) then startRecording capture s else stopRecording s.

Definition ondataavailable (data : App.Blob) (s : State) : State :=
  if (0 <? App.size data)%nat then set_audioChunks (audioChunks s ++ [data]) s else s.

(** [processAudio] up to its first [await]. *)
Definition processAudio_begin (audioBlob : App.Blob) (s : State) : State :=
  if (App.size audioBlob =? 0)%nat then s
  else set_inflight (inflight s ++ [App.Transcribing]) s.

Definition onstop (s : State) : State :=
  let s := if (0 <? List.length (audioChunks s))%nat
           then processAudio_begin (concat (audioChunks s)) s
           else s in
  cleanupStreams s.

Definition addAudioTags (transcription : jsstring) (s : State) : jsstring :=
  if negb (truthy (openingTags s)) && negb (truthy (closingTags s))
  then transcription
  else openingTags s ++ transcription ++ lit " " ++ closingTags s.

Definition updateTranscriptionDisplay (text : jsstring) (s : State) : State :=
  match rawTranscription s with
  | None => s
  | Some _ =>
      let el := setTextContent (rawTranscription s) text in
      set_rawTranscription (setPlaceholder el (negb (truthy (trim text)))) s
  end.

(** Of [handleTranscriptionError] the placeholder of the raw transcription
    touches the modelled state. *)
Definition handleTranscriptionError (s : State) : State :=
  set_rawTranscription (setPlaceholder (rawTranscription s) true) s.

Definition set_note_rawTranscription (text : jsstring) (s : State) : State :=
  match currentNote s with
  | Some n => set_currentNote
                (Some {| App.id := App.id n;
                         App.note_rawTranscription := text;
                         App.note_polishedNote := App.note_polishedNote n;
                         App.timestamp := App.timestamp n |}) s
  | None => s
  end.

Definition set_note_polishedNote (text : jsstring) (s : State) : State :=
  match currentNote s with
  | Some n => set_currentNote
                (Some {| App.id := App.id n;
                         App.note_rawTranscription := App.note_rawTranscription n;
                         App.note_polishedNote := text;
                         App.timestamp := App.timestamp n |}) s
  | None => s
  end.

(** The processing of recording [i] is over. *)
Definition finish (i : nat) (s : State) : State :=
  set_inflight (delete i (inflight s)) s.

(** [getPolishedNote] up to its remote call. *)
Definition getPolishedNote_begin (i : nat) (s : State) : State :=
  if negb (hasValidContent (rawTranscription s)) then finish i s else
  let text := match rawTranscription s with
              | Some el => textContent el
              | None => []
              end in
  let s := set_requests (requests s ++ [PROMPT ++ text]) s in
  set_inflight (<[i := App.Refining]> (inflight s)) s.

Definition transcriptionDone (i : nat) (result : App.Transcription) (s : State) : State :=
  match inflight s !! i with
  | Some App.Transcribing =>
      match result with
      | App.ConversionFailed | App.Base64Empty => finish i s
      | App.TranscriptionThrew => finish i (handleTranscriptionError s)
      | App.TranscriptionText (Some transcriptionText) =>
          if truthy transcriptionText then
            let finalRaw := addAudioTags (trim transcriptionText) s in
            let s := updateTranscriptionDisplay finalRaw s in
            let s := set_note_rawTranscription finalRaw s in
            getPolishedNote_begin i s
          else finish i (handleTranscriptionError s)
      | App.TranscriptionText None => finish i (handleTranscriptionError s)
      end
  | _ => s
  end.

(** [getPolishedNote] from the arrival of the response: a non-empty text
    always goes to [updateNoteTitle]. *)
Definition refinementDone (i : nat) (result : App.Refinement) (s : State) : State :=
  match inflight s !! i with
  | Some App.Refining =>
      let s := match result with
               | App.RefinementText (Some polishedText) =>
                   if truthy polishedText then
                     let s := set_editorTitle
                                (Title.updateNoteTitle polishedText (editorTitle s)) s in
                     set_note_polishedNote polishedText s
                   else s
               | _ => s
               end in
      finish i s
  | _ => s
  end.

(** [createNewNote]; its [stop()] is not guarded: where it throws, the
    rest of the method is skipped. *)
Definition createNewNote (now : Z) (s : State) : State :=
  let s := set_currentNote (Some {| App.id := now;
                                    App.note_rawTranscription := [];
                                    App.note_polishedNote := [];
                                    App.timestamp := now |}) s in
  let s := set_rawTranscription (setPlaceholder (rawTranscription s) true) s in
  let s := set_editorTitle (setPlaceholder (editorTitle s) true) s in
  if isRecording s then
    match mediaRecorder s with
    | Some _ =>
        match recorder_stop s with
        | Returns s => set_isRecording false s
        | Throws s => s
        end
    | None => set_isRecording false s
    end
  else s.

(** One callback. *)
Definition step (e : Event) (s : State) : State :=
  match e with
  | ClickRecord capture => toggleRecording capture s
  | ClickNew now => createNewNote now s
  | RecorderStopTask data =>
      match stopTasks s with
      | S n => onstop (ondataavailable data (set_stopTasks n s))
      | O => s
      end
  | TranscriptionDone i result => transcriptionDone i result s
  | RefinementDone i result => refinementDone i result s
  end.

Fixpoint run (events : list Event) (s : State) : State :=
  match events with
  | [] => s
  | e :: events' => run events' (step e s)
  end.

Definition fieldInitialisers (rawTranscription editorTitle : option Element) : State :=
  {| mediaRecorder := None; audioChunks := []; isRecording := false;
     currentNote := None; openingTags := []; closingTags := [];
     stream := None; screenStream := None; micStream := None;
     rawTranscription := rawTranscription; editorTitle := editorTitle;
     stopTasks := 0; inflight := []; requests := [] |}.

(** The constructor; its [saveNewNote] finds the placeholder and saves
    nothing. *)
Definition constructed (rawTranscription editorTitle : option Element) (now : Z) : State :=
  createNewNote now (fieldInitialisers rawTranscription editorTitle).

(** Tags that are not empty and keep the text between them as it is
    under [trim]. *)
Definition bracketed (opening closing : jsstring) : Prop :=
  truthy opening = true /\
  forall mid, trim (opening ++ mid ++ closing) = opening ++ mid ++ closing.

(** What [addAudioTags] makes of the response [t] with the tags of [s]. *)
Definition transcriptOf (t : jsstring) (s : State) : jsstring :=
  openingTags s ++ trim t ++ lit " " ++ closingTags s.

(** A sample page and a recording on it. *)
Definition fresh : State := constructed Examples.rawElement Examples.titleElement 0.

Definition rawIdle : Element :=
  {| textContent := lit "Raw transcription will appear here...";
     placeholder := lit "Raw transcription will appear here...";
     placeholderActive := true |}.

Definition recorded : list Event :=
  [RecorderStopTask [1; 2; 3]%Z;
   TranscriptionDone 0 (Examples.said " buy milk and eggs ");
   RefinementDone 0 (Examples.polished "# Shopping list")].

End Single.
(* ================================================================== *)
(** * Part II: properties                                              *)
(* ================================================================== *)

(** Literals are replaced by their code units before symbolic evaluation. *)
Ltac eval_lits :=
  repeat match goal with
         | |- context [Js.lit ?str] =>
             let v := eval vm_compute in (Js.lit str) in change (Js.lit str) with v
         end.

(** ** The WAV encoder *)

Section WavFacts.
Import Js Wav.
Local Open Scope Z_scope.

(** *** Loops that fill an array from left to right *)

Lemma for_from_insert {A : Type} (g : nat -> A) (base : nat) :
  forall (n k : nat) (pre rest : list A),
    List.length pre = (base + k)%nat ->
    (n <= List.length rest)%nat ->
    for_from k n (fun j a => <[(base + j)%nat := g j]> a) (pre ++ rest)
    = pre ++ map g (seq k n) ++ drop n rest.
Proof.
  induction n as [|n IH]; intros k pre rest Hpre Hn.
  - reflexivity.
  - destruct rest as [|r rest]; [simpl in Hn; lia|].
    cbn [for_from seq map drop].
    rewrite <- Hpre, <- (Nat.add_0_r (List.length pre)), insert_app_r.
    cbn [insert list_insert].
    change (pre ++ g k :: rest) with (pre ++ [g k] ++ rest).
    rewrite app_assoc, (IH (S k)).
    + rewrite <- app_assoc. reflexivity.
    + rewrite length_app. simpl. lia.
    + simpl in Hn. lia.
Qed.

Lemma lookup_all {A B : Type} (F : option A -> B) (l : list A) :
  map (fun c => F (l !! c)) (seq 0 (List.length l)) = map (fun x => F (Some x)) l.
Proof.
  induction l as [|x l IH]; [reflexivity|].
  cbn [List.length seq map]. f_equal.
  rewrite <- seq_shift, map_map. exact IH.
Qed.

Lemma sampleAt_row (cd : list (list number)) (i : nat) :
  map (fun c => sampleAt cd c i) (seq 0 (List.length cd))
  = map (fun ch => default NaN (ch !! i)) cd.
Proof.
  exact (lookup_all
           (fun o => match o with Some d => default NaN (d !! i) | None => NaN end) cd).
Qed.

Lemma interleave_rows (cd : list (list number)) :
  forall (n k : nat) (pre rest : list number),
    List.length pre = (k * List.length cd)%nat ->
    (n * List.length cd <= List.length rest)%nat ->
    for_from k n (fun i interleaved =>
      for_from 0 (List.length cd) (fun channel interleaved =>
        <[(i * List.length cd + channel)%nat := sampleAt cd channel i]> interleaved)
        interleaved) (pre ++ rest)
    = pre ++ flat_map (fun i => map (fun ch => default NaN (ch !! i)) cd) (seq k n)
          ++ drop (n * List.length cd) rest.
Proof.
  induction n as [|n IH]; intros k pre rest Hpre Hn.
  - reflexivity.
  - cbn [for_from seq flat_map].
    rewrite <- (app_nil_r pre) at 1. rewrite <- app_assoc.
    rewrite (for_from_insert (fun c => sampleAt cd c k) (k * List.length cd)
               (List.length cd) 0 pre ([] ++ rest)); cbn [app]; [|lia|lia].
    rewrite sampleAt_row.
    rewrite app_assoc, (IH (S k)).
    + rewrite <- !app_assoc, drop_drop. repeat f_equal; simpl; lia.
    + rewrite length_app, length_map. simpl. lia.
    + rewrite length_drop. lia.
Qed.

Lemma interleave_frames (ab : AudioBuffer) : interleave ab = spec_frames ab.
Proof.
  unfold interleave, spec_frames, numberOfChannels.
  rewrite <- (app_nil_l (replicate _ _)), interleave_rows.
  - rewrite drop_replicate, Nat.sub_diag, app_nil_r. reflexivity.
  - reflexivity.
  - rewrite length_replicate. lia.
Qed.

Lemma spec_frames_length (ab : AudioBuffer) :
  List.length (spec_frames ab) = (length ab * numberOfChannels ab)%nat.
Proof.
  unfold spec_frames, numberOfChannels.
  rewrite (flat_map_constant_length (c := List.length (channels ab))).
  - rewrite length_seq. reflexivity.
  - intros i _. apply length_map.
Qed.

Lemma lookup_map {A B : Type} (f : A -> B) (l : list A) (i : nat) :
  map f l !! i = f <$> (l !! i).
Proof.
  revert i. induction l as [|a l IH]; intros [|i]; try reflexivity. apply IH.
Qed.

Lemma spec_frames_lookup (ab : AudioBuffer) (i c : nat) (d : list number) (x : number) :
  channels ab !! c = Some d -> d !! i = Some x -> (i < length ab)%nat ->
  spec_frames ab !! (i * numberOfChannels ab + c)%nat = Some x.
Proof.
  intros Hd Hx Hi. unfold spec_frames, numberOfChannels.
  set (C := List.length (channels ab)).
  set (row := fun i => map (fun ch : list number => default NaN (ch !! i)) (channels ab)).
  assert (Hc : (c < C)%nat) by (apply lookup_lt_Some in Hd; exact Hd).
  assert (Hrow : forall j, List.length (row j) = C) by (intro j; apply length_map).
  assert (Hgen : forall n k, (k <= i < k + n)%nat ->
            flat_map row (seq k n) !! ((i - k) * C + c)%nat = Some x).
  { induction n as [|n IH]; intros k Hk; [lia|].
    cbn [seq flat_map]. destruct (decide (i = k)) as [->|Hne].
    - rewrite Nat.sub_diag, Nat.mul_0_l, Nat.add_0_l.
      rewrite lookup_app_l by (rewrite Hrow; exact Hc).
      unfold row. rewrite lookup_map, Hd. simpl. rewrite Hx. reflexivity.
    - rewrite lookup_app_r by (rewrite Hrow; nia).
      rewrite Hrow. replace ((i - k) * C + c - C)%nat with ((i - S k) * C + c)%nat by nia.
      apply IH. lia. }
  specialize (Hgen (length ab) 0%nat). rewrite Nat.sub_0_r in Hgen. apply Hgen. lia.
Qed.

(** *** The header and the payload loop *)

Lemma header_phase (n : nat) (C R : Z) (k : list Z -> option (list Z)) :
  (view ← writeString (replicate (44 + n * 2) 0) 0 (lit "RIFF");
   view ← setUint32 view 4 (36 + Z.of_nat n * 2);
   view ← writeString view 8 (lit "WAVE");
   view ← writeString view 12 (lit "fmt ");
   view ← setUint32 view 16 16;
   view ← setUint16 view 20 1;
   view ← setUint16 view 22 C;
   view ← setUint32 view 24 R;
   view ← setUint32 view 28 (R * C * 2);
   view ← setUint16 view 32 (C * 2);
   view ← setUint16 view 34 16;
   view ← writeString view 36 (lit "data");
   view ← setUint32 view 40 (Z.of_nat n * 2);
   k view)
  = k (spec_header C R (Z.of_nat n * 2) ++ replicate (n * 2) 0).
Proof.
  unfold spec_header, writeString. eval_lits.
  cbn -[Z.modulo Z.div Z.mul Z.add Z.of_nat].
  reflexivity.
Qed.

Lemma setUint16_at_end (pre rest : list Z) (v : Z) :
  (2 <= List.length rest)%nat ->
  setUint16 (pre ++ rest) (List.length pre) v = Some (pre ++ le16 v ++ drop 2 rest).
Proof.
  intros Hrest. destruct rest as [|r0 [|r1 rest]]; simpl in Hrest; try lia.
  unfold setUint16. rewrite length_app.
  destruct (Nat.leb_spec (List.length pre + 2) (List.length pre + List.length (r0 :: r1 :: rest)))
    as [_|Hlt]; [|simpl in Hlt; lia].
  rewrite <- (Nat.add_0_r (List.length pre)) at 2.
  rewrite !insert_app_r. reflexivity.
Qed.

Lemma payload_loop (f : nat -> number) :
  forall (n k : nat) (pre rest : list Z),
    List.length pre = (44 + k * 2)%nat ->
    List.length rest = (n * 2)%nat ->
    for_from_opt k n (fun i view => setInt16 view (44 + i * 2) (f i)) (pre ++ rest)
    = Some (pre ++ flat_map (fun i => le16 (ToUint16 (f i))) (seq k n)).
Proof.
  unfold setInt16.
  induction n as [|n IH]; intros k pre rest Hpre Hrest.
  - destruct rest; [|discriminate]. reflexivity.
  - cbn [for_from_opt seq flat_map].
    rewrite <- Hpre, setUint16_at_end by lia.
    cbn [mbind option_bind]. rewrite app_assoc, (IH (S k)).
    + rewrite <- app_assoc. reflexivity.
    + rewrite length_app. simpl. lia.
    + rewrite length_drop. lia.
Qed.

Lemma flat_map_by_index {A B : Type} (g : A -> list B) (d : A) :
  forall pre l : list A,
    flat_map (fun i => g (nth i (pre ++ l) d)) (seq (List.length pre) (List.length l))
    = flat_map g l.
Proof.
  intros pre l. revert pre.
  induction l as [|x l IH]; intros pre; [reflexivity|].
  cbn [List.length seq flat_map]. rewrite app_nth2, Nat.sub_diag by lia.
  cbn [nth]. f_equal.
  specialize (IH (pre ++ [x])). rewrite length_app, <- app_assoc in IH.
  simpl in IH. rewrite Nat.add_1_r in IH. exact IH.
Qed.

(** The encoder never raises a RangeError, and its output is the header
    followed by the quantized samples in frame-major order. *)
Lemma convertToWav_layout (ab : AudioBuffer) :
  convertToWav ab
  = Some (spec_header (Z.of_nat (numberOfChannels ab)) (sampleRate ab)
            (Z.of_nat (length ab * numberOfChannels ab) * 2)
          ++ flat_map (fun x => le16 (ToUint16 (scaled x))) (spec_frames ab)).
Proof.
  unfold convertToWav. rewrite interleave_frames.
  rewrite spec_frames_length.
  set (n := (length ab * numberOfChannels ab)%nat).
  rewrite header_phase.
  rewrite (payload_loop (fun i => scaled (nth i (spec_frames ab) NaN)) n 0).
  - do 2 f_equal.
    rewrite <- (spec_frames_length ab : List.length (spec_frames ab) = n).
    apply (flat_map_by_index (fun x => le16 (ToUint16 (scaled x))) NaN []).
  - reflexivity.
  - apply length_replicate.
Qed.

(** *** Reading the output back *)

Lemma le16_decode (m : Z) :
  0 <= m < 65536 -> m mod 256 + 256 * ((m / 256) mod 256) = m.
Proof. intros Hm. Z.div_mod_to_equations. lia. Qed.

Lemma le32_decode (v : Z) :
  0 <= v < 4294967296 ->
  v mod 256 + 256 * ((v / 256) mod 256) + 65536 * ((v / 65536) mod 256)
  + 16777216 * ((v / 16777216) mod 256) = v.
Proof. intros Hv. Z.div_mod_to_equations. lia. Qed.

Lemma ToInt16_of_ToUint16 (x : number) :
  (if 32768 <=? ToUint16 x then ToUint16 x - 65536 else ToUint16 x) = ToInt16 x.
Proof. reflexivity. Qed.

Lemma ToUint16_range (x : number) : 0 <= ToUint16 x < 65536.
Proof. unfold ToUint16. apply Z.mod_pos_bound. lia. Qed.

Lemma payload_lookup (g : number -> Z) (l : list number) (k : nat) (x : number) :
  l !! k = Some x ->
  flat_map (fun x => le16 (g x)) l !! (k * 2)%nat = Some (g x mod 256) /\
  flat_map (fun x => le16 (g x)) l !! (k * 2 + 1)%nat = Some ((g x / 256) mod 256).
Proof.
  revert k. induction l as [|y l IH]; intros [|k] Hk; try discriminate.
  - injection Hk as ->. split; reflexivity.
  - exact (IH k Hk).
Qed.

Lemma getInt16_payload (hdr : list Z) (l : list number) (k : nat) (x : number) :
  List.length hdr = 44%nat -> l !! k = Some x ->
  getInt16 (hdr ++ flat_map (fun x => le16 (ToUint16 (scaled x))) l) (44 + k * 2)
  = Some (ToInt16 (scaled x)).
Proof.
  intros Hhdr Hk.
  destruct (payload_lookup (fun x => ToUint16 (scaled x)) l k x Hk) as [H0 H1].
  unfold getInt16, getUint16.
  rewrite !lookup_app_r by lia. rewrite Hhdr.
  replace (44 + k * 2 - 44)%nat with (k * 2)%nat by lia.
  replace (44 + k * 2 + 1 - 44)%nat with (k * 2 + 1)%nat by lia.
  rewrite H0, H1. cbn [mbind option_bind].
  rewrite le16_decode by apply ToUint16_range.
  reflexivity.
Qed.

(** *** Quantization of one sample *)

Lemma quot_scaled_bound (n d k : Z) :
  0 < d -> 0 < k -> - d <= n <= d -> - k <= Z.quot (n * k) d <= k.
Proof.
  intros Hd Hk Hn.
  pose proof (Z.quot_rem' (n * k) d) as E.
  destruct (Z_le_gt_dec 0 (n * k)) as [Hp|Hp].
  - pose proof (Z.rem_bound_pos (n * k) d Hp Hd). nia.
  - pose proof (Z.rem_bound_pos_neg (n * k) d Hd). nia.
Qed.

Lemma quot_scaled_sign (n d k : Z) :
  0 < d -> 0 < k -> (0 <= n -> 0 <= Z.quot (n * k) d) /\ (n <= 0 -> Z.quot (n * k) d <= 0).
Proof.
  intros Hd Hk. split; intros Hn.
  - apply Z.quot_pos; nia.
  - pose proof (Z.quot_rem' (n * k) d) as E.
    pose proof (Z.rem_bound_pos_neg (n * k) d Hd). nia.
Qed.

Lemma ToInt16_small (q : Q) :
  -32768 <= Z.quot (Qnum q) (Z.pos (Qden q)) <= 32767 ->
  ToInt16 (Num q) = Z.quot (Qnum q) (Z.pos (Qden q)).
Proof.
  intros Hr. unfold ToInt16, truncate.
  set (t := Z.quot (Qnum q) (Z.pos (Qden q))) in *.
  destruct (Z_le_gt_dec 0 t) as [Hp|Hp].
  - rewrite Z.mod_small by lia.
    destruct (Z.leb_spec 32768 t); [lia|reflexivity].
  - replace (t mod 65536) with (t + 65536)
      by (apply (Z.mod_unique_pos t 65536 (-1)); lia).
    destruct (Z.leb_spec 32768 (t + 65536)); lia.
Qed.

Lemma quantize_range (q : Q) : -32768 <= spec_quantize q <= 32767.
Proof.
  unfold spec_quantize, spec_clamp.
  destruct (Qle_bool q (-1)) eqn:Hlo; [vm_compute; split; discriminate|].
  destruct (Qle_bool 1 q) eqn:Hhi; [vm_compute; split; discriminate|].
  assert (Hlo' : ~ (q <= -1)%Q) by (rewrite <- Qle_bool_iff, Hlo; discriminate).
  assert (Hhi' : ~ (1 <= q)%Q) by (rewrite <- Qle_bool_iff, Hhi; discriminate).
  destruct q as [n d]. unfold Qle in Hlo', Hhi'. cbn in Hlo', Hhi'.
  destruct (Qle_bool 0 (n # d)) eqn:Hs.
  - apply Qle_bool_iff in Hs. unfold Qle in Hs. cbn in Hs.
    cbn [Qmult Qnum Qden]. rewrite Pos.mul_1_r.
    pose proof (quot_scaled_bound n (Z.pos d) 32767).
    pose proof (quot_scaled_sign n (Z.pos d) 32767). lia.
  - assert (Hs' : ~ (0 <= n # d)%Q) by (rewrite <- Qle_bool_iff, Hs; discriminate).
    unfold Qle in Hs'. cbn in Hs'.
    cbn [Qmult Qnum Qden]. rewrite Pos.mul_1_r.
    pose proof (quot_scaled_bound n (Z.pos d) 32768).
    pose proof (quot_scaled_sign n (Z.pos d) 32768). lia.
Qed.

Lemma scaled_finite (q : Q) :
  scaled (Num q)
  = Num (let c := spec_clamp q in if Qle_bool 0 c then c * 32767 else c * 32768)%Q.
Proof.
  unfold scaled, spec_clamp, Math_min, Math_max, lt.
  destruct (Qle_bool 1 q) eqn:Hhi; cbn [negb].
  - assert (Hlo : Qle_bool q (-1) = false).
    { destruct (Qle_bool q (-1)) eqn:Hlo; [|reflexivity].
      apply Qle_bool_iff in Hhi, Hlo. lra. }
    rewrite Hlo. reflexivity.
  - destruct (Qle_bool q (-1)) eqn:Hlo; cbn [negb]; [reflexivity|].
    destruct (Qle_bool 0 q); reflexivity.
Qed.

Lemma ToInt16_scaled (q : Q) : ToInt16 (scaled (Num q)) = spec_quantize q.
Proof.
  rewrite scaled_finite. apply ToInt16_small. apply quantize_range.
Qed.

Lemma setInt16_bytes (view : list Z) (byteOffset : nat) (x : number) :
  (byteOffset + 2 <= List.length view)%nat ->
  exists view',
    setInt16 view byteOffset x = Some view' /\
    List.length view' = List.length view /\
    view' !! byteOffset = Some (ToInt16 x mod 256) /\
    view' !! (byteOffset + 1)%nat = Some ((ToInt16 x / 256) mod 256) /\
    getInt16 view' byteOffset = Some (ToInt16 x).
Proof.
  intros Hfit. unfold setInt16, setUint16.
  destruct (Nat.leb_spec (byteOffset + 2) (List.length view)) as [_|]; [|lia].
  eexists. split; [reflexivity|].
  assert (H0 : (<[(byteOffset + 1)%nat := (ToUint16 x / 256) mod 256]>
                  (<[byteOffset := ToUint16 x mod 256]> view)) !! byteOffset
               = Some (ToUint16 x mod 256)).
  { rewrite list_lookup_insert_ne by lia. apply list_lookup_insert_eq. lia. }
  assert (H1 : (<[(byteOffset + 1)%nat := (ToUint16 x / 256) mod 256]>
                  (<[byteOffset := ToUint16 x mod 256]> view)) !! (byteOffset + 1)%nat
               = Some ((ToUint16 x / 256) mod 256)).
  { apply list_lookup_insert_eq. rewrite length_insert. lia. }
  assert (Hlow : ToInt16 x mod 256 = ToUint16 x mod 256
                 /\ (ToInt16 x / 256) mod 256 = (ToUint16 x / 256) mod 256).
  { rewrite <- (ToInt16_of_ToUint16 x). pose proof (ToUint16_range x).
    destruct (Z.leb_spec 32768 (ToUint16 x)); [|split; reflexivity].
    split; Z.div_mod_to_equations; lia. }
  destruct Hlow as [-> ->].
  repeat split.
  - rewrite !length_insert. reflexivity.
  - exact H0.
  - exact H1.
  - unfold getInt16, getUint16. rewrite H0, H1. cbn [mbind option_bind].
    rewrite le16_decode by apply ToUint16_range. reflexivity.
Qed.

(** Samples that are not finite numbers: the infinities are clamped like
    any other value, NaN passes through the clamp and is stored as 0. *)
Lemma ToInt16_scaled_nonfinite :
  ToInt16 (scaled (Infinity false)) = 32767 /\
  ToInt16 (scaled (Infinity true)) = -32768 /\
  ToInt16 (scaled NaN) = 0.
Proof. repeat split. Qed.

Example quantize_boundaries :
  spec_quantize 1 = 32767 /\ spec_quantize (-1) = -32768 /\ spec_quantize 0 = 0 /\
  spec_quantize (1 # 2) = 16383 /\ spec_quantize (- (1 # 2)) = -16384 /\
  spec_quantize 3 = 32767 /\ spec_quantize (-7 # 2) = -32768.
Proof. repeat split. Qed.

(** C5: every (finite) float sample written by the encoder is clamped to
    [-1, 1], scaled by 32768 when below zero and by 32767 otherwise, and the
    integer part is stored as a little-endian signed 16-bit value (low byte
    first, two's complement), which is always within the int16 range. *)
Theorem C5_sample_quantization (q : Q) (view : list Z) (byteOffset : nat) :
  (byteOffset + 2 <= List.length view)%nat ->
  exists view',
    setInt16 view byteOffset (scaled (Num q)) = Some view' /\
    view' !! byteOffset = Some (spec_quantize q mod 256) /\
    view' !! (byteOffset + 1)%nat = Some ((spec_quantize q / 256) mod 256) /\
    getInt16 view' byteOffset = Some (spec_quantize q) /\
    -32768 <= spec_quantize q <= 32767.
Proof.
  intros Hfit.
  destruct (setInt16_bytes view byteOffset (scaled (Num q)) Hfit)
    as (view' & Hset & _ & H0 & H1 & Hget).
  rewrite ToInt16_scaled in H0, H1, Hget.
  exists view'. repeat split; try assumption; apply quantize_range.
Qed.

Lemma C5_sample_quantization_witness :
  (44 + 2 <= List.length (replicate 46 0))%nat /\
  exists view',
    setInt16 (replicate 46 0) 44 (scaled (Num (- (1 # 2)))) = Some view' /\
    view' !! 44%nat = Some (spec_quantize (- (1 # 2)) mod 256) /\
    view' !! (44 + 1)%nat = Some ((spec_quantize (- (1 # 2)) / 256) mod 256) /\
    getInt16 view' 44 = Some (spec_quantize (- (1 # 2))) /\
    -32768 <= spec_quantize (- (1 # 2)) <= 32767.
Proof.
  split; [vm_compute; lia|].
  apply (C5_sample_quantization (- (1 # 2)) (replicate 46 0) 44).
  vm_compute. lia.
Defined.

(** C4: for a decoded buffer of [C] channels, [S] frames per channel and
    sample rate [R] whose sizes fit the header fields, the encoder returns
    [44 + 2*S*C] bytes: the RIFF/WAVE header with little-endian fields
    (chunk size [36 + 2*S*C], format tag 1, [C] channels, rate [R], byte
    rate [R*C*2], block align [C*2], 16 bits per sample, data size
    [2*S*C]) followed by the samples, frame after frame and, within a
    frame, channel after channel. *)
Theorem C4_wav_layout (ab : AudioBuffer) :
  well_formed ab ->
  36 + 2 * Z.of_nat (length ab) * Z.of_nat (numberOfChannels ab) < 2 ^ 32 ->
  Z.of_nat (numberOfChannels ab) * 2 < 2 ^ 16 ->
  0 <= sampleRate ab < 2 ^ 32 ->
  sampleRate ab * Z.of_nat (numberOfChannels ab) * 2 < 2 ^ 32 ->
  exists out,
    convertToWav ab = Some out /\
    List.length out = (44 + 2 * length ab * numberOfChannels ab)%nat /\
    take 4 out = map Z.of_N (lit "RIFF") /\
    getUint32 out 4 = Some (36 + 2 * Z.of_nat (length ab) * Z.of_nat (numberOfChannels ab)) /\
    take 4 (drop 8 out) = map Z.of_N (lit "WAVE") /\
    take 4 (drop 12 out) = map Z.of_N (lit "fmt ") /\
    getUint32 out 16 = Some 16 /\
    getUint16 out 20 = Some 1 /\
    getUint16 out 22 = Some (Z.of_nat (numberOfChannels ab)) /\
    getUint32 out 24 = Some (sampleRate ab) /\
    getUint32 out 28 = Some (sampleRate ab * Z.of_nat (numberOfChannels ab) * 2) /\
    getUint16 out 32 = Some (Z.of_nat (numberOfChannels ab) * 2) /\
    getUint16 out 34 = Some 16 /\
    take 4 (drop 36 out) = map Z.of_N (lit "data") /\
    getUint32 out 40 = Some (2 * Z.of_nat (length ab) * Z.of_nat (numberOfChannels ab)) /\
    forall i channel : nat,
      (i < length ab)%nat -> (channel < numberOfChannels ab)%nat ->
      exists x,
        channelSample ab channel i = Some x /\
        getInt16 out (44 + 2 * (i * numberOfChannels ab + channel)) = Some (ToInt16 (scaled x)).
Proof.
  intros Hwf Hsize Hchan Hrate Hbyte.
  pose proof (Nat2Z.is_nonneg (length ab)) as HS.
  pose proof (Nat2Z.is_nonneg (numberOfChannels ab)) as HC.
  eexists. split; [apply convertToWav_layout|].
  set (payload := flat_map (fun x => le16 (ToUint16 (scaled x))) (spec_frames ab)).
  replace (Z.of_nat (length ab * numberOfChannels ab) * 2)
    with (2 * Z.of_nat (length ab) * Z.of_nat (numberOfChannels ab)) by lia.
  set (D := 2 * Z.of_nat (length ab) * Z.of_nat (numberOfChannels ab)) in *.
  assert (HD : 0 <= D) by (unfold D; nia).
  assert (HR : 0 <= sampleRate ab * Z.of_nat (numberOfChannels ab) * 2) by nia.
  unfold spec_header. eval_lits.
  repeat match goal with |- _ /\ _ => split end.
  - rewrite length_app. unfold payload.
    rewrite (flat_map_constant_length (c := 2%nat)) by reflexivity.
    rewrite spec_frames_length. simpl List.length. lia.
  - reflexivity.
  - cbn -[Z.modulo Z.div Z.mul Z.add Z.of_nat]. f_equal. apply le32_decode. lia.
  - reflexivity.
  - reflexivity.
  - reflexivity.
  - reflexivity.
  - cbn -[Z.modulo Z.div Z.mul Z.add Z.of_nat]. f_equal. apply le16_decode. lia.
  - cbn -[Z.modulo Z.div Z.mul Z.add Z.of_nat]. f_equal. apply le32_decode. lia.
  - cbn -[Z.modulo Z.div Z.mul Z.add Z.of_nat]. f_equal. apply le32_decode. lia.
  - cbn -[Z.modulo Z.div Z.mul Z.add Z.of_nat]. f_equal. apply le16_decode. lia.
  - reflexivity.
  - reflexivity.
  - cbn -[Z.modulo Z.div Z.mul Z.add Z.of_nat]. f_equal. apply le32_decode. lia.
  - intros i channel Hi Hc.
    destruct (lookup_lt_is_Some_2 (channels ab) channel Hc) as [d Hd].
    assert (Hlen : List.length d = length ab).
    { unfold well_formed in Hwf. rewrite List.Forall_forall in Hwf.
      apply Hwf. apply list_elem_of_In. eapply list_elem_of_lookup_2. exact Hd. }
    destruct (lookup_lt_is_Some_2 d i ltac:(lia)) as [x Hx].
    exists x. split.
    + unfold channelSample. rewrite Hd. exact Hx.
    + replace (44 + 2 * (i * numberOfChannels ab + channel))%nat
        with (44 + (i * numberOfChannels ab + channel) * 2)%nat by lia.
      apply getInt16_payload; [reflexivity|].
      eapply spec_frames_lookup; eassumption.
Qed.

End WavFacts.

(** ** Title derivation *)

Section TitleFacts.
Import Js Dom Title.

(** *** Prefix and suffix stripping *)

Lemma dropWhile_split (p : N -> bool) (s : jsstring) :
  exists pre, s = pre ++ dropWhile p s /\ Forall (fun c => p c = true) pre.
Proof.
  induction s as [|c s (pre & Hs & Hpre)]; [exists []; split; [reflexivity|constructor]|].
  cbn [dropWhile]. destruct (p c) eqn:Hc.
  - exists (c :: pre). split; [cbn; f_equal; exact Hs|constructor; assumption].
  - exists []. split; [reflexivity|constructor].
Qed.

Lemma dropWhile_head (p : N -> bool) (s : jsstring) (c : N) (r : jsstring) :
  dropWhile p s = c :: r -> p c = false.
Proof.
  induction s as [|x s IH]; [discriminate|].
  cbn [dropWhile]. destruct (p x) eqn:Hx; [exact IH|].
  intros [= <- _]. exact Hx.
Qed.

Lemma dropWhile_fixed (p : N -> bool) (c : N) (r : jsstring) :
  p c = false -> dropWhile p (c :: r) = c :: r.
Proof. intros Hc. cbn [dropWhile]. rewrite Hc. reflexivity. Qed.

Lemma dropWhileEnd_split (p : N -> bool) (s : jsstring) :
  exists suf, s = dropWhileEnd p s ++ suf /\ Forall (fun c => p c = true) suf.
Proof.
  unfold dropWhileEnd. destruct (dropWhile_split p (rev s)) as (pre & Hs & Hpre).
  exists (rev pre). split.
  - rewrite <- rev_app_distr, <- Hs, rev_involutive. reflexivity.
  - apply List.Forall_rev. exact Hpre.
Qed.

Lemma dropWhileEnd_last (p : N -> bool) (s : jsstring) (c : N) :
  last (dropWhileEnd p s) = Some c -> p c = false.
Proof.
  unfold dropWhileEnd. destruct (dropWhile p (rev s)) as [|x t] eqn:Hd; [discriminate|].
  cbn [rev]. rewrite last_snoc. intros [= <-].
  exact (dropWhile_head p (rev s) x t Hd).
Qed.

Lemma dropWhileEnd_fixed (p : N -> bool) (s : jsstring) (c : N) :
  last s = Some c -> p c = false -> dropWhileEnd p s = s.
Proof.
  intros Hlast Hc. apply last_Some in Hlast as [l ->].
  unfold dropWhileEnd. rewrite rev_app_distr. cbn [rev app].
  rewrite dropWhile_fixed by exact Hc.
  change (c :: rev l) with ([c] ++ rev l). rewrite rev_app_distr, rev_involutive.
  reflexivity.
Qed.

Lemma trim_fixed (c0 : N) (r : jsstring) (c : N) :
  isWhiteSpace c0 = false -> last (c0 :: r) = Some c -> isWhiteSpace c = false ->
  trim (c0 :: r) = c0 :: r.
Proof.
  intros H0 Hlast Hc. unfold trim. rewrite dropWhile_fixed by exact H0.
  exact (dropWhileEnd_fixed isWhiteSpace (c0 :: r) c Hlast Hc).
Qed.

Lemma trim_ends (s : jsstring) (c0 : N) (r : jsstring) :
  trim s = c0 :: r ->
  isWhiteSpace c0 = false /\ exists c, last (c0 :: r) = Some c /\ isWhiteSpace c = false.
Proof.
  intros Ht. split.
  - destruct (dropWhileEnd_split isWhiteSpace (dropWhile isWhiteSpace s)) as (suf & Hs & _).
    fold (trim s) in Hs. rewrite Ht in Hs.
    exact (dropWhile_head isWhiteSpace s c0 (r ++ suf) Hs).
  - destruct (last (c0 :: r)) as [c|] eqn:Hlast.
    + exists c. split; [reflexivity|].
      apply (dropWhileEnd_last isWhiteSpace (dropWhile isWhiteSpace s)).
      fold (trim s). rewrite Ht. exact Hlast.
    + apply last_None in Hlast. discriminate.
Qed.

Lemma trim_idempotent (s : jsstring) : trim (trim s) = trim s.
Proof.
  destruct (trim s) as [|c0 r] eqn:Ht; [reflexivity|].
  destruct (trim_ends s c0 r Ht) as (H0 & c & Hlast & Hc).
  exact (trim_fixed c0 r c H0 Hlast Hc).
Qed.

(** A trimmed line that starts with ['#'] always yields a non-empty title,
    so the first loop stops at the first such line. *)
Lemma heading_title_truthy (raw : jsstring) :
  startsWith (trim raw) 35 = true ->
  truthy (trim (stripHeadingMarker (trim raw))) = true.
Proof.
  intros Hstart. destruct (trim raw) as [|c0 r] eqn:Ht; [discriminate|].
  destruct (trim_ends raw c0 r Ht) as (H0 & c & Hlast & Hc).
  unfold stripHeadingMarker. rewrite Hstart. cbn [andb].
  destruct (dropWhile isHash (c0 :: r)) as [|w rest] eqn:Hh.
  { rewrite (trim_fixed c0 r c H0 Hlast Hc). reflexivity. }
  destruct (isWhiteSpace w) eqn:Hw.
  2:{ rewrite (trim_fixed c0 r c H0 Hlast Hc). reflexivity. }
  destruct (dropWhile_split isHash (c0 :: r)) as (pre & Hsplit & _).
  rewrite Hh in Hsplit.
  assert (Hlast' : last (w :: rest) = Some c).
  { rewrite Hsplit, last_app_cons in Hlast. exact Hlast. }
  destruct (dropWhile_split isWhiteSpace (w :: rest)) as (pre2 & Hsplit2 & Hpre2).
  destruct (dropWhile isWhiteSpace (w :: rest)) as [|a t] eqn:Hd.
  - exfalso. rewrite app_nil_r in Hsplit2. subst pre2.
    apply last_Some in Hlast' as [l Hl]. rewrite Hl in Hpre2.
    apply Forall_app in Hpre2 as [_ Hpre2]. inversion Hpre2 as [|? ? Hcw _]; subst.
    congruence.
  - assert (Ha : isWhiteSpace a = false) by exact (dropWhile_head _ _ _ _ Hd).
    assert (Hlast2 : last (a :: t) = Some c).
    { rewrite Hsplit2, last_app_cons in Hlast'. exact Hlast'. }
    rewrite (trim_fixed a t c Ha Hlast2 Hc). reflexivity.
Qed.

Lemma headingLoop_first (pre : list jsstring) (raw : jsstring) (post : list jsstring) :
  Forall (fun l => startsWith l 35 = false) pre ->
  startsWith (trim raw) 35 = true ->
  headingLoop (pre ++ trim raw :: post) = Some (trim (stripHeadingMarker (trim raw))).
Proof.
  intros Hpre Hstart. induction Hpre as [|l pre Hl _ IH].
  - cbn [app headingLoop]. rewrite Hstart, heading_title_truthy by exact Hstart.
    reflexivity.
  - cbn [app headingLoop]. rewrite Hl. exact IH.
Qed.

Lemma headingLoop_none (lines : list jsstring) :
  Forall (fun l => startsWith l 35 = false) lines -> headingLoop lines = None.
Proof.
  induction 1 as [|l lines Hl _ IH]; [reflexivity|].
  cbn [headingLoop]. rewrite Hl. exact IH.
Qed.

Lemma potentialTitle_empty : potentialTitle [] = [].
Proof. reflexivity. Qed.

Lemma firstLineLoop_first (pre : list jsstring) (line : jsstring) (post : list jsstring) :
  Forall (fun l => (List.length (potentialTitle l) <= 3)%nat) pre ->
  (3 < List.length (potentialTitle line))%nat ->
  firstLineLoop (pre ++ line :: post) = Some (truncated (potentialTitle line)).
Proof.
  intros Hpre Hline. induction Hpre as [|l pre Hl _ IH].
  - cbn [app firstLineLoop].
    destruct line as [|c line]; [rewrite potentialTitle_empty in Hline; simpl in Hline; lia|].
    change (0 <? List.length (c :: line))%nat with true. cbv iota.
    destruct (Nat.ltb_spec 3 (List.length (potentialTitle (c :: line)))); [reflexivity|lia].
  - cbn [app firstLineLoop].
    destruct (Nat.ltb_spec 3 (List.length (potentialTitle l))); [lia|].
    destruct (0 <? List.length l)%nat; exact IH.
Qed.

Lemma firstLineLoop_none (lines : list jsstring) :
  Forall (fun l => (List.length (potentialTitle l) <= 3)%nat) lines ->
  firstLineLoop lines = None.
Proof.
  induction 1 as [|l lines Hl _ IH]; [reflexivity|].
  cbn [firstLineLoop].
  destruct (Nat.ltb_spec 3 (List.length (potentialTitle l))); [lia|].
  destruct (0 <? List.length l)%nat; exact IH.
Qed.

Lemma trimmed_lines_split (text : jsstring) (pre : list jsstring) (line : jsstring)
      (post : list jsstring) :
  map trim (split 10 text) = pre ++ line :: post -> exists raw, line = trim raw.
Proof.
  intros Hlines.
  assert (Hin : In line (map trim (split 10 text))).
  { rewrite Hlines. apply in_or_app. right. left. reflexivity. }
  apply in_map_iff in Hin as (raw & Hraw & _). exists raw. symmetry. exact Hraw.
Qed.

(** The two examples of the specification. *)
Example title_of_heading :
  derivedTitle (lit "# Weekly Sync" ++ [10; 10]%N ++ lit "Discussed budget.")
  = Some (lit "Weekly Sync").
Proof. reflexivity. Qed.

Example title_of_list_item :
  derivedTitle (lit "- Review action items and owners")
  = Some (lit "Review action items and owners").
Proof. reflexivity. Qed.

(** A heading found anywhere wins over an earlier plain line; a ['#'] that
    is not followed by white space is kept; a first line that is too short
    is passed over; long titles are cut at 60 units. *)
Example title_heading_after_text :
  derivedTitle (lit "Summary of the call" ++ [10]%N ++ lit "## Budget")
  = Some (lit "Budget").
Proof. reflexivity. Qed.

Example title_hash_without_space :
  derivedTitle (lit "#Tag") = Some (lit "#Tag").
Proof. reflexivity. Qed.

Example title_short_first_line :
  derivedTitle (lit "1." ++ [10]%N ++ lit "Quarterly planning") = Some (lit "Quarterly planning").
Proof. reflexivity. Qed.

Example title_truncated :
  derivedTitle (lit "This line is much longer than sixty characters and is therefore cut")
  = Some (lit "This line is much longer than sixty characters and is theref...").
Proof. reflexivity. Qed.

Example title_unset : derivedTitle (lit "--" ++ [10]%N ++ lit "ok") = None.
Proof. reflexivity. Qed.

(** C8 (amended): [updateNoteTitle] works on the trimmed lines of the
    refined text.  If some line starts with ['#'], the first such line
    gives the title: its leading run of ['#'] together with the white space
    after it is removed (a run not followed by white space is left in
    place) and the rest is trimmed.  Otherwise the first line whose text,
    after its leading markers and trailing emphasis marks are stripped and
    it is trimmed, is longer than 3 characters gives the title, cut to 60
    characters plus ["..."] when longer.  Otherwise no title is set. *)
Theorem C8_title_derivation (polishedText : jsstring) :
  (forall pre line post,
      map trim (split 10 polishedText) = pre ++ line :: post ->
      Forall (fun l => startsWith l 35 = false) pre ->
      startsWith line 35 = true ->
      derivedTitle polishedText = Some (trim (stripHeadingMarker line)))
  /\ (forall pre line post,
      map trim (split 10 polishedText) = pre ++ line :: post ->
      Forall (fun l => startsWith l 35 = false) (pre ++ line :: post) ->
      Forall (fun l => (List.length (potentialTitle l) <= 3)%nat) pre ->
      (3 < List.length (potentialTitle line))%nat ->
      derivedTitle polishedText = Some (truncated (potentialTitle line)))
  /\ (Forall (fun l => startsWith l 35 = false
                       /\ (List.length (potentialTitle l) <= 3)%nat)
             (map trim (split 10 polishedText)) ->
      derivedTitle polishedText = None).
Proof.
  unfold derivedTitle. repeat split.
  - intros pre line post Hlines Hpre Hstart.
    destruct (trimmed_lines_split _ _ _ _ Hlines) as [raw ->].
    rewrite Hlines, headingLoop_first by assumption. reflexivity.
  - intros pre line post Hlines Hnohash Hpre Hline.
    rewrite Hlines, headingLoop_none by assumption.
    apply firstLineLoop_first; assumption.
  - intros Hall. apply Forall_and in Hall as [Hnohash Hshort].
    rewrite headingLoop_none by assumption.
    apply firstLineLoop_none. assumption.
Qed.

End TitleFacts.

(** ** The recording pipeline *)

Section AppFacts.
Import Js Dom App Props.
Local Open Scope Z_scope.

Variable textOfHtml : jsstring -> jsstring.

Abbreviation step := (App.step textOfHtml).
Abbreviation run := (App.run textOfHtml).
Abbreviation constructed := App.constructed.

Lemma run_app (events1 events2 : list Event) (s : State) :
  run (events1 ++ events2) s = run events2 (run events1 s).
Proof.
  revert s. induction events1 as [|e events1 IH]; intros s; [reflexivity|].
  cbn [app App.run]. apply IH.
Qed.

(** A property kept by every callback holds in every state the
    application reaches. *)
Lemma run_invariant (P : State -> Prop) :
  (forall e s, P s -> P (step e s)) ->
  forall events s, P s -> P (run events s).
Proof.
  intros Hstep events. induction events as [|e events IH]; intros s Hs; [exact Hs|].
  cbn [App.run]. apply IH, Hstep, Hs.
Qed.

(** *** The recorder slots *)

Lemma recordersConsistent_view (s s' : State) :
  recorderView s' = recorderView s -> recordersConsistent s -> recordersConsistent s'.
Proof.
  unfold recorderView, recordersConsistent, capturing, recorderOf.
  intros [= H1 H2 H3 H4 H5 H6 _ _]. rewrite H1, H2, H3, H4, H5, H6. trivial.
Qed.


Lemma processNextSegment_finally_view (s : State) :
  recorderView (processNextSegment_finally s) = recorderView s.
Proof.
  unfold processNextSegment_finally. destruct (processingQueue _); reflexivity.
Qed.

Lemma processNextSegment_view (s : State) :
  recorderView (processNextSegment s) = recorderView s.
Proof.
  unfold processNextSegment, processAudioSegment_begin.
  destruct (isProcessingSegment s); [reflexivity|].
  destruct (processingQueue s); [reflexivity|].
  destruct (_ =? _)%nat; [|reflexivity].
  rewrite processNextSegment_finally_view. reflexivity.
Qed.

Lemma finish_view (i : nat) (s : State) : recorderView (finish i s) = recorderView s.
Proof. unfold finish. rewrite processNextSegment_finally_view. reflexivity. Qed.

Lemma set_chunks_view (type : Slot) (chunks : list Blob) (s : State) :
  recorderView (set_chunks type chunks s) = recorderView s.
Proof. destruct type; reflexivity. Qed.

Lemma onstop_view (type : Slot) (now : Z) (s : State) :
  recorderView (onstop type now s) = recorderView s.
Proof.
  unfold onstop. destruct (0 <? _)%nat; [|reflexivity].
  rewrite set_chunks_view, processNextSegment_view. reflexivity.
Qed.

Lemma ondataavailable_view (type : Slot) (data : Blob) (s : State) :
  recorderView (ondataavailable type data s) = recorderView s.
Proof.
  unfold ondataavailable. destruct (0 <? _)%nat; [|reflexivity].
  apply set_chunks_view.
Qed.

Lemma set_note_rawTranscription_view (text : jsstring) (s : State) :
  recorderView (set_note_rawTranscription text s) = recorderView s.
Proof. unfold set_note_rawTranscription. destruct (currentNote s); reflexivity. Qed.

Lemma set_note_polishedNote_view (text : jsstring) (s : State) :
  recorderView (set_note_polishedNote text s) = recorderView s.
Proof. unfold set_note_polishedNote. destruct (currentNote s); reflexivity. Qed.

Lemma updateTranscriptionDisplay_view (text : jsstring) (s : State) :
  recorderView (updateTranscriptionDisplay textOfHtml text s) = recorderView s.
Proof. unfold updateTranscriptionDisplay. destruct (rawTranscription s); reflexivity. Qed.

Lemma getPolishedNote_begin_view (i : nat) (s : State) :
  recorderView (getPolishedNote_begin i s) = recorderView s.
Proof.
  unfold getPolishedNote_begin.
  destruct (negb _); [apply finish_view|].
  cbv zeta. destruct (_ !! i); reflexivity.
Qed.

Lemma transcriptionDone_view (i : nat) (r : Transcription) (s : State) :
  recorderView (transcriptionDone textOfHtml i r s) = recorderView s.
Proof.
  unfold transcriptionDone.
  destruct (inflight s !! i) as [[segment []]|]; try reflexivity.
  destruct r as [| | |[text|]]; try apply finish_view.
  destruct (truthy text); [|apply finish_view].
  unfold getSegmentTranscription_text. cbv zeta.
  rewrite getPolishedNote_begin_view, set_note_rawTranscription_view,
    updateTranscriptionDisplay_view.
  reflexivity.
Qed.

Lemma getPolishedNote_text_view (text : jsstring) (s : State) :
  recorderView (getPolishedNote_text text s) = recorderView s.
Proof.
  unfold getPolishedNote_text. cbv zeta. rewrite set_note_polishedNote_view.
  destruct (_ =? 1)%nat; reflexivity.
Qed.

Lemma refinementDone_view (i : nat) (r : Refinement) (s : State) :
  recorderView (refinementDone i r s) = recorderView s.
Proof.
  unfold refinementDone.
  destruct (inflight s !! i) as [[segment []]|]; try reflexivity.
  cbv zeta. rewrite finish_view.
  destruct r as [|[text|]]; try reflexivity.
  destruct (truthy text); [|reflexivity].
  apply getPolishedNote_text_view.
Qed.

Ltac destruct_state s :=
  destruct s as [pR sR act pC sC isRec isCont note oT cT cnt acc pol q proc st scr mic
                 tid sst rawEl titleEl tasks jobs timers waits starts em reqs titles
                 orph].

Ltac solve_view := vm_compute; repeat (first [split | intro]); congruence.

(** Case analysis on the fields the recorder invariant reads, keeping the
    cases the invariant allows. *)
Ltac consistent_cases H isRec isCont act pR sR tid :=
  destruct isRec; cbv beta iota delta [isRecording] in H;
  [ let H1 := fresh in let H2 := fresh in let H3 := fresh in
    destruct H as (H1 & H2 & H3);
    destruct act, pR as [[]|], sR as [[]|]; vm_compute in H1, H2;
    try (exfalso; congruence);
    (destruct isCont;
     [ let H4 := fresh in let H5 := fresh in
       destruct (H3 eq_refl) as [H4 H5]; clear H3; vm_compute in H4, H5;
       try (exfalso; congruence);
       destruct tid; try (exfalso; apply H5; reflexivity)
     | clear H3; destruct tid ])
  | let H1 := fresh in let H2 := fresh in
    destruct H as [H1 H2];
    destruct act, pR as [[]|], sR as [[]|]; vm_compute in H1, H2;
    try (exfalso; congruence);
    destruct isCont, tid ].

Lemma toggleRecording_consistent (c : Capture) (now : Z) (s : State) :
  recordersConsistent s -> recordersConsistent (toggleRecording c now s).
Proof.
  intros H. unfold recordersConsistent, capturing in *.
  destruct_state s.
  consistent_cases H isRec isCont act pR sR tid;
    destruct c as [|[[[|n']]|] [[|n'']]]; solve_view.
Qed.

Lemma createNewNote_consistent (now : Z) (s : State) :
  recordersConsistent s -> recordersConsistent (createNewNote now s).
Proof.
  intros H. unfold recordersConsistent, capturing in *.
  destruct_state s.
  consistent_cases H isRec isCont act pR sR tid; solve_view.
Qed.

Lemma segmentTimerCallback_consistent (now : Z) (s : State) :
  recordersConsistent s -> recordersConsistent (segmentTimerCallback now s).
Proof.
  intros H. unfold recordersConsistent, capturing in *.
  destruct_state s.
  consistent_cases H isRec isCont act pR sR tid; solve_view.
Qed.

Lemma stopContinuousRecording_end_consistent (s : State) :
  recordersConsistent (stopContinuousRecording_end s).
Proof.
  unfold recordersConsistent, capturing in *.
  destruct_state s.
  destruct pR as [[]|], sR as [[]|]; solve_view.
Qed.

Lemma step_consistent (e : Event) (s : State) :
  suspendedStart e = false ->
  recordersConsistent s -> recordersConsistent (step e s).
Proof.
  intros He H.
  destruct e as [c now| |c now|now|now|data now|i r|i r| |];
    try discriminate He; cbn [App.step].
  - apply toggleRecording_consistent, H.
  - apply createNewNote_consistent, H.
  - destruct (segmentIntervalId s); [apply segmentTimerCallback_consistent|]; exact H.
  - destruct (stopTasks s) as [|type rest]; [exact H|].
    refine (recordersConsistent_view _ _ _ H).
    rewrite onstop_view, ondataavailable_view. reflexivity.
  - refine (recordersConsistent_view _ _ _ H). apply transcriptionDone_view.
  - refine (recordersConsistent_view _ _ _ H). apply refinementDone_view.
  - destruct (drainTimers s); [exact H|].
    refine (recordersConsistent_view _ _ _ H).
    rewrite processNextSegment_view. reflexivity.
  - destruct (stopsWaiting s); [exact H|].
    apply stopContinuousRecording_end_consistent.
Qed.

Lemma constructed_consistent (rawEl titleEl : option Element) (now : Z) :
  recordersConsistent (constructed rawEl titleEl now).
Proof. vm_compute. split; discriminate. Qed.












Lemma switch_on_timer (now : Z) (s : State) :
  recordersConsistent s -> recordingOn s ->
  recorderOf (activeRecorder s) (step (SegmentTimer now) s) = Some inactive
  /\ stopTasks (step (SegmentTimer now) s) = stopTasks s ++ [activeRecorder s]
  /\ activeRecorder (step (SegmentTimer now) s) = other (activeRecorder s)
  /\ capturing (other (activeRecorder s)) (step (SegmentTimer now) s)
  /\ recordingOn (step (SegmentTimer now) s).
Proof.
  unfold recordersConsistent, recordingOn, capturing.
  destruct_state s. cbn [isRecording isContinuousMode].
  intros H [-> ->].
  destruct H as (H1 & H2 & H3). destruct (H3 eq_refl) as [H4 H5]. clear H3.
  destruct act, pR as [[]|], sR as [[]|], tid; vm_compute in H1, H2, H4, H5;
    try (exfalso; congruence).
  all: vm_compute; repeat split.
Qed.


(** Field reads through field updates. *)
Ltac fields :=
  cbn [primaryRecorder secondaryRecorder activeRecorder primaryAudioChunks
       secondaryAudioChunks isRecording isContinuousMode currentNote openingTags
       closingTags segmentCount accumulatedTranscription accumulatedPolishedNote
       processingQueue isProcessingSegment stream screenStream micStream
       segmentIntervalId segmentStartTime rawTranscription editorTitle stopTasks
       inflight drainTimers stopsWaiting startsPending emitted requests titleUpdates
       orphans set_startsPending set_orphans
       set_primaryRecorder set_secondaryRecorder set_activeRecorder
       set_primaryAudioChunks set_secondaryAudioChunks set_isRecording
       set_isContinuousMode set_currentNote set_openingTags set_closingTags
       set_segmentCount set_accumulatedTranscription set_accumulatedPolishedNote
       set_processingQueue set_isProcessingSegment set_stream set_screenStream
       set_micStream set_segmentIntervalId set_segmentStartTime
       set_rawTranscription set_editorTitle set_stopTasks set_inflight
       set_drainTimers set_stopsWaiting set_emitted set_requests set_titleUpdates
       recorderOf set_recorder chunksOf set_chunks].

Ltac fields_in H :=
  cbn [primaryRecorder secondaryRecorder activeRecorder primaryAudioChunks
       secondaryAudioChunks isRecording isContinuousMode currentNote openingTags
       closingTags segmentCount accumulatedTranscription accumulatedPolishedNote
       processingQueue isProcessingSegment stream screenStream micStream
       segmentIntervalId segmentStartTime rawTranscription editorTitle stopTasks
       inflight drainTimers stopsWaiting startsPending emitted requests titleUpdates
       orphans set_startsPending set_orphans
       set_primaryRecorder set_secondaryRecorder set_activeRecorder
       set_primaryAudioChunks set_secondaryAudioChunks set_isRecording
       set_isContinuousMode set_currentNote set_openingTags set_closingTags
       set_segmentCount set_accumulatedTranscription set_accumulatedPolishedNote
       set_processingQueue set_isProcessingSegment set_stream set_screenStream
       set_micStream set_segmentIntervalId set_segmentStartTime
       set_rawTranscription set_editorTitle set_stopTasks set_inflight
       set_drainTimers set_stopsWaiting set_emitted set_requests set_titleUpdates
       recorderOf set_recorder chunksOf set_chunks] in H.

(** Unfold, split on every conditional, compare. *)
Ltac frame :=
  cbv zeta;
  repeat match goal with
         | |- context [match ?x with _ => _ end] =>
             lazymatch x with
             | context [match _ with _ => _ end] => fail
             | _ => destruct x
             end
         end;
  reflexivity.

(** What the second half of a start leaves alone. *)
Ltac settled_frame :=
  unfold startContinuousRecording_settled, andThen, setupStreams_settled,
    startDualRecording, andThen, recorder_start, setupDualMediaRecorders, displaced,
    setupSegmentTimer, handleRecordingError, setupFinalStream, setupAudioTags,
    cleanupStreams, stopLiveDisplay, cleanupAnimations, set_recorder;
  frame.

(** *** The single-flight guard *)

Lemma queueConsistent_view (s s' : State) :
  queueView s' = queueView s -> queueConsistent s -> queueConsistent s'.
Proof.
  unfold queueView, queueConsistent. intros [= H1 H2]. rewrite H1, H2. trivial.
Qed.

Lemma queueConsistent_singleFlight (s : State) : queueConsistent s -> singleFlight s.
Proof.
  unfold queueConsistent, singleFlight.
  destruct (inflight s) as [|j [|j' jobs]]; cbn [List.length]; intros H; [| |contradiction].
  - split; [lia|]. rewrite H. split; [discriminate|congruence].
  - split; [lia|]. rewrite H. split; [discriminate|reflexivity].
Qed.

Lemma finally_queue (s : State) :
  queueView (processNextSegment_finally s) = (false, inflight s).
Proof. unfold processNextSegment_finally. frame. Qed.

Lemma processNextSegment_queue (s : State) :
  queueConsistent s -> queueConsistent (processNextSegment s).
Proof.
  intros H. unfold processNextSegment.
  destruct (isProcessingSegment s) eqn:Hp; [exact H|].
  destruct (processingQueue s) as [|segment rest]; [exact H|].
  assert (Hjobs : inflight s = []).
  { unfold queueConsistent in H. rewrite Hp in H.
    destruct (inflight s) as [|j [|j' jobs]]; [reflexivity|discriminate|contradiction]. }
  cbv zeta. unfold processAudioSegment_begin. destruct (_ =? 0)%nat.
  - unfold queueConsistent.
    pose proof (finally_queue (set_processingQueue rest (set_isProcessingSegment true s))) as E.
    unfold queueView in E. injection E as -> ->. fields. rewrite Hjobs. reflexivity.
  - unfold queueConsistent. fields. rewrite Hjobs. reflexivity.
Qed.

Lemma finish_queue (s : State) (job : Job) :
  inflight s = [job] -> queueConsistent (finish 0 s).
Proof.
  intros Hjobs. unfold finish, queueConsistent.
  pose proof (finally_queue (set_inflight (delete 0%nat (inflight s)) s)) as E.
  unfold queueView in E. injection E as -> ->. fields. rewrite Hjobs. reflexivity.
Qed.

Lemma lookup_singleton_job (jobs : list Job) (i : nat) (job job' : Job) :
  jobs = [job'] -> jobs !! i = Some job -> i = 0%nat /\ job' = job.
Proof.
  intros -> H. destruct i as [|i]; [|destruct i; discriminate].
  injection H as ->. split; reflexivity.
Qed.

Lemma queueConsistent_busy (s : State) (i : nat) (job : Job) :
  queueConsistent s -> inflight s !! i = Some job ->
  i = 0%nat /\ inflight s = [job] /\ isProcessingSegment s = true.
Proof.
  unfold queueConsistent. intros H Hi.
  destruct (inflight s) as [|j [|j' jobs]] eqn:Hjobs; [discriminate| |contradiction].
  destruct (lookup_singleton_job [j] i job j eq_refl Hi) as [-> ->].
  repeat split. exact H.
Qed.

Lemma set_note_rawTranscription_queue (text : jsstring) (s : State) :
  queueView (set_note_rawTranscription text s) = queueView s.
Proof. unfold set_note_rawTranscription. frame. Qed.

Lemma set_note_polishedNote_queue (text : jsstring) (s : State) :
  queueView (set_note_polishedNote text s) = queueView s.
Proof. unfold set_note_polishedNote. frame. Qed.

Lemma updateTranscriptionDisplay_queue (text : jsstring) (s : State) :
  queueView (updateTranscriptionDisplay textOfHtml text s) = queueView s.
Proof. unfold updateTranscriptionDisplay. frame. Qed.

Lemma getPolishedNote_text_queue (text : jsstring) (s : State) :
  queueView (getPolishedNote_text text s) = queueView s.
Proof. unfold getPolishedNote_text, set_note_polishedNote. frame. Qed.

Lemma getPolishedNote_begin_queue (s : State) (job : Job) :
  inflight s = [job] -> isProcessingSegment s = true ->
  queueConsistent (getPolishedNote_begin 0 s).
Proof.
  intros Hjobs Hp. unfold getPolishedNote_begin.
  destruct (negb _); [exact (finish_queue s job Hjobs)|].
  cbv zeta. fields. rewrite Hjobs. cbn [lookup list_lookup].
  unfold queueConsistent. fields. rewrite Hp. reflexivity.
Qed.

Lemma transcriptionDone_queue (i : nat) (r : Transcription) (s : State) :
  queueConsistent s -> queueConsistent (transcriptionDone textOfHtml i r s).
Proof.
  intros H. unfold transcriptionDone.
  destruct (inflight s !! i) as [job|] eqn:Hi; [|exact H].
  destruct (queueConsistent_busy s i job H Hi) as (-> & Hjobs & Hp).
  destruct job as [segment []]; [|exact H].
  destruct r as [| | |[text|]]; try exact (finish_queue s _ Hjobs).
  destruct (truthy text); [|exact (finish_queue s _ Hjobs)].
  unfold getSegmentTranscription_text. cbv zeta.
  match goal with
  | |- queueConsistent (getPolishedNote_begin 0 ?x) =>
      assert (Hv : queueView x = queueView s)
        by (rewrite set_note_rawTranscription_queue, updateTranscriptionDisplay_queue;
            reflexivity);
      unfold queueView in Hv; injection Hv as Hv1 Hv2;
      apply (getPolishedNote_begin_queue x {| job_segment := segment;
                                              job_phase := Transcribing |});
      [exact (eq_trans Hv2 Hjobs)|exact (eq_trans Hv1 Hp)]
  end.
Qed.

Lemma refinementDone_queue (i : nat) (r : Refinement) (s : State) :
  queueConsistent s -> queueConsistent (refinementDone i r s).
Proof.
  intros H. unfold refinementDone.
  destruct (inflight s !! i) as [job|] eqn:Hi; [|exact H].
  destruct (queueConsistent_busy s i job H Hi) as (-> & Hjobs & Hp).
  destruct job as [segment []]; [exact H|].
  cbv zeta.
  match goal with
  | |- queueConsistent (finish 0 ?x) =>
      assert (Hv : queueView x = queueView s)
  end.
  { destruct r as [|[text|]]; try reflexivity.
    destruct (truthy text); [apply getPolishedNote_text_queue|reflexivity]. }
  unfold queueView in Hv. injection Hv as Hv1 Hv2.
  eapply finish_queue. rewrite Hv2. exact Hjobs.
Qed.

Lemma onstop_queue (type : Slot) (now : Z) (s : State) :
  queueConsistent s -> queueConsistent (onstop type now s).
Proof.
  intros H. unfold onstop. destruct (0 <? _)%nat; [|exact H]. cbv zeta.
  match goal with
  | |- queueConsistent (set_chunks _ _ (processNextSegment ?x)) =>
      refine (queueConsistent_view (processNextSegment x) _ _ _);
        [destruct type; reflexivity|];
      apply processNextSegment_queue;
      refine (queueConsistent_view s _ _ H); reflexivity
  end.
Qed.

Lemma ondataavailable_queue (type : Slot) (data : Blob) (s : State) :
  queueView (ondataavailable type data s) = queueView s.
Proof. unfold ondataavailable, set_chunks. frame. Qed.

Lemma stopContinuousRecording_begin_queue (s : State) :
  queueView (stopContinuousRecording_begin s) = queueView s.
Proof.
  unfold stopContinuousRecording_begin, stopIfRecording, recorder_stop, set_recorder,
    cleanupAnimations.
  frame.
Qed.

Lemma stopContinuousRecording_end_queue (s : State) :
  queueView (stopContinuousRecording_end s) = queueView s.
Proof.
  unfold stopContinuousRecording_end, cleanupStreams, stopDualRecording, stopLiveDisplay,
    cleanupAnimations, stopIfRecording, recorder_stop, set_recorder.
  frame.
Qed.

Lemma segmentTimerCallback_queue (now : Z) (s : State) :
  queueView (segmentTimerCallback now s) = queueView s.
Proof.
  unfold segmentTimerCallback, switchRecorders, stopIfRecording, recorder_start,
    recorder_stop, set_recorder.
  frame.
Qed.

Lemma startContinuousRecording_begin_queue (s : State) :
  queueView (startContinuousRecording_begin s) = (false, inflight s).
Proof. reflexivity. Qed.

Lemma startContinuousRecording_settled_queue (c : Capture) (now : Z) (s : State) :
  queueView (startContinuousRecording_settled c now s) = queueView s.
Proof.
  unfold startContinuousRecording_settled, andThen, setupStreams_settled,
    startDualRecording, andThen,
    recorder_start, setupDualMediaRecorders, setupSegmentTimer, handleRecordingError,
    setupFinalStream, setupAudioTags, cleanupStreams, stopLiveDisplay, cleanupAnimations,
    set_recorder.
  frame.
Qed.

Lemma startContinuousRecording_queue (c : Capture) (now : Z) (s : State) :
  queueView (startContinuousRecording c now s) = (false, inflight s).
Proof.
  unfold startContinuousRecording. rewrite startContinuousRecording_settled_queue.
  apply startContinuousRecording_begin_queue.
Qed.

Lemma createNewNote_queue (now : Z) (s : State) :
  queueView (createNewNote now s) = (false, inflight s).
Proof.
  unfold createNewNote, stopDualRecording, stopLiveDisplay, cleanupAnimations,
    stopIfRecording, recorder_stop, set_recorder.
  frame.
Qed.

Lemma reset_queue (s s' : State) :
  queueView s' = (false, inflight s) -> idle s = true -> queueConsistent s'.
Proof.
  unfold queueView, queueConsistent, idle. intros [= -> ->].
  destruct (inflight s); [reflexivity|discriminate].
Qed.

Lemma step_queueConsistent (e : Event) (s : State) :
  negb (resets e s) || idle s = true ->
  queueConsistent s -> queueConsistent (step e s).
Proof.
  intros Hguard H.
  destruct e as [c now| |c now|now|now|data now|i r|i r| |]; cbn [App.step resets] in *.
  - unfold toggleRecording. destruct (isRecording s); cbn [negb orb] in *.
    + refine (queueConsistent_view s _ _ H).
      transitivity (queueView (stopContinuousRecording_begin s)); [reflexivity|].
      apply stopContinuousRecording_begin_queue.
    + exact (reset_queue s _ (startContinuousRecording_queue c now s) Hguard).
  - unfold toggleRecording_begin. destruct (isRecording s); cbn [negb orb] in *.
    + refine (queueConsistent_view s _ _ H).
      transitivity (queueView (stopContinuousRecording_begin s)); [reflexivity|].
      apply stopContinuousRecording_begin_queue.
    + refine (reset_queue s _ _ Hguard). reflexivity.
  - destruct (startsPending s); [exact H|].
    refine (queueConsistent_view s _ _ H).
    rewrite startContinuousRecording_settled_queue. reflexivity.
  - exact (reset_queue s _ (createNewNote_queue now s) Hguard).
  - destruct (segmentIntervalId s); [|exact H].
    exact (queueConsistent_view s _ (segmentTimerCallback_queue now s) H).
  - destruct (stopTasks s) as [|type rest]; [exact H|].
    apply onstop_queue.
    refine (queueConsistent_view s _ _ H).
    rewrite ondataavailable_queue. reflexivity.
  - apply transcriptionDone_queue, H.
  - apply refinementDone_queue, H.
  - destruct (drainTimers s); [exact H|].
    apply processNextSegment_queue. exact (queueConsistent_view s _ eq_refl H).
  - destruct (stopsWaiting s); [exact H|].
    refine (queueConsistent_view s _ _ H).
    rewrite stopContinuousRecording_end_queue. reflexivity.
Qed.

Lemma run_queueConsistent (events : list Event) (s : State) :
  resetsWhenIdle textOfHtml events s = true ->
  queueConsistent s -> queueConsistent (run events s).
Proof.
  revert s. induction events as [|e events IH]; intros s Hguard H; [exact H|].
  cbn [App.run resetsWhenIdle] in *.
  apply andb_true_iff in Hguard as [Hg Hrest].
  apply IH; [exact Hrest|]. apply step_queueConsistent; assumption.
Qed.

Lemma resetsWhenIdle_prefix (events1 events2 : list Event) (s : State) :
  resetsWhenIdle textOfHtml (events1 ++ events2) s = true ->
  resetsWhenIdle textOfHtml events1 s = true.
Proof.
  revert s. induction events1 as [|e events1 IH]; intros s H; [reflexivity|].
  cbn [app resetsWhenIdle] in *.
  apply andb_true_iff in H as [Hg Hrest].
  rewrite Hg. cbn [andb]. apply IH, Hrest.
Qed.

Lemma constructed_queueConsistent (rawEl titleEl : option Element) (now : Z) :
  queueConsistent (constructed rawEl titleEl now).
Proof. reflexivity. Qed.

(** C2 (amended): as long as no reset (a click on "new note", or a click
    that starts a session) happens while a segment is being processed, the
    queue is single-flight at every point of the run: at most one segment is
    in processing, and [isProcessingSegment] is set exactly while one is. *)
Theorem C2_single_flight (rawEl titleEl : option Element) (now0 : Z)
        (events sofar rest : list Event) :
  resetsWhenIdle textOfHtml events (constructed rawEl titleEl now0) = true ->
  events = sofar ++ rest ->
  singleFlight (run sofar (constructed rawEl titleEl now0)).
Proof.
  intros Hguard ->. apply queueConsistent_singleFlight, run_queueConsistent.
  - exact (resetsWhenIdle_prefix sofar rest _ Hguard).
  - apply constructed_queueConsistent.
Qed.


(** *** Recorder stops without data *)

Lemma chunksOf_view (s s' : State) (type : Slot) :
  chunkView s' = chunkView s -> chunksOf type s' = chunksOf type s.
Proof. unfold chunkView. intros [= H1 H2]. destruct type; assumption. Qed.

Lemma chunksEmpty_view (s s' : State) :
  chunkView s' = chunkView s -> chunksEmpty s -> chunksEmpty s'.
Proof.
  intros Hv H type. rewrite (chunksOf_view s s' type Hv). apply H.
Qed.

Lemma processNextSegment_chunks (s : State) :
  chunkView (processNextSegment s) = chunkView s.
Proof.
  unfold processNextSegment, processAudioSegment_begin, processNextSegment_finally.
  frame.
Qed.

Lemma transcriptionDone_chunks (i : nat) (r : Transcription) (s : State) :
  chunkView (transcriptionDone textOfHtml i r s) = chunkView s.
Proof.
  unfold transcriptionDone, getSegmentTranscription_text, getPolishedNote_begin, finish,
    processNextSegment_finally, set_note_rawTranscription, updateTranscriptionDisplay.
  frame.
Qed.

Lemma refinementDone_chunks (i : nat) (r : Refinement) (s : State) :
  chunkView (refinementDone i r s) = chunkView s.
Proof.
  unfold refinementDone, getPolishedNote_text, finish, processNextSegment_finally,
    set_note_polishedNote.
  frame.
Qed.

Lemma createNewNote_chunks (now : Z) (s : State) :
  chunkView (createNewNote now s) = chunkView s.
Proof.
  unfold createNewNote, stopDualRecording, stopLiveDisplay, cleanupAnimations,
    stopIfRecording, recorder_stop, set_recorder.
  frame.
Qed.

Lemma segmentTimerCallback_chunks (now : Z) (s : State) :
  chunkView (segmentTimerCallback now s) = chunkView s.
Proof.
  unfold segmentTimerCallback, switchRecorders, stopIfRecording, recorder_start,
    recorder_stop, set_recorder.
  frame.
Qed.

Lemma stopContinuousRecording_begin_chunks (s : State) :
  chunkView (stopContinuousRecording_begin s) = chunkView s.
Proof.
  unfold stopContinuousRecording_begin, stopIfRecording, recorder_stop, set_recorder,
    cleanupAnimations.
  frame.
Qed.

Lemma stopContinuousRecording_end_chunks (s : State) :
  chunkView (stopContinuousRecording_end s) = chunkView s.
Proof.
  unfold stopContinuousRecording_end, cleanupStreams, stopDualRecording, stopLiveDisplay,
    cleanupAnimations, stopIfRecording, recorder_stop, set_recorder.
  frame.
Qed.

Lemma startContinuousRecording_settled_chunks (c : Capture) (now : Z) (s : State) :
  chunksEmpty s -> chunksEmpty (startContinuousRecording_settled c now s).
Proof.
  intros H type. pose proof (H primary) as Hp. pose proof (H secondary) as Hs.
  cbn [chunksOf] in Hp, Hs. destruct type; unfold chunksOf.
  all: unfold startContinuousRecording_settled, andThen, setupStreams_settled,
    startDualRecording, andThen,
    recorder_start, setupDualMediaRecorders, setupSegmentTimer, handleRecordingError,
    setupFinalStream, setupAudioTags, cleanupStreams, stopLiveDisplay, cleanupAnimations,
    set_recorder.
  all: cbv zeta.
  all: repeat match goal with
         | |- context [match ?x with _ => _ end] =>
             lazymatch x with
             | context [match _ with _ => _ end] => fail
             | _ => destruct x
             end
         end;
    first [reflexivity | exact Hp | exact Hs].
Qed.

Lemma startContinuousRecording_chunks (c : Capture) (now : Z) (s : State) :
  chunksEmpty s -> chunksEmpty (startContinuousRecording c now s).
Proof.
  intros H. apply startContinuousRecording_settled_chunks.
  exact (chunksEmpty_view s _ eq_refl H).
Qed.

Lemma onstop_empty (type : Slot) (now : Z) (s : State) :
  chunksOf type s = [] -> onstop type now s = s.
Proof. intros H. unfold onstop. rewrite H. reflexivity. Qed.

Lemma onstop_chunksOf (type : Slot) (now : Z) (s : State) :
  chunksOf type (onstop type now s) = []
  /\ chunksOf (other type) (onstop type now s) = chunksOf (other type) s.
Proof.
  unfold onstop. destruct (chunksOf type s) as [|chunk chunks] eqn:E.
  - split; [exact E|reflexivity].
  - cbn [List.length Nat.ltb Nat.leb]. cbv zeta.
    match goal with
    | |- context [processNextSegment ?y] =>
        pose proof (processNextSegment_chunks y) as Hv
    end.
    unfold chunkView in Hv. injection Hv as H1 H2.
    destruct type; cbn [other chunksOf set_chunks]; fields; (split; [reflexivity|]);
      [exact H2|exact H1].
Qed.

Lemma ondataavailable_other (type : Slot) (data : Blob) (s : State) :
  chunksOf (other type) (ondataavailable type data s) = chunksOf (other type) s.
Proof.
  unfold ondataavailable. destruct (0 <? size data)%nat; [|reflexivity].
  destruct type; reflexivity.
Qed.

Lemma ondataavailable_empty (type : Slot) (data : Blob) (s : State) :
  size data = 0%nat -> ondataavailable type data s = s.
Proof. intros H. unfold ondataavailable. rewrite H. reflexivity. Qed.

(** A stop task runs [ondataavailable] and then [onstop]; the chunk arrays
    are empty again when it ends. *)
Lemma stopTask_chunks (type : Slot) (data : Blob) (now : Z) (s : State) :
  chunksEmpty s -> chunksEmpty (onstop type now (ondataavailable type data s)).
Proof.
  intros H.
  destruct (onstop_chunksOf type now (ondataavailable type data s)) as [H1 H2].
  rewrite ondataavailable_other, (H (other type)) in H2.
  intros type'. destruct type, type'; assumption.
Qed.

Lemma step_chunksEmpty (e : Event) (s : State) :
  chunksEmpty s -> chunksEmpty (step e s).
Proof.
  intros H. destruct e as [c now| |c now|now|now|data now|i r|i r| |]; cbn [App.step].
  - unfold toggleRecording. destruct (negb (isRecording s)).
    + apply startContinuousRecording_chunks, H.
    + refine (chunksEmpty_view s _ _ H).
      transitivity (chunkView (stopContinuousRecording_begin s)); [reflexivity|].
      apply stopContinuousRecording_begin_chunks.
  - unfold toggleRecording_begin. destruct (negb (isRecording s)).
    + exact (chunksEmpty_view s _ eq_refl H).
    + refine (chunksEmpty_view s _ _ H).
      transitivity (chunkView (stopContinuousRecording_begin s)); [reflexivity|].
      apply stopContinuousRecording_begin_chunks.
  - destruct (startsPending s); [exact H|].
    apply startContinuousRecording_settled_chunks.
    exact (chunksEmpty_view s _ eq_refl H).
  - exact (chunksEmpty_view s _ (createNewNote_chunks now s) H).
  - destruct (segmentIntervalId s); [|exact H].
    exact (chunksEmpty_view s _ (segmentTimerCallback_chunks now s) H).
  - destruct (stopTasks s) as [|type rest]; [exact H|].
    apply stopTask_chunks. exact (chunksEmpty_view s _ eq_refl H).
  - exact (chunksEmpty_view s _ (transcriptionDone_chunks i r s) H).
  - exact (chunksEmpty_view s _ (refinementDone_chunks i r s) H).
  - destruct (drainTimers s); [exact H|].
    refine (chunksEmpty_view s _ _ H). rewrite processNextSegment_chunks. reflexivity.
  - destruct (stopsWaiting s); [exact H|].
    refine (chunksEmpty_view s _ _ H).
    rewrite stopContinuousRecording_end_chunks. reflexivity.
Qed.

Lemma reachable_chunksEmpty (rawEl titleEl : option Element) (now : Z)
      (events : list Event) :
  chunksEmpty (run events (constructed rawEl titleEl now)).
Proof.
  apply run_invariant; [exact step_chunksEmpty|]. intros []; reflexivity.
Qed.

(** C7: in every state the application reaches, a recorder stop that
    delivers no data creates no segment: the queue and the record of
    emitted segments are unchanged, and no processing is started (nothing
    enters processing, the guard keeps its value, no drain is scheduled). *)
Theorem C7_empty_stop_emits_nothing (rawEl titleEl : option Element) (now0 : Z)
        (events : list Event) (data : Blob) (now : Z) (s : State) :
  s = run events (constructed rawEl titleEl now0) ->
  size data = 0%nat ->
  processingQueue (step (RecorderStopTask data now) s) = processingQueue s
  /\ emitted (step (RecorderStopTask data now) s) = emitted s
  /\ inflight (step (RecorderStopTask data now) s) = inflight s
  /\ isProcessingSegment (step (RecorderStopTask data now) s) = isProcessingSegment s
  /\ drainTimers (step (RecorderStopTask data now) s) = drainTimers s
  /\ chunksEmpty (step (RecorderStopTask data now) s).
Proof.
  intros -> Hdata.
  pose proof (reachable_chunksEmpty rawEl titleEl now0 events) as H.
  set (s := run events (constructed rawEl titleEl now0)) in *. clearbody s.
  cbn [App.step]. destruct (stopTasks s) as [|type rest].
  - repeat split; try reflexivity. exact H.
  - rewrite ondataavailable_empty by exact Hdata.
    rewrite onstop_empty by exact (H type).
    repeat split; try reflexivity. exact (chunksEmpty_view s _ eq_refl H).
Qed.

(** *** Stopping *)

Lemma waitForQueue_attempts (sleep : nat -> State -> State) :
  forall (remaining attempts : nat) (s : State),
    (attempts <= snd (waitForQueue remaining sleep attempts s) <= attempts + remaining)%nat.
Proof.
  induction remaining as [|remaining IH]; intros attempts s; cbn [waitForQueue].
  - cbn [snd]. lia.
  - destruct (negb _ || _).
    + specialize (IH (S attempts) (sleep attempts s)). lia.
    + cbn [snd]. lia.
Qed.

(** A queue that never drains keeps the loop going for its 50 rounds. *)
Lemma waitForQueue_stuck (sleep : nat -> State -> State) :
  (forall k s, isProcessingSegment (sleep k s) = true) ->
  forall (remaining attempts : nat) (s : State),
    isProcessingSegment s = true ->
    snd (waitForQueue remaining sleep attempts s) = (attempts + remaining)%nat.
Proof.
  intros Hstuck. induction remaining as [|remaining IH]; intros attempts s Hs;
    cbn [waitForQueue].
  - cbn [snd]. lia.
  - rewrite Hs, orb_true_r. rewrite IH by apply Hstuck. lia.
Qed.

Lemma stopContinuousRecording_end_teardown (s : State) :
  isRecording (stopContinuousRecording_end s) = false
  /\ ~ capturing primary (stopContinuousRecording_end s)
  /\ ~ capturing secondary (stopContinuousRecording_end s)
  /\ stream (stopContinuousRecording_end s) = None
  /\ screenStream (stopContinuousRecording_end s) = None
  /\ micStream (stopContinuousRecording_end s) = None
  /\ segmentIntervalId (stopContinuousRecording_end s) = None.
Proof.
  unfold capturing, stopContinuousRecording_end, cleanupStreams, stopDualRecording,
    stopLiveDisplay, cleanupAnimations, stopIfRecording, recorder_stop.
  cbv zeta. cbn [recorderOf set_recorder].
  destruct (primaryRecorder s) as [[]|] eqn:Hp; fields;
    destruct (secondaryRecorder s) as [[]|] eqn:Hs; fields;
    repeat split; rewrite ?Hp, ?Hs; discriminate.
Qed.

(** C10: a stop of a continuous recording runs its wait loop for at most 50
    rounds, whatever the other callbacks do meanwhile and even if the queue
    never drains, and then tears down: [isRecording] is cleared, no recorder
    captures, the streams are released and the segment timer is gone. *)
Theorem C10_stop_terminates (sleep : nat -> State -> State) (s : State) :
  (snd (stopContinuousRecording sleep s) <= 50)%nat
  /\ isRecording (fst (stopContinuousRecording sleep s)) = false
  /\ ~ capturing primary (fst (stopContinuousRecording sleep s))
  /\ ~ capturing secondary (fst (stopContinuousRecording sleep s))
  /\ stream (fst (stopContinuousRecording sleep s)) = None
  /\ screenStream (fst (stopContinuousRecording sleep s)) = None
  /\ micStream (fst (stopContinuousRecording sleep s)) = None
  /\ segmentIntervalId (fst (stopContinuousRecording sleep s)) = None.
Proof.
  unfold stopContinuousRecording. cbv zeta.
  destruct (isRecording s).
  - pose proof (waitForQueue_attempts sleep 50 0 (stopContinuousRecording_begin s)) as Hn.
    destruct (waitForQueue 50 sleep 0 (stopContinuousRecording_begin s)) as [s' attempts].
    cbn [fst snd] in *. split; [lia|]. apply stopContinuousRecording_end_teardown.
  - cbn [fst snd]. split; [lia|]. apply stopContinuousRecording_end_teardown.
Qed.

(** With a queue that stays busy the loop gives up after exactly 50 rounds;
    the teardown follows all the same. *)
Lemma stop_with_stuck_queue (sleep : nat -> State -> State) (s : State) :
  (forall k s, isProcessingSegment (sleep k s) = true) ->
  isRecording s = true -> isProcessingSegment s = true ->
  snd (stopContinuousRecording sleep s) = 50%nat.
Proof.
  intros Hstuck Hrec Hbusy. unfold stopContinuousRecording. cbv zeta. rewrite Hrec.
  pose proof (waitForQueue_stuck sleep Hstuck 50 0 (stopContinuousRecording_begin s)) as Hn.
  destruct (waitForQueue 50 sleep 0 (stopContinuousRecording_begin s)) as [s' attempts].
  cbn [fst snd] in *. apply Hn.
  transitivity (fst (queueView (stopContinuousRecording_begin s))); [reflexivity|].
  rewrite stopContinuousRecording_begin_queue. exact Hbusy.
Qed.


(** *** Transcription and refinement of one segment *)

(** Fields that a method does not assign keep their value. *)
Lemma set_note_rawTranscription_other {A : Type} (p : State -> A) (text : jsstring)
      (s : State) :
  (forall v s, p (set_currentNote v s) = p s) ->
  p (set_note_rawTranscription text s) = p s.
Proof.
  intros Hp. unfold set_note_rawTranscription. destruct (currentNote s); [apply Hp|reflexivity].
Qed.

Lemma set_note_polishedNote_other {A : Type} (p : State -> A) (text : jsstring)
      (s : State) :
  (forall v s, p (set_currentNote v s) = p s) ->
  p (set_note_polishedNote text s) = p s.
Proof.
  intros Hp. unfold set_note_polishedNote. destruct (currentNote s); [apply Hp|reflexivity].
Qed.

Lemma updateTranscriptionDisplay_other {A : Type} (p : State -> A) (text : jsstring)
      (s : State) :
  (forall v s, p (set_rawTranscription v s) = p s) ->
  p (updateTranscriptionDisplay textOfHtml text s) = p s.
Proof.
  intros Hp. unfold updateTranscriptionDisplay.
  destruct (rawTranscription s); [apply Hp|reflexivity].
Qed.

Lemma finally_other {A : Type} (p : State -> A) (s : State) :
  (forall v s, p (set_isProcessingSegment v s) = p s) ->
  (forall v s, p (set_drainTimers v s) = p s) ->
  p (processNextSegment_finally s) = p s.
Proof.
  intros H1 H2. unfold processNextSegment_finally. cbv zeta.
  destruct (processingQueue _); [apply H1|]. rewrite H2. apply H1.
Qed.

Lemma finish_other {A : Type} (p : State -> A) (i : nat) (s : State) :
  (forall v s, p (set_isProcessingSegment v s) = p s) ->
  (forall v s, p (set_drainTimers v s) = p s) ->
  (forall v s, p (set_inflight v s) = p s) ->
  p (finish i s) = p s.
Proof.
  intros H1 H2 H3. unfold finish. rewrite finally_other by assumption. apply H3.
Qed.

Lemma getPolishedNote_text_other {A : Type} (p : State -> A) (text : jsstring)
      (s : State) :
  (forall v s, p (set_currentNote v s) = p s) ->
  (forall v s, p (set_accumulatedPolishedNote v s) = p s) ->
  (forall v s, p (set_titleUpdates v s) = p s) ->
  (forall v s, p (set_editorTitle v s) = p s) ->
  p (getPolishedNote_text text s) = p s.
Proof.
  intros H1 H2 H3 H4. unfold getPolishedNote_text. cbv zeta.
  rewrite set_note_polishedNote_other by assumption.
  destruct (_ =? 1)%nat; [rewrite H3, H4|]; apply H2.
Qed.

Ltac other := intros; reflexivity.

(** Strings with a visible character are not blank. *)
Lemma dropWhile_keeps (p : N -> bool) (c : N) (s : jsstring) :
  In c s -> p c = false -> In c (dropWhile p s).
Proof.
  intros Hin Hc. induction s as [|x s IH]; [contradiction|].
  cbn [dropWhile]. destruct (p x) eqn:Hx; [|exact Hin].
  destruct Hin as [->|Hin]; [congruence|exact (IH Hin)].
Qed.

Lemma trim_visible (c : N) (s : jsstring) :
  In c s -> isWhiteSpace c = false -> truthy (trim s) = true.
Proof.
  intros Hin Hc. unfold trim, dropWhileEnd.
  assert (H : In c (rev (dropWhile isWhiteSpace (rev (dropWhile isWhiteSpace s))))).
  { apply in_rev. rewrite rev_involutive. apply dropWhile_keeps; [|exact Hc].
    apply -> in_rev. apply dropWhile_keeps; assumption. }
  destruct (rev _); [contradiction|reflexivity].
Qed.

Lemma segmentBlock_visible (n : nat) (text : jsstring) (s : State) (acc : jsstring) :
  truthy (trim (acc ++ segmentBlock n text s)) = true.
Proof.
  apply (trim_visible 61); [|reflexivity].
  apply in_or_app. right. unfold segmentBlock. cbv zeta. eval_lits.
  cbn [app]. right. right. left. reflexivity.
Qed.

(** The gate of [getPolishedNote] after the display was updated. *)
Lemma display_gate (text : jsstring) (s : State) (el : Element) :
  rawTranscription s = Some el ->
  truthy (trim text) = true ->
  displayable textOfHtml el text = true ->
  hasValidContent (rawTranscription (updateTranscriptionDisplay textOfHtml text s)) = true.
Proof.
  intros Hel Hvisible Hshow. unfold updateTranscriptionDisplay. rewrite Hel.
  cbv zeta. fields. rewrite Hvisible.
  cbn [negb setTextContent setPlaceholder hasValidContent textContent placeholder
       placeholderActive].
  rewrite andb_true_r. exact Hshow.
Qed.

(** The state a successful transcription leaves when the gate is open. *)
Lemma transcriptionDone_text (s : State) (i : nat) (segment : AudioSegment)
      (text : jsstring) (el : Element) :
  inflight s !! i = Some {| job_segment := segment; job_phase := Transcribing |} ->
  truthy text = true ->
  rawTranscription s = Some el ->
  displayable textOfHtml el
    (accumulatedTranscription s ++ segmentBlock (segmentNumber segment) text s) = true ->
  step (TranscriptionDone i (TranscriptionText (Some text))) s
  = set_inflight (<[i := {| job_segment := segment; job_phase := Refining |}]> (inflight s))
      (set_requests
         (requests s ++ [PROMPT ++ accumulatedTranscription s
                                ++ segmentBlock (segmentNumber segment) text s])
         (set_note_rawTranscription
            (accumulatedTranscription s ++ segmentBlock (segmentNumber segment) text s)
            (updateTranscriptionDisplay textOfHtml
               (accumulatedTranscription s ++ segmentBlock (segmentNumber segment) text s)
               (set_accumulatedTranscription
                  (accumulatedTranscription s
                     ++ segmentBlock (segmentNumber segment) text s)
                  (set_segmentCount (Nat.max (segmentCount s) (segmentNumber segment)) s))))).
Proof.
  intros Hi Ht Hel Hshow.
  cbn [App.step]. unfold transcriptionDone. rewrite Hi, Ht.
  unfold getSegmentTranscription_text. cbv zeta. fields.
  change (segmentBlock (segmentNumber segment) text
            (set_segmentCount (Nat.max (segmentCount s) (segmentNumber segment)) s))
    with (segmentBlock (segmentNumber segment) text s).
  set (acc' := accumulatedTranscription s ++ segmentBlock (segmentNumber segment) text s).
  set (s1 := set_accumulatedTranscription acc'
               (set_segmentCount (Nat.max (segmentCount s) (segmentNumber segment)) s)).
  rewrite (updateTranscriptionDisplay_other accumulatedTranscription) by other.
  change (accumulatedTranscription s1) with acc'.
  unfold getPolishedNote_begin.
  rewrite (set_note_rawTranscription_other rawTranscription) by other.
  rewrite (display_gate acc' s1 el Hel (segmentBlock_visible _ _ _ _) Hshow).
  cbn [negb]. cbv zeta. fields.
  rewrite (set_note_rawTranscription_other inflight) by other.
  rewrite (updateTranscriptionDisplay_other inflight) by other.
  change (inflight s1) with (inflight s). rewrite Hi. cbn [job_segment].
  rewrite (set_note_rawTranscription_other accumulatedTranscription) by other.
  rewrite (updateTranscriptionDisplay_other accumulatedTranscription) by other.
  rewrite (set_note_rawTranscription_other requests) by other.
  rewrite (updateTranscriptionDisplay_other requests) by other.
  reflexivity.
Qed.

(** C9: when a segment's transcription succeeds (and the raw-transcript
    element of the page can display the accumulated text), exactly one
    segment-delimited block is appended to the accumulated raw transcript
    and one refinement request is sent, whose prompt embeds the whole
    accumulated transcript; when that refinement succeeds, the polished
    note is the new text (the previous one is replaced, not extended) and
    the raw transcript is left as it was. *)
Theorem C9_transcribe_then_refine (s : State) (i : nat) (segment : AudioSegment)
        (text : jsstring) (el : Element) :
  inflight s !! i = Some {| job_segment := segment; job_phase := Transcribing |} ->
  truthy text = true ->
  rawTranscription s = Some el ->
  displayable textOfHtml el
    (accumulatedTranscription s ++ segmentBlock (segmentNumber segment) text s) = true ->
  accumulatedTranscription (step (TranscriptionDone i (TranscriptionText (Some text))) s)
  = accumulatedTranscription s ++ segmentBlock (segmentNumber segment) text s
  /\ requests (step (TranscriptionDone i (TranscriptionText (Some text))) s)
     = requests s
       ++ [PROMPT ++ accumulatedTranscription
                       (step (TranscriptionDone i (TranscriptionText (Some text))) s)]
  /\ inflight (step (TranscriptionDone i (TranscriptionText (Some text))) s) !! i
     = Some {| job_segment := segment; job_phase := Refining |}
  /\ forall polishedText,
      truthy polishedText = true ->
      accumulatedPolishedNote
        (step (RefinementDone i (RefinementText (Some polishedText)))
           (step (TranscriptionDone i (TranscriptionText (Some text))) s))
      = polishedText
      /\ accumulatedTranscription
           (step (RefinementDone i (RefinementText (Some polishedText)))
              (step (TranscriptionDone i (TranscriptionText (Some text))) s))
         = accumulatedTranscription s ++ segmentBlock (segmentNumber segment) text s
      /\ requests
           (step (RefinementDone i (RefinementText (Some polishedText)))
              (step (TranscriptionDone i (TranscriptionText (Some text))) s))
         = requests (step (TranscriptionDone i (TranscriptionText (Some text))) s).
Proof.
  intros Hi Ht Hel Hshow.
  rewrite (transcriptionDone_text s i segment text el Hi Ht Hel Hshow).
  set (acc' := accumulatedTranscription s ++ segmentBlock (segmentNumber segment) text s).
  match goal with |- context [set_inflight ?l ?x] => set (s1 := set_inflight l x) end.
  assert (Hacc : accumulatedTranscription s1 = acc').
  { unfold s1. fields.
    rewrite (set_note_rawTranscription_other accumulatedTranscription) by other.
    rewrite (updateTranscriptionDisplay_other accumulatedTranscription) by other.
    reflexivity. }
  assert (Hjob : inflight s1 !! i
                 = Some {| job_segment := segment; job_phase := Refining |}).
  { unfold s1. fields. apply list_lookup_insert_eq.
    apply lookup_lt_Some in Hi. exact Hi. }
  split; [exact Hacc|]. split.
  { rewrite Hacc. unfold s1. fields. reflexivity. }
  split; [exact Hjob|].
  intros polishedText Hp. cbn [App.step]. unfold refinementDone.
  rewrite Hjob, Hp. cbv zeta.
  rewrite (finish_other accumulatedPolishedNote) by other.
  rewrite (finish_other accumulatedTranscription) by other.
  rewrite (finish_other requests) by other.
  rewrite (getPolishedNote_text_other accumulatedTranscription) by other.
  rewrite (getPolishedNote_text_other requests) by other.
  split; [|split; [exact Hacc|reflexivity]].
  unfold getPolishedNote_text. cbv zeta.
  rewrite (set_note_polishedNote_other accumulatedPolishedNote) by other.
  destruct (_ =? 1)%nat; reflexivity.
Qed.


(** *** Draining the queue *)

Lemma segmentBlock_tags (n : nat) (text : jsstring) (s s' : State) :
  openingTags s' = openingTags s -> closingTags s' = closingTags s ->
  segmentBlock n text s' = segmentBlock n text s.
Proof.
  intros Ho Hc. unfold segmentBlock, addAudioTags. rewrite Ho, Hc. reflexivity.
Qed.

Lemma blocks_tags (segments : list AudioSegment)
      (outcomes : list (Transcription * Refinement)) (s s' : State) :
  openingTags s' = openingTags s -> closingTags s' = closingTags s ->
  blocks segments outcomes s' = blocks segments outcomes s.
Proof.
  intros Ho Hc. revert outcomes.
  induction segments as [|g segments IH]; intros [|o outcomes]; try reflexivity.
  cbn [blocks]. rewrite IH. destruct (transcribed (fst o)); [|reflexivity].
  rewrite (segmentBlock_tags _ _ s s' Ho Hc). reflexivity.
Qed.

Lemma finish_released (s : State) (job : Job) :
  inflight s = [job] -> released (finish 0 s) /\ drainView (finish 0 s) = drainView s.
Proof.
  intros Hjobs. unfold released, drainView, finish, processNextSegment_finally.
  cbv zeta. fields. rewrite Hjobs. cbn [delete list_delete].
  destruct (processingQueue s) eqn:Hq; fields; rewrite ?Hq; repeat split;
    try reflexivity; intros; first [congruence | discriminate].
Qed.

Lemma getPolishedNote_begin_drain (s : State) (segment : AudioSegment) :
  transcribing s segment ->
  (refining (getPolishedNote_begin 0 s) segment \/ released (getPolishedNote_begin 0 s))
  /\ drainView (getPolishedNote_begin 0 s) = drainView s.
Proof.
  intros [Hjobs Hp]. unfold getPolishedNote_begin.
  destruct (negb _).
  - destruct (finish_released s _ Hjobs) as [Hr Hv]. split; [right; exact Hr|exact Hv].
  - cbv zeta. fields. rewrite Hjobs. cbn [lookup list_lookup job_segment].
    split; [left|reflexivity].
    unfold refining. fields. split; [reflexivity|exact Hp].
Qed.

Lemma transcriptionDone_drain (s : State) (segment : AudioSegment) (t : Transcription) :
  transcribing s segment ->
  (refining (step (TranscriptionDone 0 t) s) segment
   \/ released (step (TranscriptionDone 0 t) s))
  /\ drainView (step (TranscriptionDone 0 t) s)
     = (accumulatedTranscription s
          ++ match transcribed t with
             | Some text => segmentBlock (segmentNumber segment) text s
             | None => []
             end,
        openingTags s, closingTags s, processingQueue s).
Proof.
  intros [Hjobs Hp]. cbn [App.step]. unfold transcriptionDone.
  rewrite Hjobs. cbn [lookup list_lookup].
  assert (Hfail : (refining (finish 0 s) segment \/ released (finish 0 s))
                  /\ drainView (finish 0 s)
                     = (accumulatedTranscription s ++ [], openingTags s, closingTags s,
                        processingQueue s)).
  { destruct (finish_released s _ Hjobs) as [Hr Hv].
    rewrite app_nil_r. split; [right; exact Hr|exact Hv]. }
  destruct t as [| | |[text|]]; try exact Hfail.
  cbn [transcribed]. destruct (truthy text); [|exact Hfail].
  unfold getSegmentTranscription_text. cbv zeta.
  match goal with
  | |- context [getPolishedNote_begin 0 ?x] => set (s1 := x)
  end.
  assert (H1 : transcribing s1 segment).
  { unfold transcribing, s1.
    rewrite (set_note_rawTranscription_other inflight) by other.
    rewrite (updateTranscriptionDisplay_other inflight) by other.
    rewrite (set_note_rawTranscription_other isProcessingSegment) by other.
    rewrite (updateTranscriptionDisplay_other isProcessingSegment) by other.
    split; [exact Hjobs|exact Hp]. }
  destruct (getPolishedNote_begin_drain s1 segment H1) as [Hphase Hv].
  split; [exact Hphase|]. rewrite Hv. unfold drainView, s1.
  rewrite !(set_note_rawTranscription_other accumulatedTranscription) by other.
  rewrite !(updateTranscriptionDisplay_other accumulatedTranscription) by other.
  rewrite (set_note_rawTranscription_other openingTags) by other.
  rewrite (updateTranscriptionDisplay_other openingTags) by other.
  rewrite (set_note_rawTranscription_other closingTags) by other.
  rewrite (updateTranscriptionDisplay_other closingTags) by other.
  rewrite (set_note_rawTranscription_other processingQueue) by other.
  rewrite (updateTranscriptionDisplay_other processingQueue) by other.
  reflexivity.
Qed.

Lemma refinementDone_drain (s : State) (segment : AudioSegment) (r : Refinement) :
  refining s segment \/ released s ->
  released (step (RefinementDone 0 r) s)
  /\ drainView (step (RefinementDone 0 r) s) = drainView s.
Proof.
  cbn [App.step]. unfold refinementDone. intros [[Hjobs Hp]|Hrel].
  - rewrite Hjobs. cbn [lookup list_lookup]. cbv zeta.
    match goal with |- context [finish 0 ?x] => set (s1 := x) end.
    assert (H1 : inflight s1 = inflight s /\ drainView s1 = drainView s).
    { unfold s1, drainView. destruct r as [|[text|]]; try (split; reflexivity).
      destruct (truthy text); [|split; reflexivity].
      rewrite (getPolishedNote_text_other inflight) by other.
      rewrite (getPolishedNote_text_other accumulatedTranscription) by other.
      rewrite (getPolishedNote_text_other openingTags) by other.
      rewrite (getPolishedNote_text_other closingTags) by other.
      rewrite (getPolishedNote_text_other processingQueue) by other.
      split; reflexivity. }
    destruct H1 as [Hj Hv].
    destruct (finish_released s1 _ (eq_trans Hj Hjobs)) as [Hr Hv'].
    split; [exact Hr|]. rewrite Hv'. exact Hv.
  - destruct Hrel as (Hjobs & Hrest). rewrite Hjobs. cbn [lookup list_lookup].
    split; [|reflexivity]. split; assumption.
Qed.

Lemma drainTimer_drain (s : State) :
  released s ->
  Forall (fun g => size (blob g) <> 0%nat) (processingQueue s) ->
  match processingQueue s with
  | [] => released (step DrainTimer s)
          /\ drainView (step DrainTimer s) = drainView s
  | segment :: rest =>
      transcribing (step DrainTimer s) segment
      /\ drainView (step DrainTimer s)
         = (accumulatedTranscription s, openingTags s, closingTags s, rest)
  end.
Proof.
  intros (Hjobs & Hp & Htimer) Hblobs. cbn [App.step].
  destruct (processingQueue s) as [|segment rest] eqn:Hq.
  - destruct (drainTimers s) as [|n].
    + split; [|reflexivity].
      unfold released. rewrite Hq. repeat split; try assumption. congruence.
    + unfold processNextSegment. fields. rewrite Hp, Hq.
      split; [|reflexivity].
      unfold released. fields. rewrite Hq. repeat split; try assumption. congruence.
  - destruct (drainTimers s) as [|n]; [exfalso; apply Htimer; [discriminate|reflexivity]|].
    unfold processNextSegment. fields. rewrite Hp, Hq. cbv zeta.
    unfold processAudioSegment_begin.
    apply Forall_cons_iff in Hblobs as [Hsize _].
    destruct (Nat.eqb_spec (size (blob segment)) 0); [contradiction|].
    unfold transcribing, drainView. fields. rewrite Hjobs. repeat split.
Qed.

Lemma processNextSegment_drain (s : State) :
  inflight s = [] -> isProcessingSegment s = false ->
  Forall (fun g => size (blob g) <> 0%nat) (processingQueue s) ->
  match processingQueue s with
  | [] => processNextSegment s = s
  | segment :: rest =>
      transcribing (processNextSegment s) segment
      /\ drainView (processNextSegment s)
         = (accumulatedTranscription s, openingTags s, closingTags s, rest)
  end.
Proof.
  intros Hjobs Hp Hblobs. unfold processNextSegment. rewrite Hp.
  destruct (processingQueue s) as [|segment rest] eqn:Hq; [reflexivity|].
  cbv zeta. unfold processAudioSegment_begin.
  apply Forall_cons_iff in Hblobs as [Hsize _].
  destruct (Nat.eqb_spec (size (blob segment)) 0); [contradiction|].
  unfold transcribing, drainView. fields. rewrite Hjobs. repeat split.
Qed.

Lemma drain_from (rest : list AudioSegment) :
  forall (outcomes : list (Transcription * Refinement)) (s : State) (segment : AudioSegment),
    transcribing s segment ->
    processingQueue s = rest ->
    Forall (fun g => size (blob g) <> 0%nat) rest ->
    List.length outcomes = S (List.length rest) ->
    released (run (drainEvents outcomes) s)
    /\ drainView (run (drainEvents outcomes) s)
       = (accumulatedTranscription s ++ blocks (segment :: rest) outcomes s,
          openingTags s, closingTags s, []).
Proof.
  induction rest as [|next rest IH]; intros [|[t r] outcomes] s segment Hs Hq Hblobs Hlen;
    try discriminate; cbn [drainEvents flat_map app App.run fst snd blocks].
  - destruct outcomes; [|discriminate]. cbn [flat_map App.run blocks].
    destruct (transcriptionDone_drain s segment t Hs) as [Hphase Hv].
    set (s1 := step (TranscriptionDone 0 t) s) in *.
    destruct (refinementDone_drain s1 segment r Hphase) as [Hrel Hv2].
    set (s2 := step (RefinementDone 0 r) s1) in *.
    assert (Hq2 : processingQueue s2 = []).
    { transitivity (snd (drainView s2)); [reflexivity|]. rewrite Hv2, Hv. exact Hq. }
    pose proof (drainTimer_drain s2 Hrel) as Hd. rewrite Hq2 in Hd.
    destruct (Hd Hblobs) as [Hrel3 Hv3].
    split; [exact Hrel3|]. rewrite Hv3, Hv2, Hv, Hq, app_nil_r. reflexivity.
  - destruct (transcriptionDone_drain s segment t Hs) as [Hphase Hv].
    set (s1 := step (TranscriptionDone 0 t) s) in *.
    destruct (refinementDone_drain s1 segment r Hphase) as [Hrel Hv2].
    set (s2 := step (RefinementDone 0 r) s1) in *.
    assert (Hq2 : processingQueue s2 = next :: rest).
    { transitivity (snd (drainView s2)); [reflexivity|]. rewrite Hv2, Hv. exact Hq. }
    pose proof (drainTimer_drain s2 Hrel) as Hd. rewrite Hq2 in Hd.
    destruct (Hd Hblobs) as [Hs3 Hv3].
    set (s3 := step DrainTimer s2) in *.
    assert (Hview : drainView s3
                    = (accumulatedTranscription s
                         ++ match transcribed t with
                            | Some text => segmentBlock (segmentNumber segment) text s
                            | None => []
                            end, openingTags s, closingTags s, rest)).
    { rewrite Hv3.
      change (accumulatedTranscription s2) with (fst (fst (fst (drainView s2)))).
      change (openingTags s2) with (snd (fst (fst (drainView s2)))).
      change (closingTags s2) with (snd (fst (drainView s2))).
      rewrite Hv2, Hv. reflexivity. }
    unfold drainView in Hview. injection Hview as Hacc Ho Hc Hq3.
    apply Forall_cons_iff in Hblobs as [_ Hblobs'].
    destruct (IH outcomes s3 next Hs3 Hq3 Hblobs' ltac:(cbn in Hlen; lia)) as [Hrel' Hv'].
    fold (drainEvents outcomes).
    split; [exact Hrel'|]. rewrite Hv', Hacc, Ho, Hc.
    rewrite (blocks_tags _ _ s s3 Ho Hc), <- app_assoc. reflexivity.
Qed.

(** C6: when the queue is drained, a segment whose processing fails (the
    conversion or the call throws, or the transcription is empty) is
    dropped and the drain goes on: the accumulated raw transcript ends up
    extended with exactly the blocks of the segments whose transcription
    succeeded, in queue order, and the queue ends empty and idle. *)
Theorem C6_failure_isolation (s : State) (segments : list AudioSegment)
        (outcomes : list (Transcription * Refinement)) :
  isProcessingSegment s = false ->
  inflight s = [] ->
  processingQueue s = segments ->
  Forall (fun g => size (blob g) <> 0%nat) segments ->
  List.length outcomes = List.length segments ->
  accumulatedTranscription (run (drainEvents outcomes) (processNextSegment s))
  = accumulatedTranscription s ++ blocks segments outcomes s
  /\ processingQueue (run (drainEvents outcomes) (processNextSegment s)) = []
  /\ inflight (run (drainEvents outcomes) (processNextSegment s)) = []
  /\ isProcessingSegment (run (drainEvents outcomes) (processNextSegment s)) = false.
Proof.
  intros Hp Hjobs Hq Hblobs Hlen.
  pose proof (processNextSegment_drain s Hjobs Hp) as Hstart.
  rewrite Hq in Hstart. specialize (Hstart Hblobs).
  destruct segments as [|segment rest].
  - destruct outcomes; [|discriminate]. rewrite Hstart.
    cbn [drainEvents flat_map App.run blocks]. rewrite app_nil_r.
    repeat split; assumption.
  - destruct Hstart as [Hs1 Hv1].
    set (s1 := processNextSegment s) in *.
    unfold drainView in Hv1. injection Hv1 as Hacc Ho Hc Hq1.
    apply Forall_cons_iff in Hblobs as [_ Hblobs'].
    destruct (drain_from rest outcomes s1 segment Hs1 Hq1 Hblobs' Hlen) as [Hrel Hv].
    set (s' := run (drainEvents outcomes) s1) in *.
    destruct Hrel as (Hjobs' & Hp' & _).
    change (accumulatedTranscription s') with (fst (fst (fst (drainView s')))).
    change (processingQueue s') with (snd (drainView s')).
    rewrite Hv. cbn [fst snd].
    rewrite Hacc, (blocks_tags _ _ s s1 Ho Hc).
    repeat split; assumption.
Qed.

(** *** The segments of a session *)

Lemma tally_view (before : list AudioSegment) (n : nat) (s s' : State) :
  tallyView s' = tallyView s -> tally before n s -> tally before n s'.
Proof.
  unfold tallyView, tally. intros [= H1 H2 H3]. rewrite H1, H2, H3. trivial.
Qed.

Lemma processNextSegment_tally (s : State) :
  tallyView (processNextSegment s) = tallyView s.
Proof.
  unfold processNextSegment, processAudioSegment_begin, processNextSegment_finally.
  frame.
Qed.

Lemma finish_tally (i : nat) (s : State) : tallyView (finish i s) = tallyView s.
Proof. apply finish_other; other. Qed.

Lemma getPolishedNote_begin_other {A : Type} (p : State -> A) (i : nat) (s : State) :
  (forall v s, p (set_isProcessingSegment v s) = p s) ->
  (forall v s, p (set_drainTimers v s) = p s) ->
  (forall v s, p (set_inflight v s) = p s) ->
  (forall v s, p (set_requests v s) = p s) ->
  p (getPolishedNote_begin i s) = p s.
Proof.
  intros H1 H2 H3 H4. unfold getPolishedNote_begin.
  destruct (negb _); [apply finish_other; assumption|].
  cbv zeta. destruct (_ !! i); [rewrite H3|]; apply H4.
Qed.

Lemma transcriptionDone_tally (before : list AudioSegment) (n : nat) (i : nat)
      (r : Transcription) (s : State) :
  tally before n s -> tally before n (transcriptionDone textOfHtml i r s).
Proof.
  intros H. unfold transcriptionDone.
  destruct (inflight s !! i) as [[segment []]|]; try exact H.
  destruct r as [| | |[text|]];
    try exact (tally_view before n s _ (finish_tally i s) H).
  destruct (truthy text); [|exact (tally_view before n s _ (finish_tally i s) H)].
  unfold getSegmentTranscription_text. cbv zeta.
  destruct H as (Hcount & segments & Hem & Hlen & Hnum).
  unfold tally.
  rewrite !(getPolishedNote_begin_other _ i) by other.
  rewrite !set_note_rawTranscription_other by other.
  rewrite !updateTranscriptionDisplay_other by other.
  fields. split; [lia|]. exists segments. auto.
Qed.

Lemma refinementDone_tally (i : nat) (r : Refinement) (s : State) :
  tallyView (refinementDone i r s) = tallyView s.
Proof.
  unfold refinementDone.
  destruct (inflight s !! i) as [[segment []]|]; try reflexivity.
  cbv zeta. rewrite finish_tally.
  destruct r as [|[text|]]; try reflexivity.
  destruct (truthy text); [|reflexivity].
  apply getPolishedNote_text_other; other.
Qed.

(** A recorder stop that flushes data emits one segment, numbered one more
    than [segmentCount]. *)
Lemma onstop_emits (type : Slot) (now : Z) (s : State) :
  chunksOf type s <> [] ->
  tallyView (onstop type now s)
  = (emitted s ++ [{| blob := concat (chunksOf type s);
                      startTime := segmentStartTime s;
                      endTime := now;
                      segmentNumber := (segmentCount s + 1)%nat |}],
     stopTasks s, segmentCount s).
Proof.
  intros Hchunks. unfold onstop.
  destruct (chunksOf type s) as [|chunk chunks] eqn:E; [contradiction|].
  cbn [List.length Nat.ltb Nat.leb]. cbv zeta.
  match goal with
  | |- tallyView (set_chunks _ _ (processNextSegment ?x)) = _ =>
      transitivity (tallyView (processNextSegment x)); [destruct type; reflexivity|]
  end.
  rewrite processNextSegment_tally. reflexivity.
Qed.

Lemma ondataavailable_chunks (type : Slot) (data : Blob) (s : State) :
  (0 <? size data)%nat = true ->
  chunksOf type (ondataavailable type data s) = chunksOf type s ++ [data]
  /\ tallyView (ondataavailable type data s) = tallyView s
  /\ segmentStartTime (ondataavailable type data s) = segmentStartTime s.
Proof.
  intros Hdata. unfold ondataavailable. rewrite Hdata. destruct type; repeat split.
Qed.

Lemma stopTask_tally (before : list AudioSegment) (n : nat) (data : Blob) (now : Z)
      (s : State) :
  (0 <? size data)%nat = true ->
  tally before n s -> tally before n (step (RecorderStopTask data now) s).
Proof.
  intros Hdata H. cbn [App.step].
  destruct (stopTasks s) as [|type rest] eqn:Htasks; [exact H|].
  destruct (ondataavailable_chunks type data (set_stopTasks rest s) Hdata)
    as (Hchunks & Hview & _).
  assert (Hne : chunksOf type (ondataavailable type data (set_stopTasks rest s)) <> []).
  { rewrite Hchunks. intros E. apply app_eq_nil in E as [_ E]. discriminate E. }
  pose proof (onstop_emits type now _ Hne) as E.
  unfold tallyView in Hview. injection Hview as Hem Hst Hcnt.
  rewrite Hem, Hst, Hcnt in E. clear Hem Hst Hcnt. fields_in E.
  unfold tallyView in E. injection E as Hem Hst Hcnt.
  destruct H as (Hcount & segments & Hbefore & Hlen & Hnum).
  unfold tally. rewrite Hem, Hst, Hcnt. split; [exact Hcount|].
  eexists (segments ++ [_]). rewrite Hbefore, <- app_assoc. split; [reflexivity|].
  rewrite Htasks in Hlen. rewrite length_app. cbn [List.length] in *.
  split; [lia|]. apply Forall_app. split; [exact Hnum|].
  constructor; [cbn [segmentNumber]; lia|constructor].
Qed.

Lemma segmentTimerCallback_emitted (now : Z) (s : State) :
  (emitted (segmentTimerCallback now s), segmentCount (segmentTimerCallback now s))
  = (emitted s, segmentCount s).
Proof.
  unfold segmentTimerCallback, switchRecorders, stopIfRecording, recorder_start,
    recorder_stop, set_recorder.
  frame.
Qed.

(** A click that starts a session leaves [segmentCount] at 1. *)
Lemma start_session (c : Capture) (now : Z) (s : State) :
  isRecording s = false -> stopTasks s = [] ->
  isRecording (step (ClickRecord c now) s) = true ->
  recordingPhase (emitted s) 0 (step (ClickRecord c now) s).
Proof.
  unfold recordingPhase, recordersConsistent, recordingOn, tally, capturing.
  destruct_state s. cbn [isRecording stopTasks emitted App.step].
  intros -> -> Hstarted.
  destruct c as [|[[[|n']]|] [[|n'']]]; vm_compute in Hstarted; try discriminate Hstarted.
  all: split; [vm_compute; repeat split; discriminate|].
  all: split; [vm_compute; split; reflexivity|].
  all: split; [vm_compute; lia|].
  all: exists []; split; [vm_compute; symmetry; apply app_nil_r|].
  all: split; [reflexivity|constructor].
Qed.

Lemma timer_recording (before : list AudioSegment) (n : nat) (now : Z) (s : State) :
  recordingPhase before n s -> recordingPhase before (S n) (step (SegmentTimer now) s).
Proof.
  intros (Hrec & Hon & Hcount & segments & Hem & Hlen & Hnum).
  destruct (switch_on_timer now s Hrec Hon) as (_ & Htasks & _ & _ & Hon').
  split; [apply step_consistent; [reflexivity|exact Hrec]|]. split; [exact Hon'|].
  assert (E : (emitted (step (SegmentTimer now) s), segmentCount (step (SegmentTimer now) s))
              = (emitted s, segmentCount s)).
  { cbn [App.step]. destruct (segmentIntervalId s); [|reflexivity].
    apply segmentTimerCallback_emitted. }
  injection E as Hem' Hcnt'.
  unfold tally. cbn [App.step] in Hem', Hcnt', Htasks |- *. rewrite Hem', Hcnt', Htasks. split; [exact Hcount|].
  exists segments. rewrite length_app. cbn [List.length].
  split; [exact Hem|]. split; [lia|exact Hnum].
Qed.

(** Apart from the segment timer, the callbacks of a session leave the
    recorders alone and keep the tally. *)
Lemma quiet_step (before : list AudioSegment) (n : nat) (e : Event) (s : State) :
  whileRecording e = true -> intervals [e] = 0%nat ->
  recorderView (step e s) = recorderView s
  /\ (tally before n s -> tally before n (step e s)).
Proof.
  destruct e as [c now| |c now|now|now|data now|i r|i r| |]; cbn [whileRecording intervals];
    intros He Hquiet; try discriminate He; try discriminate Hquiet.
  - split; [|apply stopTask_tally, He].
    cbn [App.step]. destruct (stopTasks s) as [|type rest]; [reflexivity|].
    rewrite onstop_view, ondataavailable_view. reflexivity.
  - split; [apply transcriptionDone_view|apply transcriptionDone_tally].
  - split; [apply refinementDone_view|].
    apply tally_view, refinementDone_tally.
  - cbn [App.step]. destruct (drainTimers s) as [|timers]; [split; trivial|].
    split; [rewrite processNextSegment_view; reflexivity|].
    apply tally_view. rewrite processNextSegment_tally. reflexivity.
Qed.

Lemma intervals_cons (e : Event) (events : list Event) :
  intervals (e :: events) = (intervals [e] + intervals events)%nat.
Proof. destruct e; reflexivity. Qed.

Lemma recordingOn_view (s s' : State) :
  recorderView s' = recorderView s -> recordingOn s -> recordingOn s'.
Proof. unfold recorderView, recordingOn. intros [= _ _ _ H1 H2]. rewrite H1, H2. trivial. Qed.

Lemma run_recording (before : list AudioSegment) (events : list Event) :
  forallb whileRecording events = true ->
  forall (n : nat) (s : State),
    recordingPhase before n s ->
    recordingPhase before (n + intervals events) (run events s).
Proof.
  induction events as [|e events IH]; intros Hevents n s H.
  - cbn [intervals App.run]. rewrite Nat.add_0_r. exact H.
  - cbn [forallb] in Hevents. apply andb_true_iff in Hevents as [He Hevents].
    cbn [App.run]. rewrite intervals_cons, Nat.add_assoc.
    apply (IH Hevents). clear IH Hevents.
    destruct (intervals [e]) as [|k] eqn:Hk.
    + rewrite Nat.add_0_r.
      destruct (quiet_step before n e s He Hk) as [Hview Htally].
      destruct H as (Hrec & Hon & Ht).
      split; [exact (recordersConsistent_view _ _ Hview Hrec)|].
      split; [exact (recordingOn_view _ _ Hview Hon)|exact (Htally Ht)].
    + destruct e as [c now| |c now|now|now|data now|i r|i r| |]; try discriminate Hk.
      injection Hk as <-. rewrite Nat.add_1_r. apply timer_recording, H.
Qed.

(** The click that stops the session requests the stop of the active
    recorder. *)
Lemma stop_session (before : list AudioSegment) (n : nat) (c : Capture) (now : Z)
      (s : State) :
  recordingPhase before n s -> stoppingPhase before (S n) (step (ClickRecord c now) s).
Proof.
  intros (Hrec & Hon & Hcount & segments & Hem & Hlen & Hnum).
  assert (E : isContinuousMode (step (ClickRecord c now) s) = false
              /\ ~ capturing primary (step (ClickRecord c now) s)
              /\ ~ capturing secondary (step (ClickRecord c now) s)
              /\ tallyView (step (ClickRecord c now) s)
                 = (emitted s, stopTasks s ++ [activeRecorder s], segmentCount s)).
  { clear Hcount Hem Hlen Hnum. revert Hrec Hon.
    unfold recordersConsistent, recordingOn, capturing.
    destruct_state s. cbn [isRecording isContinuousMode].
    intros H [-> ->].
    destruct H as (H1 & H2 & H3). destruct (H3 eq_refl) as [H4 H5]. clear H3.
    destruct act, pR as [[]|], sR as [[]|]; vm_compute in H1, H2, H4;
      try (exfalso; congruence).
    all: vm_compute; repeat split; discriminate. }
  destruct E as (Hcont & Hp & Hs & Hview).
  split; [exact Hcont|]. split; [exact Hp|]. split; [exact Hs|].
  unfold tallyView in Hview. injection Hview as Hem' Htasks Hcnt.
  unfold tally. cbn [App.step]. rewrite Hem', Htasks, Hcnt. split; [exact Hcount|].
  exists segments. rewrite length_app. cbn [List.length].
  split; [exact Hem|]. split; [lia|exact Hnum].
Qed.

Lemma stopping_view (before : list AudioSegment) (n : nat) (s s' : State) :
  recorderView s' = recorderView s -> tally before n s' ->
  stoppingPhase before n s -> stoppingPhase before n s'.
Proof.
  unfold stoppingPhase, capturing, recorderView.
  intros [= H1 H2 _ _ H5 _] Ht (Hcont & Hp & Hs & _). cbn [recorderOf] in *.
  rewrite H1, H2, H5. auto.
Qed.

Lemma stopWaitOver_stopping (before : list AudioSegment) (n : nat) (s : State) :
  stoppingPhase before n s -> stoppingPhase before n (step StopWaitOver s).
Proof.
  intros H. cbn [App.step]. destruct (stopsWaiting s) as [|remaining] eqn:Hw; [exact H|].
  destruct H as (Hcont & Hp & Hs & Ht).
  assert (E : isContinuousMode (stopContinuousRecording_end (set_stopsWaiting remaining s)) = false
              /\ ~ capturing primary (stopContinuousRecording_end (set_stopsWaiting remaining s))
              /\ ~ capturing secondary (stopContinuousRecording_end (set_stopsWaiting remaining s))
              /\ tallyView (stopContinuousRecording_end (set_stopsWaiting remaining s))
                 = tallyView s).
  { clear Ht Hw. revert Hcont Hp Hs. unfold capturing.
    destruct_state s. cbn [isContinuousMode recorderOf primaryRecorder secondaryRecorder].
    intros -> Hp Hs.
    destruct pR as [[]|], sR as [[]|]; try (exfalso; apply Hp; reflexivity);
      try (exfalso; apply Hs; reflexivity).
    all: vm_compute; repeat split; discriminate. }
  destruct E as (Hcont' & Hp' & Hs' & Hview).
  split; [exact Hcont'|]. split; [exact Hp'|]. split; [exact Hs'|].
  exact (tally_view _ _ _ _ Hview Ht).
Qed.

Lemma run_stopping (before : list AudioSegment) (n : nat) (events : list Event) :
  forallb whileStopping events = true ->
  forall s : State, stoppingPhase before n s -> stoppingPhase before n (run events s).
Proof.
  induction events as [|e events IH]; intros Hevents s H; [exact H|].
  cbn [forallb] in Hevents. apply andb_true_iff in Hevents as [He Hevents].
  cbn [App.run]. apply (IH Hevents). clear IH Hevents.
  destruct e as [c now| |c now|now|now|data now|i r|i r| |]; try discriminate He.
  - destruct H as (Hcont & Hrest). cbn [App.step].
    unfold segmentTimerCallback. rewrite Hcont. cbn [andb].
    destruct (segmentIntervalId s); split; assumption.
  - destruct (quiet_step before n _ s He eq_refl) as [Hview Ht].
    apply (stopping_view before n s _ Hview); [apply Ht, H|exact H].
  - destruct (quiet_step before n _ s He eq_refl) as [Hview Ht].
    apply (stopping_view before n s _ Hview); [apply Ht, H|exact H].
  - destruct (quiet_step before n _ s He eq_refl) as [Hview Ht].
    apply (stopping_view before n s _ Hview); [apply Ht, H|exact H].
  - destruct (quiet_step before n _ s He eq_refl) as [Hview Ht].
    apply (stopping_view before n s _ Hview); [apply Ht, H|exact H].
  - apply stopWaitOver_stopping, H.
Qed.

(** A session from the click that starts it to the last of its recorder
    stops: with [N] intervals elapsed it emits [N + 1] segments, each
    numbered 2 or more. *)
Lemma session_segments (capture stop : Capture) (t0 t1 : Z) (s : State)
      (recordingEvents stoppingEvents : list Event) :
  isRecording s = false -> stopTasks s = [] ->
  isRecording (step (ClickRecord capture t0) s) = true ->
  forallb whileRecording recordingEvents = true ->
  forallb whileStopping stoppingEvents = true ->
  stopTasks (run (ClickRecord capture t0
                  :: recordingEvents ++ ClickRecord stop t1 :: stoppingEvents) s) = [] ->
  exists segments,
    emitted (run (ClickRecord capture t0
                  :: recordingEvents ++ ClickRecord stop t1 :: stoppingEvents) s)
    = emitted s ++ segments
    /\ List.length segments = S (intervals recordingEvents)
    /\ Forall (fun segment => (2 <= segmentNumber segment)%nat) segments.
Proof.
  intros Hidle Htasks Hstarted Hrecording Hstopping.
  cbn [App.run]. rewrite run_app. cbn [App.run].
  pose proof (start_session capture t0 s Hidle Htasks Hstarted) as H.
  apply (run_recording _ recordingEvents Hrecording) in H.
  apply (stop_session _ _ stop t1) in H.
  apply (run_stopping _ _ stoppingEvents Hstopping) in H.
  destruct H as (_ & _ & _ & _ & segments & Hem & Hlen & Hnum).
  intros Hflushed. rewrite Hflushed in Hlen. cbn [List.length] in Hlen.
  exists segments. split; [exact Hem|]. split; [lia|exact Hnum].
Qed.

(** *** The title of a session *)

Lemma numbered_view (s s' : State) :
  numberView s' = numberView s -> numbered s -> numbered s'.
Proof.
  unfold numberView, numbered. intros [= H1 H2 H3]. rewrite H1, H2, H3. trivial.
Qed.

Lemma finish_numberView (i : nat) (s : State) :
  numberView (finish i s) = (segmentCount s, processingQueue s, delete i (inflight s)).
Proof. unfold finish, processNextSegment_finally. frame. Qed.

Lemma finish_numbered (i : nat) (s : State) : numbered s -> numbered (finish i s).
Proof.
  intros (Hcount & Hqueue & Hjobs).
  pose proof (finish_numberView i s) as E. unfold numberView in E.
  injection E as E1 E2 E3. unfold numbered. rewrite E1, E2, E3.
  split; [exact Hcount|]. split; [exact Hqueue|]. apply Forall_delete, Hjobs.
Qed.

Lemma processNextSegment_numbered (s : State) :
  numbered s -> numbered (processNextSegment s).
Proof.
  intros H. unfold processNextSegment.
  destruct (isProcessingSegment s); [exact H|].
  destruct (processingQueue s) as [|segment rest] eqn:Hq; [exact H|].
  destruct H as (Hcount & Hqueue & Hjobs). rewrite Hq in Hqueue.
  apply Forall_cons in Hqueue as [Hsegment Hrest].
  cbv zeta. unfold processAudioSegment_begin. destruct (_ =? 0)%nat.
  - unfold numbered. rewrite !finally_other by other. fields. auto.
  - unfold numbered. fields. split; [exact Hcount|]. split; [exact Hrest|].
    apply Forall_app. split; [exact Hjobs|].
    constructor; [|constructor]. cbn [job_segment job_phase].
    split; [exact Hsegment|discriminate].
Qed.

Lemma processNextSegment_titleView (s : State) :
  titleView (processNextSegment s) = titleView s.
Proof.
  unfold processNextSegment, processAudioSegment_begin, processNextSegment_finally.
  frame.
Qed.

Lemma getPolishedNote_begin_numbered (i : nat) (s : State) :
  (2 <= segmentCount s)%nat -> numbered s -> numbered (getPolishedNote_begin i s).
Proof.
  intros Hcount H. unfold getPolishedNote_begin.
  destruct (negb _); [apply finish_numbered, H|].
  cbv zeta. fields. destruct (inflight s !! i) as [job|] eqn:Hi; [|exact H].
  destruct H as (_ & Hqueue & Hjobs). unfold numbered. fields.
  split; [lia|]. split; [exact Hqueue|].
  apply Forall_insert; [exact Hjobs|]. cbn [job_segment job_phase].
  split; [|intros _; exact Hcount].
  exact (proj1 (Forall_lookup_1 _ _ _ _ Hjobs Hi)).
Qed.

Lemma transcriptionDone_numbered (i : nat) (r : Transcription) (s : State) :
  numbered s -> numbered (transcriptionDone textOfHtml i r s).
Proof.
  intros H. unfold transcriptionDone.
  destruct (inflight s !! i) as [[segment []]|] eqn:Hi; try exact H.
  destruct r as [| | |[text|]]; try apply finish_numbered, H.
  destruct (truthy text); [|apply finish_numbered, H].
  destruct H as (Hcount & Hqueue & Hjobs).
  pose proof (proj1 (Forall_lookup_1 _ _ _ _ Hjobs Hi)) as Hsegment.
  cbn [job_segment] in Hsegment.
  unfold getSegmentTranscription_text. cbv zeta.
  apply getPolishedNote_begin_numbered.
  - rewrite set_note_rawTranscription_other by other.
    rewrite updateTranscriptionDisplay_other by other.
    fields. lia.
  - unfold numbered.
    rewrite !set_note_rawTranscription_other by other.
    rewrite !updateTranscriptionDisplay_other by other.
    fields. split; [lia|]. split; [exact Hqueue|].
    refine (Forall_impl _ _ _ Hjobs _). intros job [Hn _]. split; [exact Hn|lia].
Qed.

Lemma transcriptionDone_titleView (i : nat) (r : Transcription) (s : State) :
  titleView (transcriptionDone textOfHtml i r s) = titleView s.
Proof.
  unfold transcriptionDone.
  destruct (inflight s !! i) as [[segment []]|]; try reflexivity.
  destruct r as [| | |[text|]]; try (apply finish_other; other).
  destruct (truthy text); [|apply finish_other; other].
  unfold getSegmentTranscription_text. cbv zeta.
  rewrite getPolishedNote_begin_other by other.
  rewrite set_note_rawTranscription_other by other.
  rewrite updateTranscriptionDisplay_other by other.
  reflexivity.
Qed.

(** With the session's numbering the guard [segmentCount === 1] of
    [getPolishedNote] fails: no refinement derives a title. *)
Lemma refinementDone_numbered (i : nat) (r : Refinement) (s : State) :
  numbered s ->
  numbered (refinementDone i r s) /\ titleView (refinementDone i r s) = titleView s.
Proof.
  intros H. unfold refinementDone.
  destruct (inflight s !! i) as [[segment []]|] eqn:Hi; try (split; [exact H|reflexivity]).
  cbv zeta.
  assert (Hcount : (2 <= segmentCount s)%nat).
  { destruct H as (_ & _ & Hjobs).
    exact (proj2 (Forall_lookup_1 _ _ _ _ Hjobs Hi) eq_refl). }
  assert (E : forall text,
             numberView (getPolishedNote_text text s) = numberView s
             /\ titleView (getPolishedNote_text text s) = titleView s).
  { intros text. unfold getPolishedNote_text. cbv zeta. fields.
    destruct (segmentCount s =? 1)%nat eqn:Hone; [apply Nat.eqb_eq in Hone; lia|].
    split; rewrite set_note_polishedNote_other by other; reflexivity. }
  destruct r as [|[text|]]; try (split; [apply finish_numbered, H|apply finish_other; other]).
  destruct (truthy text); [|split; [apply finish_numbered, H|apply finish_other; other]].
  destruct (E text) as [En Et]. split.
  - apply finish_numbered. exact (numbered_view s _ En H).
  - rewrite finish_other by other. exact Et.
Qed.

Lemma onstop_numbered (type : Slot) (now : Z) (s : State) :
  numbered s ->
  numbered (onstop type now s) /\ titleView (onstop type now s) = titleView s.
Proof.
  intros H. unfold onstop. destruct (0 <? _)%nat; [|split; [exact H|reflexivity]].
  cbv zeta.
  match goal with
  | |- numbered (set_chunks _ _ (processNextSegment ?x)) /\ _ =>
      assert (Hx : numbered x /\ titleView x = titleView s); [|set (s' := x) in *]
  end.
  { split; [|reflexivity]. destruct H as (Hcount & Hqueue & Hjobs).
    unfold numbered. fields. split; [exact Hcount|]. split; [|exact Hjobs].
    apply Forall_app. split; [exact Hqueue|].
    constructor; [cbn [segmentNumber]; lia|constructor]. }
  clearbody s'. destruct Hx as [Hn Ht]. split.
  - refine (numbered_view _ _ _ (processNextSegment_numbered _ Hn)).
    destruct type; reflexivity.
  - transitivity (titleView (processNextSegment s')); [destruct type; reflexivity|].
    rewrite processNextSegment_titleView. exact Ht.
Qed.

Lemma ondataavailable_numberView (type : Slot) (data : Blob) (s : State) :
  numberView (ondataavailable type data s) = numberView s
  /\ titleView (ondataavailable type data s) = titleView s.
Proof. unfold ondataavailable. destruct (0 <? _)%nat, type; split; reflexivity. Qed.

Lemma segmentTimerCallback_numberView (now : Z) (s : State) :
  numberView (segmentTimerCallback now s) = numberView s
  /\ titleView (segmentTimerCallback now s) = titleView s.
Proof.
  unfold segmentTimerCallback, switchRecorders, stopIfRecording, recorder_start,
    recorder_stop, set_recorder.
  split; frame.
Qed.

Lemma stopContinuousRecording_end_numberView (s : State) :
  numberView (stopContinuousRecording_end s) = numberView s
  /\ titleView (stopContinuousRecording_end s) = titleView s.
Proof.
  unfold stopContinuousRecording_end, cleanupStreams, stopDualRecording, stopLiveDisplay,
    cleanupAnimations, stopIfRecording, recorder_stop, set_recorder.
  split; frame.
Qed.

Lemma stopContinuousRecording_begin_numberView (s : State) :
  numberView (stopContinuousRecording_begin s) = numberView s
  /\ titleView (stopContinuousRecording_begin s) = titleView s.
Proof.
  unfold stopContinuousRecording_begin, stopIfRecording, recorder_stop, set_recorder,
    cleanupAnimations.
  split; frame.
Qed.

Lemma startContinuousRecording_numberView (c : Capture) (now : Z) (s : State) :
  numberView (startContinuousRecording c now s) = (1%nat, [], inflight s)
  /\ titleView (startContinuousRecording c now s) = titleView s.
Proof.
  unfold startContinuousRecording, startContinuousRecording_settled,
    startContinuousRecording_begin, andThen, setupStreams_settled, startDualRecording,
    andThen, recorder_start, setupDualMediaRecorders, displaced, setupSegmentTimer, handleRecordingError,
    setupFinalStream, setupAudioTags, cleanupStreams, stopLiveDisplay, cleanupAnimations,
    set_recorder.
  split; frame.
Qed.

(** The callbacks of a session keep its numbering and derive no title. *)
Lemma step_numbered (e : Event) (s : State) :
  whileStopping e = true -> numbered s ->
  numbered (step e s) /\ titleView (step e s) = titleView s.
Proof.
  intros He H.
  destruct e as [c now| |c now|now|now|data now|i r|i r| |]; try discriminate He; cbn [App.step].
  - destruct (segmentIntervalId s); [|split; [exact H|reflexivity]].
    destruct (segmentTimerCallback_numberView now s) as [En Et].
    split; [exact (numbered_view s _ En H)|exact Et].
  - destruct (stopTasks s) as [|type rest]; [split; [exact H|reflexivity]|].
    destruct (ondataavailable_numberView type data (set_stopTasks rest s)) as [En Et].
    destruct (onstop_numbered type now (ondataavailable type data (set_stopTasks rest s)))
      as [Hn Ht].
    + exact (numbered_view s _ En H).
    + split; [exact Hn|]. rewrite Ht. exact Et.
  - split; [apply transcriptionDone_numbered, H|apply transcriptionDone_titleView].
  - apply refinementDone_numbered, H.
  - destruct (drainTimers s) as [|timers]; [split; [exact H|reflexivity]|].
    split.
    + apply processNextSegment_numbered. exact (numbered_view s _ eq_refl H).
    + rewrite processNextSegment_titleView. reflexivity.
  - destruct (stopsWaiting s) as [|remaining]; [split; [exact H|reflexivity]|].
    destruct (stopContinuousRecording_end_numberView (set_stopsWaiting remaining s))
      as [En Et].
    split; [exact (numbered_view s _ En H)|exact Et].
Qed.

Lemma run_numbered (events : list Event) :
  forallb whileStopping events = true ->
  forall s : State,
    numbered s -> numbered (run events s) /\ titleView (run events s) = titleView s.
Proof.
  induction events as [|e events IH]; intros Hevents s H; [split; [exact H|reflexivity]|].
  cbn [forallb] in Hevents. apply andb_true_iff in Hevents as [He Hevents].
  cbn [App.run]. destruct (step_numbered e s He H) as [Hn Ht].
  destruct (IH Hevents _ Hn) as [Hn' Ht']. split; [exact Hn'|]. rewrite Ht'. exact Ht.
Qed.

Lemma whileRecording_whileStopping (events : list Event) :
  forallb whileRecording events = true -> forallb whileStopping events = true.
Proof.
  induction events as [|e events IH]; [reflexivity|]. cbn [forallb].
  intros H. apply andb_true_iff in H as [He Hevents].
  rewrite (IH Hevents), andb_true_r. destruct e; try exact He. discriminate He.
Qed.

(** A session that starts with no segment in processing derives no title,
    however many of its segments are refined: when the first refinement
    returns, [segmentCount] is 2 already. *)
Lemma session_title (capture stop : Capture) (t0 t1 : Z) (s : State)
      (recordingEvents stoppingEvents : list Event) :
  isRecording s = false -> stopTasks s = [] -> inflight s = [] ->
  isRecording (step (ClickRecord capture t0) s) = true ->
  forallb whileRecording recordingEvents = true ->
  forallb whileStopping stoppingEvents = true ->
  titleView (run (ClickRecord capture t0
                  :: recordingEvents ++ ClickRecord stop t1 :: stoppingEvents) s)
  = titleView s.
Proof.
  intros Hidle Htasks Hjobs Hstarted Hrecording Hstopping.
  cbn [App.run]. rewrite run_app. cbn [App.run].
  pose proof (start_session capture t0 s Hidle Htasks Hstarted) as Hphase.
  apply (run_recording _ recordingEvents Hrecording) in Hphase.
  destruct Hphase as (_ & [_ Hon] & _).
  set (s1 := step (ClickRecord capture t0) s) in *.
  assert (H1 : numbered s1 /\ titleView s1 = titleView s).
  { subst s1. cbn [App.step]. unfold toggleRecording. rewrite Hidle. cbn [negb].
    destruct (startContinuousRecording_numberView capture t0 s) as [En Et].
    split; [|exact Et]. unfold numberView in En. injection En as E1 E2 E3.
    unfold numbered. rewrite E1, E2, E3, Hjobs. repeat split; constructor. }
  clearbody s1. destruct H1 as [Hn1 Ht1].
  destruct (run_numbered recordingEvents (whileRecording_whileStopping _ Hrecording) s1 Hn1)
    as [Hn2 Ht2].
  set (s2 := run recordingEvents s1) in *. clearbody s2.
  assert (H3 : numbered (step (ClickRecord stop t1) s2)
               /\ titleView (step (ClickRecord stop t1) s2) = titleView s2).
  { cbn [App.step]. unfold toggleRecording. rewrite Hon. cbn [negb].
    destruct (stopContinuousRecording_begin_numberView s2) as [En Et].
    split; [exact (numbered_view s2 _ En Hn2)|exact Et]. }
  destruct H3 as [Hn3 Ht3].
  destruct (run_numbered stoppingEvents Hstopping _ Hn3) as [_ Ht4].
  rewrite Ht4, Ht3, Ht2. exact Ht1.
Qed.

(** *** Streams, starts and resets *)

(** X1: [setupStreams] returns exactly when the capture is audible.  It then
    holds the captured streams and a final stream, and the tags name the
    sources that carry audio, the tab before the microphone; otherwise it
    throws and no final stream is set. *)
Theorem setupStreams_outcome (capture : Capture) (s : State) :
  match setupStreams capture s with
  | Returns s' =>
      audible capture = true
      /\ stream s' <> None
      /\ exists screen mic,
          capture = Captured screen mic
          /\ screenStream s' = screen /\ micStream s' = Some mic
          /\ openingTags s'
             = (if hasAudioTracks screen then MEETING_OPEN else [])
               ++ (if hasAudioTracks (Some mic) then USER_OPEN else [])
          /\ closingTags s'
             = (if hasAudioTracks screen then MEETING_CLOSE else [])
               ++ (if hasAudioTracks (Some mic) then USER_CLOSE else [])
  | Throws s' => audible capture = false /\ stream s' = None
  end.
Proof.
  destruct_state s.
  destruct capture as [|[[[|n']]|] [[|n'']]]; vm_compute;
    repeat (first [split | eexists]); first [reflexivity | discriminate].
Qed.

(** X2: the two halves of a start.  A click on the record button while
    [isRecording] is clear resets the session at once (segment counter 1,
    transcript, polished note and queue cleared, streams released) and
    suspends at the permission prompts with [isContinuousMode] set and
    [isRecording] clear; recorders, timer, stop tasks and a segment in
    processing are left alone.  The answer to the prompts, in whatever state
    it finds the application, touches none of what the click reset: with an
    audible capture it sets [isRecording], gives both slots new recorders,
    starts the primary one, arms the segment timer and takes the time of
    the answer as the start of the segment, and leaves [isContinuousMode]
    as it finds it; a recorder that was capturing in a slot goes on
    capturing outside it.  With a capture that is not audible it clears both
    flags, the streams and the timer and leaves the recorders as they are.
    When the answer follows the click with no callback in between
    ([ClickRecord]), recording is on exactly when the capture is audible. *)
Theorem start_outcome (capture : Capture) (now : Z) (s s' : State) :
  isRecording s = false -> startsPending s' <> 0%nat ->
  (isRecording (step ClickRecordOpen s) = false
   /\ isContinuousMode (step ClickRecordOpen s) = true
   /\ segmentCount (step ClickRecordOpen s) = 1%nat
   /\ processingQueue (step ClickRecordOpen s) = []
   /\ isProcessingSegment (step ClickRecordOpen s) = false
   /\ accumulatedTranscription (step ClickRecordOpen s) = []
   /\ accumulatedPolishedNote (step ClickRecordOpen s) = []
   /\ stream (step ClickRecordOpen s) = None
   /\ screenStream (step ClickRecordOpen s) = None
   /\ micStream (step ClickRecordOpen s) = None
   /\ startsPending (step ClickRecordOpen s) = S (startsPending s)
   /\ primaryRecorder (step ClickRecordOpen s) = primaryRecorder s
   /\ secondaryRecorder (step ClickRecordOpen s) = secondaryRecorder s
   /\ segmentIntervalId (step ClickRecordOpen s) = segmentIntervalId s
   /\ inflight (step ClickRecordOpen s) = inflight s
   /\ stopTasks (step ClickRecordOpen s) = stopTasks s)
  /\ (startsPending s' = S (startsPending (step (CaptureSettled capture now) s'))
      /\ segmentCount (step (CaptureSettled capture now) s') = segmentCount s'
      /\ processingQueue (step (CaptureSettled capture now) s') = processingQueue s'
      /\ isProcessingSegment (step (CaptureSettled capture now) s') = isProcessingSegment s'
      /\ accumulatedTranscription (step (CaptureSettled capture now) s')
         = accumulatedTranscription s'
      /\ inflight (step (CaptureSettled capture now) s') = inflight s'
      /\ stopTasks (step (CaptureSettled capture now) s') = stopTasks s'
      /\ if audible capture then
           isRecording (step (CaptureSettled capture now) s') = true
           /\ isContinuousMode (step (CaptureSettled capture now) s') = isContinuousMode s'
           /\ activeRecorder (step (CaptureSettled capture now) s') = primary
           /\ capturing primary (step (CaptureSettled capture now) s')
           /\ recorderOf secondary (step (CaptureSettled capture now) s') = Some inactive
           /\ chunksEmpty (step (CaptureSettled capture now) s')
           /\ segmentIntervalId (step (CaptureSettled capture now) s') <> None
           /\ segmentStartTime (step (CaptureSettled capture now) s') = now
           /\ stream (step (CaptureSettled capture now) s') <> None
           /\ orphans (step (CaptureSettled capture now) s')
              = (orphans s' + displaced (primaryRecorder s')
                 + displaced (secondaryRecorder s'))%nat
         else
           isRecording (step (CaptureSettled capture now) s') = false
           /\ isContinuousMode (step (CaptureSettled capture now) s') = false
           /\ stream (step (CaptureSettled capture now) s') = None
           /\ screenStream (step (CaptureSettled capture now) s') = None
           /\ micStream (step (CaptureSettled capture now) s') = None
           /\ segmentIntervalId (step (CaptureSettled capture now) s') = None
           /\ primaryRecorder (step (CaptureSettled capture now) s') = primaryRecorder s'
           /\ secondaryRecorder (step (CaptureSettled capture now) s')
              = secondaryRecorder s'
           /\ orphans (step (CaptureSettled capture now) s') = orphans s')
  /\ step (ClickRecord capture now) s
     = step (CaptureSettled capture now) (step ClickRecordOpen s)
  /\ processingQueue (step (ClickRecord capture now) s) = []
  /\ accumulatedTranscription (step (ClickRecord capture now) s) = []
  /\ accumulatedPolishedNote (step (ClickRecord capture now) s) = []
  /\ inflight (step (ClickRecord capture now) s) = inflight s
  /\ stopTasks (step (ClickRecord capture now) s) = stopTasks s
  /\ if audible capture then
       recordingOn (step (ClickRecord capture now) s)
       /\ activeRecorder (step (ClickRecord capture now) s) = primary
       /\ capturing primary (step (ClickRecord capture now) s)
       /\ recorderOf secondary (step (ClickRecord capture now) s) = Some inactive
       /\ chunksEmpty (step (ClickRecord capture now) s)
       /\ segmentIntervalId (step (ClickRecord capture now) s) <> None
       /\ segmentStartTime (step (ClickRecord capture now) s) = now
       /\ stream (step (ClickRecord capture now) s) <> None
     else
       isRecording (step (ClickRecord capture now) s) = false
       /\ isContinuousMode (step (ClickRecord capture now) s) = false
       /\ stream (step (ClickRecord capture now) s) = None
       /\ screenStream (step (ClickRecord capture now) s) = None
       /\ micStream (step (ClickRecord capture now) s) = None
       /\ segmentIntervalId (step (ClickRecord capture now) s) = None
       /\ primaryRecorder (step (ClickRecord capture now) s) = primaryRecorder s
       /\ secondaryRecorder (step (ClickRecord capture now) s) = secondaryRecorder s.
Proof.
  intros Hidle Hpending. split; [|split].
  - clear Hpending. destruct_state s. cbn [isRecording] in Hidle. subst isRec.
    vm_compute. repeat split.
  - clear Hidle. destruct_state s'. cbn [startsPending] in Hpending.
    destruct starts as [|starts]; [contradiction|]. clear Hpending.
    unfold capturing, chunksEmpty.
    destruct capture as [|[[[|n']]|] [[|n'']]], pR as [[]|], sR as [[]|]; vm_compute;
      repeat split; try reflexivity; try discriminate; intros []; reflexivity.
  - clear Hpending. destruct_state s. cbn [isRecording] in Hidle. subst isRec.
    unfold recordingOn, capturing, chunksEmpty.
    destruct capture as [|[[[|n']]|] [[|n'']]]; vm_compute;
      repeat split; try reflexivity; try discriminate; intros []; reflexivity.
Qed.

Lemma hasValidContent_setPlaceholder (el : option Element) :
  hasValidContent (setPlaceholder el true) = false.
Proof.
  destruct el as [el|]; [|reflexivity].
  cbn [setPlaceholder hasValidContent placeholderActive negb]. apply andb_false_r.
Qed.

Lemma createNewNote_fields (now : Z) (s : State) :
  isRecording (createNewNote now s) = false
  /\ isContinuousMode (createNewNote now s) = false
  /\ segmentIntervalId (createNewNote now s) = None
  /\ segmentCount (createNewNote now s) = 0%nat
  /\ processingQueue (createNewNote now s) = []
  /\ isProcessingSegment (createNewNote now s) = false
  /\ accumulatedTranscription (createNewNote now s) = []
  /\ accumulatedPolishedNote (createNewNote now s) = []
  /\ currentNote (createNewNote now s)
     = Some {| id := now; note_rawTranscription := []; note_polishedNote := [];
               timestamp := now |}
  /\ rawTranscription (createNewNote now s) = setPlaceholder (rawTranscription s) true
  /\ editorTitle (createNewNote now s) = setPlaceholder (editorTitle s) true
  /\ inflight (createNewNote now s) = inflight s.
Proof.
  destruct_state s.
  destruct isRec, isCont, pR as [[]|], sR as [[]|]; vm_compute; repeat split; reflexivity.
Qed.

Lemma createNewNote_recorders (now : Z) (s : State) :
  stopTasks (createNewNote now s)
  = stopTasks s ++ (if isRecording s then capturingSlots s else [])
  /\ (isRecording s = true ->
      ~ capturing primary (createNewNote now s)
      /\ ~ capturing secondary (createNewNote now s))
  /\ (isRecording s = false ->
      primaryRecorder (createNewNote now s) = primaryRecorder s
      /\ secondaryRecorder (createNewNote now s) = secondaryRecorder s)
  /\ startsPending (createNewNote now s) = startsPending s
  /\ orphans (createNewNote now s) = orphans s.
Proof.
  unfold capturing. destruct_state s.
  destruct isRec, isCont, pR as [[]|], sR as [[]|];
    vm_compute; repeat (first [split | intro]);
    first [congruence | symmetry; apply app_nil_r
          | exact (eq_sym (app_assoc _ [primary] [secondary]))].
Qed.

(** X3: what a click on "new note" does, in any state.  It clears
    [isRecording] and [isContinuousMode] and the segment timer, resets the
    transcript, the polished note, the queue, the processing guard and the
    segment counter, shows the placeholders of the transcript and title
    elements, and makes a fresh note current; a segment in processing is
    not cancelled.  The recorders of the two slots are stopped, and their
    stop tasks queued, exactly when [isRecording] was set; otherwise they
    are left as they are.  A start suspended at its permission prompts is
    not cancelled, and recorders that no slot holds are not stopped. *)
Theorem new_note_resets (now : Z) (s : State) :
  let s' := step (ClickNew now) s in
  isRecording s' = false /\ isContinuousMode s' = false
  /\ segmentIntervalId s' = None
  /\ segmentCount s' = 0%nat /\ processingQueue s' = [] /\ isProcessingSegment s' = false
  /\ accumulatedTranscription s' = [] /\ accumulatedPolishedNote s' = []
  /\ currentNote s'
     = Some {| id := now; note_rawTranscription := []; note_polishedNote := [];
               timestamp := now |}
  /\ hasValidContent (rawTranscription s') = false
  /\ hasValidContent (editorTitle s') = false
  /\ inflight s' = inflight s
  /\ stopTasks s' = stopTasks s ++ (if isRecording s then capturingSlots s else [])
  /\ (isRecording s = true -> ~ capturing primary s' /\ ~ capturing secondary s')
  /\ (isRecording s = false ->
      primaryRecorder s' = primaryRecorder s /\ secondaryRecorder s' = secondaryRecorder s)
  /\ startsPending s' = startsPending s
  /\ orphans s' = orphans s.
Proof.
  cbv zeta. cbn [App.step].
  destruct (createNewNote_fields now s)
    as (H1 & H2 & H3 & H4 & H5 & H6 & H7 & H8 & H9 & H10 & H11 & H12).
  destruct (createNewNote_recorders now s) as (Htasks & Hon & Hoff & Hstarts & Horph).
  rewrite H10, H11, !hasValidContent_setPlaceholder.
  repeat split; first [assumption | apply Hon; assumption | apply Hoff; assumption].
Qed.

(** *** The queue keeps moving *)

Lemma neverStalls_view (s s' : State) :
  stallView s' = stallView s -> neverStalls s -> neverStalls s'.
Proof.
  unfold stallView, neverStalls. intros [= H1 H2 H3 H4]. rewrite H1, H2, H3, H4. trivial.
Qed.

Lemma finally_neverStalls (s : State) : neverStalls (processNextSegment_finally s).
Proof.
  unfold processNextSegment_finally, neverStalls. cbv zeta. fields.
  destruct (processingQueue s) as [|segment rest] eqn:Hq; fields; rewrite ?Hq.
  - split; [discriminate|]. intros _ H. contradiction.
  - split; discriminate.
Qed.

Lemma processNextSegment_neverStalls (s : State) :
  (isProcessingSegment s = true -> inflight s <> []) ->
  neverStalls (processNextSegment s).
Proof.
  intros Hbusy. unfold processNextSegment.
  destruct (isProcessingSegment s) eqn:Hp.
  - split; [rewrite Hp; exact Hbusy|]. rewrite Hp. discriminate.
  - destruct (processingQueue s) as [|segment rest] eqn:Hq.
    + split; [rewrite Hp; discriminate|]. rewrite Hq. intros _ H. contradiction.
    + cbv zeta. unfold processAudioSegment_begin.
      destruct (_ =? 0)%nat; [apply finally_neverStalls|].
      unfold neverStalls. fields. split; [|discriminate].
      intros _ H. apply app_eq_nil in H as [_ H]. discriminate H.
Qed.

Lemma getPolishedNote_begin_neverStalls (i : nat) (s : State) :
  neverStalls s -> neverStalls (getPolishedNote_begin i s).
Proof.
  intros H. unfold getPolishedNote_begin.
  destruct (negb _); [apply finally_neverStalls|].
  cbv zeta. fields. destruct (inflight s !! i) as [job|] eqn:Hi; [|exact H].
  destruct H as [Hbusy Hidle]. unfold neverStalls. fields. split; [|exact Hidle].
  intros _ E. apply (f_equal List.length) in E. rewrite length_insert in E.
  destruct (inflight s); [discriminate Hi|discriminate E].
Qed.

Lemma transcriptionDone_neverStalls (i : nat) (r : Transcription) (s : State) :
  neverStalls s -> neverStalls (transcriptionDone textOfHtml i r s).
Proof.
  intros H. unfold transcriptionDone.
  destruct (inflight s !! i) as [[segment []]|]; try exact H.
  destruct r as [| | |[text|]]; try apply finally_neverStalls.
  destruct (truthy text); [|apply finally_neverStalls].
  unfold getSegmentTranscription_text. cbv zeta.
  apply getPolishedNote_begin_neverStalls.
  refine (neverStalls_view s _ _ H).
  rewrite set_note_rawTranscription_other by other.
  rewrite updateTranscriptionDisplay_other by other.
  reflexivity.
Qed.

Lemma refinementDone_neverStalls (i : nat) (r : Refinement) (s : State) :
  neverStalls s -> neverStalls (refinementDone i r s).
Proof.
  intros H. unfold refinementDone.
  destruct (inflight s !! i) as [[segment []]|]; try exact H.
  apply finally_neverStalls.
Qed.

Lemma onstop_neverStalls (type : Slot) (now : Z) (s : State) :
  neverStalls s -> neverStalls (onstop type now s).
Proof.
  intros H. unfold onstop. destruct (0 <? _)%nat; [|exact H]. cbv zeta.
  match goal with
  | |- neverStalls (set_chunks _ _ (processNextSegment ?x)) =>
      refine (neverStalls_view (processNextSegment x) _ _ _);
        [destruct type; reflexivity|];
      apply processNextSegment_neverStalls
  end.
  exact (proj1 H).
Qed.

Lemma ondataavailable_stallView (type : Slot) (data : Blob) (s : State) :
  stallView (ondataavailable type data s) = stallView s.
Proof. unfold ondataavailable. destruct (0 <? _)%nat, type; reflexivity. Qed.

Lemma stopContinuousRecording_begin_stallView (s : State) :
  stallView (stopContinuousRecording_begin s) = stallView s.
Proof.
  unfold stopContinuousRecording_begin, stopIfRecording, recorder_stop, set_recorder,
    cleanupAnimations.
  frame.
Qed.

Lemma stopContinuousRecording_end_stallView (s : State) :
  stallView (stopContinuousRecording_end s) = stallView s.
Proof.
  unfold stopContinuousRecording_end, cleanupStreams, stopDualRecording, stopLiveDisplay,
    cleanupAnimations, stopIfRecording, recorder_stop, set_recorder.
  frame.
Qed.

Lemma segmentTimerCallback_stallView (now : Z) (s : State) :
  stallView (segmentTimerCallback now s) = stallView s.
Proof.
  unfold segmentTimerCallback, switchRecorders, stopIfRecording, recorder_start,
    recorder_stop, set_recorder.
  frame.
Qed.

Lemma startContinuousRecording_stallView (c : Capture) (now : Z) (s : State) :
  stallView (startContinuousRecording c now s) = (false, inflight s, [], drainTimers s).
Proof.
  unfold startContinuousRecording, startContinuousRecording_settled,
    startContinuousRecording_begin, andThen, setupStreams_settled, startDualRecording,
    andThen, recorder_start, setupDualMediaRecorders, displaced, setupSegmentTimer, handleRecordingError,
    setupFinalStream, setupAudioTags, cleanupStreams, stopLiveDisplay, cleanupAnimations,
    set_recorder.
  frame.
Qed.

Lemma startContinuousRecording_settled_stallView (c : Capture) (now : Z) (s : State) :
  stallView (startContinuousRecording_settled c now s) = stallView s.
Proof. settled_frame. Qed.

Lemma createNewNote_stallView (now : Z) (s : State) :
  stallView (createNewNote now s) = (false, inflight s, [], drainTimers s).
Proof.
  unfold createNewNote, stopDualRecording, stopLiveDisplay, cleanupAnimations,
    stopIfRecording, recorder_stop, set_recorder.
  frame.
Qed.

Lemma reset_neverStalls (s s' : State) :
  stallView s' = (false, inflight s, [], drainTimers s) -> neverStalls s'.
Proof.
  unfold stallView, neverStalls. intros [= H1 _ H3 _]. rewrite H1, H3.
  split; [discriminate|]. intros _ H. contradiction.
Qed.

Lemma step_neverStalls (e : Event) (s : State) :
  neverStalls s -> neverStalls (step e s).
Proof.
  intros H. destruct e as [c now| |c now|now|now|data now|i r|i r| |]; cbn [App.step].
  - unfold toggleRecording. destruct (isRecording s); cbn [negb].
    + refine (neverStalls_view s _ _ H).
      transitivity (stallView (stopContinuousRecording_begin s)); [reflexivity|].
      apply stopContinuousRecording_begin_stallView.
    + exact (reset_neverStalls s _ (startContinuousRecording_stallView c now s)).
  - unfold toggleRecording_begin. destruct (isRecording s); cbn [negb].
    + refine (neverStalls_view s _ _ H).
      transitivity (stallView (stopContinuousRecording_begin s)); [reflexivity|].
      apply stopContinuousRecording_begin_stallView.
    + refine (reset_neverStalls s _ _). reflexivity.
  - destruct (startsPending s); [exact H|].
    refine (neverStalls_view s _ _ H).
    rewrite startContinuousRecording_settled_stallView. reflexivity.
  - exact (reset_neverStalls s _ (createNewNote_stallView now s)).
  - destruct (segmentIntervalId s); [|exact H].
    exact (neverStalls_view s _ (segmentTimerCallback_stallView now s) H).
  - destruct (stopTasks s) as [|type rest]; [exact H|].
    apply onstop_neverStalls. refine (neverStalls_view s _ _ H).
    rewrite ondataavailable_stallView. reflexivity.
  - apply transcriptionDone_neverStalls, H.
  - apply refinementDone_neverStalls, H.
  - destruct (drainTimers s); [exact H|].
    apply processNextSegment_neverStalls. exact (proj1 H).
  - destruct (stopsWaiting s); [exact H|].
    refine (neverStalls_view s _ _ H).
    rewrite stopContinuousRecording_end_stallView. reflexivity.
Qed.

(** X4: in every state the application reaches the queue cannot stall:
    while [isProcessingSegment] is set a segment is in processing, whose
    completion clears the guard, and while it is clear and segments wait in
    the queue a drain ([setTimeout] of [processNextSegment]) is scheduled. *)
Theorem queue_never_stalls (rawEl titleEl : option Element) (now0 : Z)
        (events : list Event) :
  neverStalls (run events (constructed rawEl titleEl now0)).
Proof.
  apply run_invariant; [exact step_neverStalls|].
  split; [discriminate|]. intros _ H. exfalso. apply H. reflexivity.
Qed.

(** *** Processing order *)

Lemma inOrder_view (s s' : State) :
  orderView s' = orderView s -> inOrder s -> inOrder s'.
Proof.
  unfold orderView, inOrder. intros [= H1 H2 H3]. rewrite H1, H2, H3. trivial.
Qed.

Lemma queueConsistent_idle (s : State) :
  queueConsistent s -> isProcessingSegment s = false -> inflight s = [].
Proof.
  unfold queueConsistent. intros H Hp.
  destruct (inflight s) as [|j [|j' jobs]]; [reflexivity|congruence|contradiction].
Qed.

Lemma finally_orderView (s : State) :
  orderView (processNextSegment_finally s) = orderView s.
Proof. unfold processNextSegment_finally. frame. Qed.

Lemma processNextSegment_inOrder (s : State) :
  queueConsistent s -> inOrder s -> inOrder (processNextSegment s).
Proof.
  intros Hq [done Hem]. unfold processNextSegment.
  destruct (isProcessingSegment s) eqn:Hp; [exists done; exact Hem|].
  destruct (processingQueue s) as [|segment rest] eqn:Hqueue.
  { exists done. rewrite Hqueue. exact Hem. }
  pose proof (queueConsistent_idle s Hq Hp) as Hjobs.
  rewrite Hjobs in Hem. cbn [map app] in Hem.
  cbv zeta. unfold processAudioSegment_begin. destruct (_ =? 0)%nat.
  - exists (done ++ [segment]).
    pose proof (finally_orderView (set_processingQueue rest (set_isProcessingSegment true s)))
      as E.
    unfold orderView in E. injection E as -> -> ->. fields.
    rewrite Hjobs, Hem, <- app_assoc. reflexivity.
  - exists done. fields. rewrite Hjobs, Hem. reflexivity.
Qed.

Lemma finish_inOrder (s : State) (job : Job) :
  inflight s = [job] -> inOrder s -> inOrder (finish 0 s).
Proof.
  intros Hjobs [done Hem]. exists (done ++ [job_segment job]).
  unfold finish.
  pose proof (finally_orderView (set_inflight (delete 0%nat (inflight s)) s)) as E.
  unfold orderView in E. injection E as -> -> ->. fields.
  rewrite Hjobs in *. cbn [delete list_delete map app] in *.
  rewrite Hem, <- app_assoc. reflexivity.
Qed.

Lemma getPolishedNote_begin_inOrder (s : State) (job : Job) :
  inflight s = [job] -> inOrder s -> inOrder (getPolishedNote_begin 0 s).
Proof.
  intros Hjobs H. unfold getPolishedNote_begin.
  destruct (negb _); [exact (finish_inOrder s job Hjobs H)|].
  cbv zeta. fields. rewrite Hjobs. cbn [lookup list_lookup].
  destruct H as [done Hem]. exists done. fields.
  rewrite Hjobs in *. exact Hem.
Qed.

Lemma transcriptionDone_inOrder (i : nat) (r : Transcription) (s : State) :
  queueConsistent s -> inOrder s -> inOrder (transcriptionDone textOfHtml i r s).
Proof.
  intros Hq H. unfold transcriptionDone.
  destruct (inflight s !! i) as [[segment phase]|] eqn:Hi; [|exact H].
  destruct (queueConsistent_busy s i _ Hq Hi) as (-> & Hjobs & _).
  destruct phase; [|exact H].
  destruct r as [| | |[text|]]; try exact (finish_inOrder s _ Hjobs H).
  destruct (truthy text); [|exact (finish_inOrder s _ Hjobs H)].
  unfold getSegmentTranscription_text. cbv zeta.
  refine (getPolishedNote_begin_inOrder _ _ _ _).
  - rewrite set_note_rawTranscription_other by other.
    rewrite updateTranscriptionDisplay_other by other.
    exact Hjobs.
  - refine (inOrder_view s _ _ H).
    rewrite set_note_rawTranscription_other by other.
    rewrite updateTranscriptionDisplay_other by other.
    reflexivity.
Qed.

Lemma refinementDone_inOrder (i : nat) (r : Refinement) (s : State) :
  queueConsistent s -> inOrder s -> inOrder (refinementDone i r s).
Proof.
  intros Hq H. unfold refinementDone.
  destruct (inflight s !! i) as [[segment phase]|] eqn:Hi; [|exact H].
  destruct (queueConsistent_busy s i _ Hq Hi) as (-> & Hjobs & _).
  destruct phase; [exact H|]. cbv zeta.
  refine (finish_inOrder _ {| job_segment := segment; job_phase := Refining |} _ _).
  - destruct r as [|[text|]]; try exact Hjobs.
    destruct (truthy text); [|exact Hjobs].
    rewrite getPolishedNote_text_other by other. exact Hjobs.
  - refine (inOrder_view s _ _ H).
    destruct r as [|[text|]]; try reflexivity.
    destruct (truthy text); [|reflexivity].
    apply getPolishedNote_text_other; other.
Qed.

Lemma onstop_inOrder (type : Slot) (now : Z) (s : State) :
  queueConsistent s -> inOrder s -> inOrder (onstop type now s).
Proof.
  intros Hq H. unfold onstop. destruct (0 <? _)%nat; [|exact H]. cbv zeta.
  match goal with
  | |- inOrder (set_chunks _ _ (processNextSegment ?x)) =>
      refine (inOrder_view (processNextSegment x) _ _ _);
        [destruct type; reflexivity|];
      apply processNextSegment_inOrder
  end.
  - refine (queueConsistent_view s _ _ Hq). reflexivity.
  - destruct H as [done Hem]. exists done. fields.
    rewrite Hem, <- !app_assoc. reflexivity.
Qed.

Lemma ondataavailable_orderView (type : Slot) (data : Blob) (s : State) :
  orderView (ondataavailable type data s) = orderView s.
Proof. unfold ondataavailable. destruct (0 <? _)%nat, type; reflexivity. Qed.

Lemma stopContinuousRecording_begin_orderView (s : State) :
  orderView (stopContinuousRecording_begin s) = orderView s.
Proof.
  unfold stopContinuousRecording_begin, stopIfRecording, recorder_stop, set_recorder,
    cleanupAnimations.
  frame.
Qed.

Lemma stopContinuousRecording_end_orderView (s : State) :
  orderView (stopContinuousRecording_end s) = orderView s.
Proof.
  unfold stopContinuousRecording_end, cleanupStreams, stopDualRecording, stopLiveDisplay,
    cleanupAnimations, stopIfRecording, recorder_stop, set_recorder.
  frame.
Qed.

Lemma segmentTimerCallback_orderView (now : Z) (s : State) :
  orderView (segmentTimerCallback now s) = orderView s.
Proof.
  unfold segmentTimerCallback, switchRecorders, stopIfRecording, recorder_start,
    recorder_stop, set_recorder.
  frame.
Qed.

Lemma startContinuousRecording_orderView (c : Capture) (now : Z) (s : State) :
  orderView (startContinuousRecording c now s) = (emitted s, inflight s, []).
Proof.
  unfold startContinuousRecording, startContinuousRecording_settled,
    startContinuousRecording_begin, andThen, setupStreams_settled, startDualRecording,
    andThen, recorder_start, setupDualMediaRecorders, displaced, setupSegmentTimer, handleRecordingError,
    setupFinalStream, setupAudioTags, cleanupStreams, stopLiveDisplay, cleanupAnimations,
    set_recorder.
  frame.
Qed.

Lemma startContinuousRecording_settled_orderView (c : Capture) (now : Z) (s : State) :
  orderView (startContinuousRecording_settled c now s) = orderView s.
Proof. settled_frame. Qed.

Lemma createNewNote_orderView (now : Z) (s : State) :
  orderView (createNewNote now s) = (emitted s, inflight s, []).
Proof.
  unfold createNewNote, stopDualRecording, stopLiveDisplay, cleanupAnimations,
    stopIfRecording, recorder_stop, set_recorder.
  frame.
Qed.

(** A reset while nothing is in processing drops the waiting segments. *)
Lemma reset_inOrder (s s' : State) :
  orderView s' = (emitted s, inflight s, []) -> idle s = true ->
  inOrder s -> inOrder s'.
Proof.
  unfold orderView, inOrder, idle. intros [= H1 H2 H3] Hidle [done Hem].
  rewrite H1, H2, H3. destruct (inflight s); [|discriminate Hidle].
  exists (done ++ processingQueue s). cbn [map app] in *.
  rewrite Hem, app_nil_r. reflexivity.
Qed.

Lemma step_inOrder (e : Event) (s : State) :
  negb (resets e s) || idle s = true ->
  queueConsistent s -> inOrder s -> inOrder (step e s).
Proof.
  intros Hguard Hq H.
  destruct e as [c now| |c now|now|now|data now|i r|i r| |]; cbn [App.step resets] in *.
  - unfold toggleRecording. destruct (isRecording s); cbn [negb orb] in *.
    + refine (inOrder_view s _ _ H).
      transitivity (orderView (stopContinuousRecording_begin s)); [reflexivity|].
      apply stopContinuousRecording_begin_orderView.
    + exact (reset_inOrder s _ (startContinuousRecording_orderView c now s) Hguard H).
  - unfold toggleRecording_begin. destruct (isRecording s); cbn [negb orb] in *.
    + refine (inOrder_view s _ _ H).
      transitivity (orderView (stopContinuousRecording_begin s)); [reflexivity|].
      apply stopContinuousRecording_begin_orderView.
    + refine (reset_inOrder s _ _ Hguard H). reflexivity.
  - destruct (startsPending s); [exact H|].
    refine (inOrder_view s _ _ H).
    rewrite startContinuousRecording_settled_orderView. reflexivity.
  - exact (reset_inOrder s _ (createNewNote_orderView now s) Hguard H).
  - destruct (segmentIntervalId s); [|exact H].
    exact (inOrder_view s _ (segmentTimerCallback_orderView now s) H).
  - destruct (stopTasks s) as [|type rest]; [exact H|].
    apply onstop_inOrder.
    + refine (queueConsistent_view s _ _ Hq). rewrite ondataavailable_queue. reflexivity.
    + refine (inOrder_view s _ _ H). rewrite ondataavailable_orderView. reflexivity.
  - apply transcriptionDone_inOrder; assumption.
  - apply refinementDone_inOrder; assumption.
  - destruct (drainTimers s); [exact H|].
    apply processNextSegment_inOrder.
    + exact (queueConsistent_view s _ eq_refl Hq).
    + exact (inOrder_view s _ eq_refl H).
  - destruct (stopsWaiting s); [exact H|].
    refine (inOrder_view s _ _ H).
    rewrite stopContinuousRecording_end_orderView. reflexivity.
Qed.

Lemma run_inOrder (events : list Event) (s : State) :
  resetsWhenIdle textOfHtml events s = true ->
  queueConsistent s -> inOrder s -> inOrder (run events s).
Proof.
  revert s. induction events as [|e events IH]; intros s Hguard Hq H; [exact H|].
  cbn [App.run resetsWhenIdle] in *.
  apply andb_true_iff in Hguard as [Hg Hrest].
  apply IH; [exact Hrest| |].
  - apply step_queueConsistent; assumption.
  - apply step_inOrder; assumption.
Qed.

(** X5: segments are processed in the order of their emission.  As long as
    no reset happens while a segment is being processed, at every point of
    a run the segment in processing followed by the segments that wait in
    the queue are the segments emitted last, in the order in which their
    recorders stopped; the queue hands out its head, so no segment
    overtakes another. *)
Theorem processing_in_emission_order (rawEl titleEl : option Element) (now0 : Z)
        (events sofar rest : list Event) :
  resetsWhenIdle textOfHtml events (constructed rawEl titleEl now0) = true ->
  events = sofar ++ rest ->
  exists done,
    emitted (run sofar (constructed rawEl titleEl now0))
    = done ++ map job_segment (inflight (run sofar (constructed rawEl titleEl now0)))
           ++ processingQueue (run sofar (constructed rawEl titleEl now0)).
Proof.
  intros Hguard ->. apply run_inOrder.
  - exact (resetsWhenIdle_prefix sofar rest _ Hguard).
  - apply constructed_queueConsistent.
  - exists []. reflexivity.
Qed.

(** *** The recorders take turns *)

Lemma during_step (e : Event) (s : State) :
  duringRecording e = true -> intervals [e] = 0%nat ->
  recorderView (step e s) = recorderView s.
Proof.
  destruct e as [c now| |c now|now|now|data now|i r|i r| |];
    cbn [duringRecording intervals];
    intros He Hquiet; try discriminate He; try discriminate Hquiet; cbn [App.step].
  - destruct (stopTasks s) as [|type rest]; [reflexivity|].
    rewrite onstop_view, ondataavailable_view. reflexivity.
  - apply transcriptionDone_view.
  - apply refinementDone_view.
  - destruct (drainTimers s) as [|timers]; [reflexivity|].
    rewrite processNextSegment_view. reflexivity.
Qed.

Lemma run_during (events : list Event) :
  forallb duringRecording events = true ->
  forall s : State,
    recordersConsistent s -> recordingOn s ->
    recordersConsistent (run events s) /\ recordingOn (run events s)
    /\ activeRecorder (run events s) = Nat.iter (intervals events) other (activeRecorder s).
Proof.
  induction events as [|e events IH]; intros Hevents s Hrec Hon;
    [split; [exact Hrec|split; [exact Hon|reflexivity]]|].
  cbn [forallb] in Hevents. apply andb_true_iff in Hevents as [He Hevents].
  cbn [App.run]. rewrite intervals_cons.
  destruct (intervals [e]) as [|k] eqn:Hk.
  - pose proof (during_step e s He Hk) as Hview.
    destruct (IH Hevents (step e s)
                (recordersConsistent_view _ _ Hview Hrec) (recordingOn_view _ _ Hview Hon))
      as (Hrec' & Hon' & Hactive).
    split; [exact Hrec'|]. split; [exact Hon'|].
    rewrite Hactive. cbn [Nat.add]. f_equal. unfold recorderView in Hview. congruence.
  - destruct e as [c now| |c now|now|now|data now|i r|i r| |]; try discriminate Hk.
    injection Hk as <-.
    destruct (switch_on_timer now s Hrec Hon) as (_ & _ & Hswitched & _ & Hon1).
    destruct (IH Hevents (step (SegmentTimer now) s)
                (step_consistent (SegmentTimer now) s eq_refl Hrec) Hon1)
      as (Hrec' & Hon' & Hactive).
    split; [exact Hrec'|]. split; [exact Hon'|].
    rewrite Hactive, Hswitched. cbn [Nat.add]. symmetry. apply Nat.iter_succ_r.
Qed.

(** The answer to the prompts with an audible capture, while
    [isContinuousMode] is still set. *)
Lemma settled_on (c : Capture) (now : Z) (s : State) :
  startsPending s <> 0%nat -> isContinuousMode s = true -> audible c = true ->
  recordersConsistent (step (CaptureSettled c now) s)
  /\ recordingOn (step (CaptureSettled c now) s)
  /\ activeRecorder (step (CaptureSettled c now) s) = primary.
Proof.
  unfold recordersConsistent, recordingOn, capturing.
  destruct_state s. cbn [startsPending isContinuousMode]. intros Hpending -> Haudible.
  destruct starts as [|starts]; [contradiction|]. clear Hpending.
  destruct c as [|[[[|n']]|] [[|n'']]]; try discriminate Haudible;
    destruct pR as [[]|], sR as [[]|]; vm_compute;
    repeat (first [split | intro]); congruence.
Qed.

Lemma iter_other (k : nat) :
  Nat.iter k other primary = if Nat.even k then primary else secondary.
Proof.
  induction k as [|k IH]; [reflexivity|].
  rewrite Nat.even_succ, <- Nat.negb_even, Nat.iter_succ, IH.
  destruct (Nat.even k); reflexivity.
Qed.

(** X6: the two recorders take turns.  Once the permission prompts of a
    start are answered with an audible capture while [isContinuousMode] is
    still set, recording is on and stays on, and the primary recorder is the
    active one after an even number of fires of the segment timer and the
    secondary after an odd number, the active recorder capturing and the
    other one being inactive, for as long as the only callbacks are fires
    of the segment timer, recorder stops (with or without data) and the
    queue's completions and drains: no click, no answer to another
    suspended start and no end of the wait loop of a stop. *)
Theorem recorders_alternate (capture : Capture) (t0 : Z) (s : State)
        (events : list Event) :
  startsPending s <> 0%nat -> isContinuousMode s = true -> audible capture = true ->
  forallb duringRecording events = true ->
  recordingOn (run (CaptureSettled capture t0 :: events) s)
  /\ activeRecorder (run (CaptureSettled capture t0 :: events) s)
     = (if Nat.even (intervals events) then primary else secondary)
  /\ capturing (activeRecorder (run (CaptureSettled capture t0 :: events) s))
               (run (CaptureSettled capture t0 :: events) s)
  /\ recorderOf (other (activeRecorder (run (CaptureSettled capture t0 :: events) s)))
                (run (CaptureSettled capture t0 :: events) s) = Some inactive.
Proof.
  intros Hpending Hmode Haudible Hevents. cbn [App.run].
  destruct (settled_on capture t0 s Hpending Hmode Haudible) as (Hrec & Hon & Hactive).
  destruct (run_during events Hevents _ Hrec Hon) as (Hrec' & Hon' & Hturn).
  split; [exact Hon'|]. split; [rewrite Hturn, Hactive; apply iter_other|].
  destruct Hon' as [Hcont Hisrec].
  unfold recordersConsistent in Hrec'. rewrite Hisrec in Hrec'.
  destruct Hrec' as (_ & Hother & Hcap). split; [|exact Hother].
  exact (proj1 (Hcap Hcont)).
Qed.

(** *** What a recorder stop emits *)

(** X7: in every state the application reaches, the stop of a recorder
    that flushes data emits exactly one segment, and its audio is exactly
    the flushed data: nothing of an earlier recording is mixed in, and
    both chunk lists are empty again afterwards. *)
Theorem stop_emits_flushed_data (rawEl titleEl : option Element) (now0 : Z)
        (events : list Event) (type : Slot) (rest : list Slot) (data : Blob) (now : Z) :
  stopTasks (run events (constructed rawEl titleEl now0)) = type :: rest ->
  (0 <? size data)%nat = true ->
  emitted (step (RecorderStopTask data now) (run events (constructed rawEl titleEl now0)))
  = emitted (run events (constructed rawEl titleEl now0))
    ++ [{| blob := data;
           startTime := segmentStartTime (run events (constructed rawEl titleEl now0));
           endTime := now;
           segmentNumber := (segmentCount (run events (constructed rawEl titleEl now0)) + 1)%nat
        |}]
  /\ stopTasks (step (RecorderStopTask data now) (run events (constructed rawEl titleEl now0)))
     = rest
  /\ chunksEmpty
       (step (RecorderStopTask data now) (run events (constructed rawEl titleEl now0))).
Proof.
  pose proof (reachable_chunksEmpty rawEl titleEl now0 events) as Hchunks.
  set (s := run events (constructed rawEl titleEl now0)) in *. clearbody s.
  intros Htasks Hdata. cbn [App.step]. rewrite Htasks.
  destruct (ondataavailable_chunks type data (set_stopTasks rest s) Hdata)
    as (Hc & Hview & Hstart).
  assert (Hempty : chunksOf type (set_stopTasks rest s) = [])
    by (rewrite <- (Hchunks type); destruct type; reflexivity).
  rewrite Hempty in Hc. cbn [app] in Hc.
  assert (Hne : chunksOf type (ondataavailable type data (set_stopTasks rest s)) <> [])
    by (rewrite Hc; discriminate).
  pose proof (onstop_emits type now _ Hne) as E.
  unfold tallyView in Hview. injection Hview as Hem Hst Hcnt.
  rewrite Hem, Hst, Hcnt, Hc, Hstart in E. clear Hem Hst Hcnt. fields_in E.
  unfold tallyView in E. injection E as Hem Hst _.
  cbn [concat] in Hem. rewrite app_nil_r in Hem.
  split; [exact Hem|]. split; [exact Hst|].
  apply stopTask_chunks. intros t. rewrite <- (Hchunks t). destruct t; reflexivity.
Qed.

(** *** The wait loop of a stop *)

Lemma waitForQueue_rounds (sleep : nat -> State -> State) :
  forall (remaining attempts : nat) (s : State),
  exists n : nat,
    waitForQueue remaining sleep attempts s
    = (waitStates sleep attempts s n, (attempts + n)%nat)
    /\ (n <= remaining)%nat
    /\ (forall k, (k < n)%nat -> queueBusy (waitStates sleep attempts s k) = true)
    /\ ((n < remaining)%nat -> queueBusy (waitStates sleep attempts s n) = false).
Proof.
  induction remaining as [|remaining IH]; intros attempts s.
  - exists 0%nat. cbn [waitForQueue waitStates]. rewrite Nat.add_0_r.
    repeat split; [lia|lia|lia].
  - cbn [waitForQueue]. fold (queueBusy s). destruct (queueBusy s) eqn:Hbusy.
    + destruct (IH (S attempts) (sleep attempts s)) as (n & Hrun & Hle & Hbefore & Hat).
      exists (S n). cbn [waitStates]. rewrite Hrun, Nat.add_succ_r.
      split; [reflexivity|]. split; [lia|]. split.
      * intros [|k] Hk; [exact Hbusy|]. cbn [waitStates]. apply Hbefore. lia.
      * intros Hlt. apply Hat. lia.
    + exists 0%nat. cbn [waitStates]. rewrite Nat.add_0_r.
      split; [reflexivity|]. split; [lia|]. split; [lia|]. intros _. exact Hbusy.
Qed.

(** X8: the wait loop of a stop ends at the first test at which the queue
    is empty and no segment is being processed, or after 50 sleeps: it
    sleeps [n <= 50] times, the queue was busy at each of the tests before,
    and when [n < 50] the queue is idle at the end.  In particular a stop
    with an idle queue does not sleep at all. *)
Theorem wait_ends_when_idle (sleep : nat -> State -> State) (s : State) :
  exists n : nat,
    waitForQueue 50 sleep 0 s = (waitStates sleep 0 s n, n)
    /\ (n <= 50)%nat
    /\ (forall k, (k < n)%nat -> queueBusy (waitStates sleep 0 s k) = true)
    /\ ((n < 50)%nat -> queueBusy (waitStates sleep 0 s n) = false)
    /\ (queueBusy s = false -> n = 0%nat).
Proof.
  destruct (waitForQueue_rounds sleep 50 0 s) as (n & Hrun & Hle & Hbefore & Hat).
  exists n. cbn [Nat.add] in Hrun. repeat split; try assumption.
  intros Hidle. destruct n as [|n]; [reflexivity|].
  specialize (Hbefore 0%nat ltac:(lia)). cbn [waitStates] in Hbefore. congruence.
Qed.

(** *** The transcript only grows *)

Lemma extends_view (s s' : State) : progressView s' = progressView s -> extends s s'.
Proof.
  unfold progressView, extends. intros [= H1 H2]. rewrite H1, H2.
  split; [exists []; symmetry; apply app_nil_r|lia].
Qed.

Lemma extends_trans (s1 s2 s3 : State) : extends s1 s2 -> extends s2 s3 -> extends s1 s3.
Proof.
  intros [[b1 H1] Hc1] [[b2 H2] Hc2]. split; [|lia].
  exists (b1 ++ b2). rewrite H2, H1, app_assoc. reflexivity.
Qed.

Lemma processNextSegment_progressView (s : State) :
  progressView (processNextSegment s) = progressView s.
Proof.
  unfold processNextSegment, processAudioSegment_begin, processNextSegment_finally.
  frame.
Qed.

Lemma transcriptionDone_extends (i : nat) (r : Transcription) (s : State) :
  extends s (transcriptionDone textOfHtml i r s).
Proof.
  unfold transcriptionDone.
  destruct (inflight s !! i) as [[segment []]|]; try (apply extends_view; reflexivity).
  destruct r as [| | |[text|]]; try (apply extends_view, finish_other; other).
  destruct (truthy text); [|apply extends_view, finish_other; other].
  unfold getSegmentTranscription_text. cbv zeta. unfold extends.
  rewrite !(getPolishedNote_begin_other _ i) by other.
  rewrite !set_note_rawTranscription_other by other.
  rewrite !updateTranscriptionDisplay_other by other.
  fields. split; [eexists; reflexivity|lia].
Qed.

Lemma refinementDone_progressView (i : nat) (r : Refinement) (s : State) :
  progressView (refinementDone i r s) = progressView s.
Proof.
  unfold refinementDone.
  destruct (inflight s !! i) as [[segment []]|]; try reflexivity.
  cbv zeta. rewrite finish_other by other.
  destruct r as [|[text|]]; try reflexivity.
  destruct (truthy text); [|reflexivity].
  apply getPolishedNote_text_other; other.
Qed.

Lemma onstop_progressView (type : Slot) (now : Z) (s : State) :
  progressView (onstop type now s) = progressView s.
Proof.
  unfold onstop. destruct (0 <? _)%nat; [|reflexivity]. cbv zeta.
  match goal with
  | |- progressView (set_chunks _ _ (processNextSegment ?x)) = _ =>
      transitivity (progressView (processNextSegment x)); [destruct type; reflexivity|]
  end.
  rewrite processNextSegment_progressView. reflexivity.
Qed.

Lemma ondataavailable_progressView (type : Slot) (data : Blob) (s : State) :
  progressView (ondataavailable type data s) = progressView s.
Proof. unfold ondataavailable. destruct (0 <? _)%nat, type; reflexivity. Qed.

Lemma stopContinuousRecording_begin_progressView (s : State) :
  progressView (stopContinuousRecording_begin s) = progressView s.
Proof.
  unfold stopContinuousRecording_begin, stopIfRecording, recorder_stop, set_recorder,
    cleanupAnimations.
  frame.
Qed.

Lemma stopContinuousRecording_end_progressView (s : State) :
  progressView (stopContinuousRecording_end s) = progressView s.
Proof.
  unfold stopContinuousRecording_end, cleanupStreams, stopDualRecording, stopLiveDisplay,
    cleanupAnimations, stopIfRecording, recorder_stop, set_recorder.
  frame.
Qed.

Lemma segmentTimerCallback_progressView (now : Z) (s : State) :
  progressView (segmentTimerCallback now s) = progressView s.
Proof.
  unfold segmentTimerCallback, switchRecorders, stopIfRecording, recorder_start,
    recorder_stop, set_recorder.
  frame.
Qed.

Lemma startContinuousRecording_settled_progressView (c : Capture) (now : Z) (s : State) :
  progressView (startContinuousRecording_settled c now s) = progressView s.
Proof. settled_frame. Qed.

Lemma step_extends (e : Event) (s : State) :
  resets e s = false -> extends s (step e s).
Proof.
  intros He.
  destruct e as [c now| |c now|now|now|data now|i r|i r| |]; cbn [App.step resets] in *;
    try discriminate He.
  - unfold toggleRecording. rewrite He. apply extends_view.
    transitivity (progressView (stopContinuousRecording_begin s)); [reflexivity|].
    apply stopContinuousRecording_begin_progressView.
  - unfold toggleRecording_begin. rewrite He. apply extends_view.
    transitivity (progressView (stopContinuousRecording_begin s)); [reflexivity|].
    apply stopContinuousRecording_begin_progressView.
  - apply extends_view. destruct (startsPending s); [reflexivity|].
    rewrite startContinuousRecording_settled_progressView. reflexivity.
  - apply extends_view. destruct (segmentIntervalId s); [|reflexivity].
    apply segmentTimerCallback_progressView.
  - apply extends_view. destruct (stopTasks s) as [|type rest]; [reflexivity|].
    rewrite onstop_progressView, ondataavailable_progressView. reflexivity.
  - apply transcriptionDone_extends.
  - apply extends_view, refinementDone_progressView.
  - apply extends_view. destruct (drainTimers s); [reflexivity|].
    rewrite processNextSegment_progressView. reflexivity.
  - apply extends_view. destruct (stopsWaiting s); [reflexivity|].
    rewrite stopContinuousRecording_end_progressView. reflexivity.
Qed.

(** X9: between resets the raw transcript is append-only and the segment
    counter never goes back: whatever callbacks run, as long as none of
    them is a click on "new note" or a click that starts a session, the
    accumulated transcript afterwards is the one before followed by the
    blocks added, and [segmentCount] is at least what it was. *)
Theorem transcript_append_only (events : list Event) (s : State) :
  noResets textOfHtml events s = true ->
  (exists blocks,
      accumulatedTranscription (run events s) = accumulatedTranscription s ++ blocks)
  /\ (segmentCount s <= segmentCount (run events s))%nat.
Proof.
  revert s. induction events as [|e events IH]; intros s Hevents.
  - apply extends_view. reflexivity.
  - cbn [noResets App.run] in *. apply andb_true_iff in Hevents as [He Hevents].
    apply negb_true_iff in He.
    exact (extends_trans _ _ _ (step_extends e s He) (IH _ Hevents)).
Qed.

End AppFacts.

(** ** Concrete runs *)

(** ** The theorems at work on concrete runs *)

Section ConcreteRuns.
Import Js Dom App Props Examples.
Local Open Scope Z_scope.

(** Two stereo frames: 52 bytes, a data chunk of 8, and the samples
    [0.5], [-0.5], [-2] (clamped) and [0] in frame order. *)
Lemma C4_wav_layout_witness :
  Wav.well_formed stereo /\
  exists out,
    Wav.convertToWav stereo = Some out /\
    List.length out = 52%nat /\
    Wav.getUint32 out 40 = Some 8 /\
    Wav.getInt16 out 44 = Some 16383 /\ Wav.getInt16 out 46 = Some (-16384) /\
    Wav.getInt16 out 48 = Some (-32768) /\ Wav.getInt16 out 50 = Some 0.
Proof.
  assert (Hwf : Wav.well_formed stereo) by (repeat constructor).
  split; [exact Hwf|].
  destruct (C4_wav_layout stereo Hwf) as (out & Hout & Hlen & _ & _ & _ & _ & _ & _ & _ & _ & _
                                           & _ & _ & _ & Hdata & _);
    [vm_compute; reflexivity | vm_compute; reflexivity
    | vm_compute; split; [discriminate | reflexivity] | vm_compute; reflexivity |].
  exists out. split; [exact Hout|]. split; [exact Hlen|]. split; [exact Hdata|].
  assert (E : out = default [] (Wav.convertToWav stereo)) by (rewrite Hout; reflexivity).
  rewrite E. vm_compute. repeat split.
Defined.

(** C1 (what the code does): a session in which [N] intervals elapse and
    every recorder stop flushes data enqueues [N + 1] segments, but numbers
    them from 2, not from 1, and not always increasingly: with no interval
    elapsed the one segment is numbered 2; with one interval elapsed the two
    segments are numbered 2 and 2 when the first is still being transcribed
    at the stop, and 2 and 3 when it was transcribed before. *)
Theorem C1_segment_numbers :
  (forall (textOfHtml : jsstring -> jsstring) (capture stop : Capture) (t0 t1 : Z)
          (s : State) (recordingEvents stoppingEvents : list Event),
      isRecording s = false -> stopTasks s = [] ->
      isRecording (step textOfHtml (ClickRecord capture t0) s) = true ->
      forallb whileRecording recordingEvents = true ->
      forallb whileStopping stoppingEvents = true ->
      stopTasks (run textOfHtml
                     (ClickRecord capture t0
                      :: recordingEvents ++ ClickRecord stop t1 :: stoppingEvents) s) = [] ->
      exists segments,
        emitted (run textOfHtml
                     (ClickRecord capture t0
                      :: recordingEvents ++ ClickRecord stop t1 :: stoppingEvents) s)
        = emitted s ++ segments
        /\ List.length segments = S (intervals recordingEvents)
        /\ Forall (fun segment => (2 <= segmentNumber segment)%nat) segments)
  /\ map segmentNumber (emitted (run markupAsText shortSession fresh)) = [2%nat]
  /\ map segmentNumber (emitted (run markupAsText slowSession fresh)) = [2%nat; 2%nat]
  /\ map segmentNumber (emitted (run markupAsText promptSession fresh)) = [2%nat; 3%nat].
Proof.
  split; [exact session_segments|]. repeat split; vm_compute; reflexivity.
Qed.

(** The session without an elapsed interval: one segment, numbered 2. *)
Lemma C1_segment_numbers_witness :
  isRecording fresh = false /\ stopTasks fresh = []
  /\ isRecording (step markupAsText (ClickRecord microphone 0) fresh) = true
  /\ stopTasks (run markupAsText shortSession fresh) = []
  /\ exists segments,
       emitted (run markupAsText shortSession fresh) = emitted fresh ++ segments
       /\ List.length segments = 1%nat
       /\ Forall (fun segment => (2 <= segmentNumber segment)%nat) segments.
Proof.
  repeat (split; [vm_compute; reflexivity|]).
  apply (proj1 C1_segment_numbers markupAsText microphone microphone 0 5000 fresh []
               [RecorderStopTask [1; 2; 3] 5001; StopWaitOver]);
    vm_compute; reflexivity.
Defined.

(** A new note, or a new session, while the first segment is still being
    transcribed: the guard is clear with a segment in processing, and the
    next segment is processed next to it. *)
Lemma C2_single_flight_counterexample :
  ~ singleFlight (run markupAsText newNoteWhileProcessing fresh)
  /\ ~ singleFlight (run markupAsText (take 7 restartWhileProcessing) fresh)
  /\ ~ singleFlight (run markupAsText restartWhileProcessing fresh).
Proof.
  unfold singleFlight. repeat split.
  - vm_compute. intros [H _]. inversion H as [|? H']. inversion H'.
  - vm_compute. intros [_ [_ H]]. discriminate H. discriminate.
  - vm_compute. intros [H _]. inversion H as [|? H']. inversion H'.
Qed.

(** A session whose first segment is done before the stop. *)
Lemma C2_single_flight_witness :
  resetsWhenIdle markupAsText promptSession fresh = true
  /\ promptSession = take 4 promptSession ++ drop 4 promptSession
  /\ singleFlight (run markupAsText (take 4 promptSession) fresh).
Proof.
  unfold fresh.
  split; [vm_compute; reflexivity|]. split; [reflexivity|].
  apply (C2_single_flight markupAsText rawElement titleElement 0 promptSession
           (take 4 promptSession) (drop 4 promptSession));
    [vm_compute; reflexivity|reflexivity].
Defined.



(** Three queued segments, the transcription of the second throws. *)
Lemma C6_failure_isolation_witness :
  isProcessingSegment threeQueued = false
  /\ inflight threeQueued = []
  /\ accumulatedTranscription
       (run markupAsText (drainEvents secondFails) (processNextSegment threeQueued))
     = accumulatedTranscription threeQueued
       ++ blocks [segment1; segment2; segment3] secondFails threeQueued.
Proof.
  split; [vm_compute; reflexivity|]. split; [vm_compute; reflexivity|].
  apply (C6_failure_isolation markupAsText threeQueued [segment1; segment2; segment3]
           secondFails); try (vm_compute; reflexivity).
  repeat constructor; discriminate.
Defined.

(** The example of the specification: of three segments the second fails,
    and the transcript holds the blocks of the first and the third. *)
Example drain_second_fails :
  accumulatedTranscription
    (run markupAsText (drainEvents secondFails) (processNextSegment threeQueued))
  = [10; 10]%N ++ lit "=== SEGMENTO 1 ===" ++ [10]%N ++ lit "one"
    ++ [10; 10]%N ++ lit "=== SEGMENTO 3 ===" ++ [10]%N ++ lit "three".
Proof. vm_compute. reflexivity. Qed.

(** A session stopped before its recorder captured anything. *)
Lemma C7_empty_stop_emits_nothing_witness :
  size [] = 0%nat
  /\ processingQueue
       (step markupAsText (RecorderStopTask [] 11)
          (run markupAsText [ClickRecord microphone 0; ClickRecord microphone 10] fresh))
     = processingQueue
         (run markupAsText [ClickRecord microphone 0; ClickRecord microphone 10] fresh)
  /\ emitted
       (step markupAsText (RecorderStopTask [] 11)
          (run markupAsText [ClickRecord microphone 0; ClickRecord microphone 10] fresh))
     = emitted
         (run markupAsText [ClickRecord microphone 0; ClickRecord microphone 10] fresh).
Proof.
  unfold fresh.
  split; [reflexivity|].
  destruct (C7_empty_stop_emits_nothing markupAsText rawElement titleElement 0
              [ClickRecord microphone 0; ClickRecord microphone 10] [] 11 _ eq_refl eq_refl)
    as (Hq & He & _).
  split; [exact Hq|exact He].
Defined.

(** The heading example of the specification. *)
Lemma C8_title_derivation_witness :
  map trim (split 10 (lit "# Weekly Sync" ++ [10; 10]%N ++ lit "Discussed budget."))
  = [] ++ lit "# Weekly Sync" :: [[]; lit "Discussed budget."]
  /\ startsWith (lit "# Weekly Sync") 35 = true
  /\ Title.derivedTitle (lit "# Weekly Sync" ++ [10; 10]%N ++ lit "Discussed budget.")
     = Some (trim (Title.stripHeadingMarker (lit "# Weekly Sync"))).
Proof.
  split; [vm_compute; reflexivity|]. split; [vm_compute; reflexivity|].
  destruct (C8_title_derivation
              (lit "# Weekly Sync" ++ [10; 10]%N ++ lit "Discussed budget.")) as [Hheading _].
  apply (Hheading [] (lit "# Weekly Sync") [[]; lit "Discussed budget."]);
    [vm_compute; reflexivity|constructor|vm_compute; reflexivity].
Defined.

(** A heading marker without a space is kept in the title; a first line
    that is too short is passed over for the next one; and the session
    whose note was refined twice derived no title. *)
Lemma C8_title_counterexample :
  Title.derivedTitle (lit "#Tag") <> Title.spec_derivedTitle (lit "#Tag")
  /\ Title.derivedTitle (lit "1." ++ [10]%N ++ lit "Quarterly planning")
     <> Title.spec_derivedTitle (lit "1." ++ [10]%N ++ lit "Quarterly planning")
  /\ accumulatedPolishedNote (run markupAsText promptSession fresh) = lit "# Notes again"
  /\ titleUpdates (run markupAsText promptSession fresh) = 0%nat.
Proof.
  repeat split; vm_compute; (reflexivity || discriminate).
Qed.

(** The first segment of a microphone session is transcribed. *)
Lemma C9_transcribe_then_refine_witness :
  inflight (run markupAsText (take 3 shortSession) fresh) !! 0%nat
  = Some {| job_segment := {| blob := [1; 2; 3]; startTime := 0; endTime := 5001;
                              segmentNumber := 2 |};
            job_phase := Transcribing |}
  /\ accumulatedTranscription
       (step markupAsText (TranscriptionDone 0 (said "hello"))
          (run markupAsText (take 3 shortSession) fresh))
     = [10; 10]%N ++ lit "=== SEGMENTO 2 ===" ++ [10]%N ++ lit "[EU]hello [/EU]"
  /\ requests
       (step markupAsText (TranscriptionDone 0 (said "hello"))
          (run markupAsText (take 3 shortSession) fresh))
     = [PROMPT ++ [10; 10]%N ++ lit "=== SEGMENTO 2 ===" ++ [10]%N ++ lit "[EU]hello [/EU]"].
Proof.
  unfold said.
  split; [vm_compute; reflexivity|].
  destruct (C9_transcribe_then_refine markupAsText
              (run markupAsText (take 3 shortSession) fresh) 0
              {| blob := [1; 2; 3]; startTime := 0; endTime := 5001; segmentNumber := 2 |}
              (lit "hello")
              {| textContent := lit "Raw transcription will appear here...";
                 placeholder := lit "Raw transcription will appear here...";
                 placeholderActive := true |})
    as (Hacc & Hreq & _); try (vm_compute; reflexivity).
  split.
  - rewrite Hacc. vm_compute. reflexivity.
  - rewrite Hreq, Hacc. vm_compute. reflexivity.
Defined.

End ConcreteRuns.

(** ** More concrete runs *)

Section MoreRuns.
Import Js Dom App Props Examples.
Local Open Scope Z_scope.

(** A click with the microphone granted starts the session; when "new
    note" is clicked at the prompt, the answer still starts the recording,
    at the time of the answer and without [isContinuousMode]. *)
Lemma start_outcome_witness :
  isRecording fresh = false
  /\ startsPending (run markupAsText (take 2 newNoteAtPrompt) fresh) = 1%nat
  /\ isRecording (step markupAsText ClickRecordOpen fresh) = false
  /\ isRecording (step markupAsText (CaptureSettled microphone 2000)
                    (run markupAsText (take 2 newNoteAtPrompt) fresh)) = true
  /\ isContinuousMode (step markupAsText (CaptureSettled microphone 2000)
                         (run markupAsText (take 2 newNoteAtPrompt) fresh)) = false
  /\ segmentStartTime (step markupAsText (CaptureSettled microphone 2000)
                         (run markupAsText (take 2 newNoteAtPrompt) fresh)) = 2000
  /\ recordingOn (step markupAsText (ClickRecord microphone 0) fresh)
  /\ capturing primary (step markupAsText (ClickRecord microphone 0) fresh)
  /\ segmentStartTime (step markupAsText (ClickRecord microphone 0) fresh) = 0.
Proof.
  assert (Hidle : isRecording fresh = false) by (vm_compute; reflexivity).
  assert (Hone : startsPending (run markupAsText (take 2 newNoteAtPrompt) fresh) = 1%nat)
    by (vm_compute; reflexivity).
  assert (Hpending : startsPending (run markupAsText (take 2 newNoteAtPrompt) fresh)
                     <> 0%nat) by (rewrite Hone; discriminate).
  assert (Haudible : audible microphone = true) by reflexivity.
  split; [exact Hidle|]. split; [exact Hone|].
  destruct (start_outcome markupAsText microphone 2000 fresh
              (run markupAsText (take 2 newNoteAtPrompt) fresh) Hidle Hpending)
    as ((Hopen & _) & (_ & _ & _ & _ & _ & _ & _ & Hsettled) & _).
  rewrite Haudible in Hsettled.
  destruct Hsettled as (Hrec & Hmode & _ & _ & _ & _ & _ & Htime & _).
  split; [exact Hopen|]. split; [exact Hrec|].
  split; [refine (eq_trans Hmode _); vm_compute; reflexivity|].
  split; [exact Htime|].
  destruct (start_outcome markupAsText microphone 0 fresh
              (run markupAsText (take 2 newNoteAtPrompt) fresh) Hidle Hpending)
    as (_ & _ & _ & _ & _ & _ & _ & _ & H).
  rewrite Haudible in H. destruct H as (Hon & _ & Hcap & _ & _ & _ & Hstart & _).
  split; [exact Hon|]. split; [exact Hcap|exact Hstart].
Defined.

(** While the second segment of a session waits for the first, the two are
    the segments emitted, in that order. *)
Lemma processing_in_emission_order_witness :
  resetsWhenIdle markupAsText slowSession fresh = true
  /\ slowSession = slowSession ++ []
  /\ exists done,
      emitted (run markupAsText slowSession fresh)
      = done ++ map job_segment (inflight (run markupAsText slowSession fresh))
             ++ processingQueue (run markupAsText slowSession fresh).
Proof.
  unfold fresh.
  split; [vm_compute; reflexivity|]. split; [reflexivity|].
  apply (processing_in_emission_order markupAsText rawElement titleElement 0
           slowSession slowSession []); [vm_compute; reflexivity|reflexivity].
Defined.

(** After three fires of the timer the secondary recorder is active. *)
Lemma recorders_alternate_witness :
  startsPending (step markupAsText ClickRecordOpen fresh) = 1%nat
  /\ isContinuousMode (step markupAsText ClickRecordOpen fresh) = true
  /\ audible microphone = true
  /\ activeRecorder
       (run markupAsText
            [CaptureSettled microphone 900; SegmentTimer 120900; SegmentTimer 240900;
             RecorderStopTask [1] 240901; RecorderStopTask [] 240902;
             SegmentTimer 360900]
            (step markupAsText ClickRecordOpen fresh))
     = secondary.
Proof.
  assert (Hone : startsPending (step markupAsText ClickRecordOpen fresh) = 1%nat)
    by (vm_compute; reflexivity).
  assert (Hpending : startsPending (step markupAsText ClickRecordOpen fresh) <> 0%nat)
    by (rewrite Hone; discriminate).
  assert (Hmode : isContinuousMode (step markupAsText ClickRecordOpen fresh) = true)
    by (vm_compute; reflexivity).
  split; [exact Hone|]. split; [exact Hmode|]. split; [reflexivity|].
  assert (Haudible : audible microphone = true) by reflexivity.
  assert (Hevents : forallb duringRecording
                      [SegmentTimer 120900; SegmentTimer 240900;
                       RecorderStopTask [1] 240901; RecorderStopTask [] 240902;
                       SegmentTimer 360900] = true) by reflexivity.
  refine (eq_trans (proj1 (proj2 (recorders_alternate markupAsText microphone 900
                                    (step markupAsText ClickRecordOpen fresh)
                                    [SegmentTimer 120900; SegmentTimer 240900;
                                     RecorderStopTask [1] 240901;
                                     RecorderStopTask [] 240902; SegmentTimer 360900]
                                    Hpending Hmode Haudible Hevents))) _).
  reflexivity.
Defined.

(** The stop of a short session flushes three bytes. *)
Lemma stop_emits_flushed_data_witness :
  stopTasks (run markupAsText [ClickRecord microphone 0; ClickRecord microphone 5000] fresh)
  = [primary]
  /\ emitted
       (step markupAsText (RecorderStopTask [1; 2; 3] 5001)
          (run markupAsText [ClickRecord microphone 0; ClickRecord microphone 5000] fresh))
     = emitted (run markupAsText [ClickRecord microphone 0; ClickRecord microphone 5000] fresh)
       ++ [{| blob := [1; 2; 3]; startTime := 0; endTime := 5001; segmentNumber := 2 |}].
Proof.
  unfold fresh.
  assert (Htasks : stopTasks (run markupAsText
                                [ClickRecord microphone 0; ClickRecord microphone 5000]
                                (constructed rawElement titleElement 0)) = [primary])
    by (vm_compute; reflexivity).
  split; [exact Htasks|].
  destruct (stop_emits_flushed_data markupAsText rawElement titleElement 0
              [ClickRecord microphone 0; ClickRecord microphone 5000]
              primary [] [1; 2; 3] 5001 Htasks eq_refl) as (Hem & _).
  rewrite Hem. vm_compute. reflexivity.
Defined.

(** The callbacks of a session after its start. *)
Lemma transcript_append_only_witness :
  noResets markupAsText (drop 1 promptSession)
           (run markupAsText (take 1 promptSession) fresh) = true
  /\ exists blocks,
      accumulatedTranscription
        (run markupAsText (drop 1 promptSession)
             (run markupAsText (take 1 promptSession) fresh))
      = accumulatedTranscription (run markupAsText (take 1 promptSession) fresh) ++ blocks.
Proof.
  assert (H : noResets markupAsText (drop 1 promptSession)
                       (run markupAsText (take 1 promptSession) fresh) = true)
    by (vm_compute; reflexivity).
  split; [exact H|].
  exact (proj1 (transcript_append_only markupAsText (drop 1 promptSession)
                  (run markupAsText (take 1 promptSession) fresh) H)).
Defined.

End MoreRuns.

(** ** More on the title *)

Section TitleShape.
Import Js Dom Title.

Lemma headingLoop_some (lines : list jsstring) (title : jsstring) :
  headingLoop lines = Some title -> exists x, title = trim x /\ truthy title = true.
Proof.
  induction lines as [|line rest IH]; [discriminate|]. cbn [headingLoop].
  destruct (startsWith line 35); [|exact IH]. cbv zeta.
  destruct (truthy (trim (stripHeadingMarker line))) eqn:Ht; [|exact IH].
  intros [= <-]. exists (stripHeadingMarker line). split; [reflexivity|exact Ht].
Qed.

Lemma firstLineLoop_some (lines : list jsstring) (title : jsstring) :
  firstLineLoop lines = Some title ->
  exists line, title = truncated (potentialTitle line)
               /\ (3 < List.length (potentialTitle line))%nat.
Proof.
  induction lines as [|line rest IH]; [discriminate|]. cbn [firstLineLoop].
  destruct (0 <? List.length line)%nat; [|exact IH]. cbv zeta.
  destruct (3 <? List.length (potentialTitle line))%nat eqn:Hlen; [|exact IH].
  intros [= <-]. exists line. split; [reflexivity|]. apply Nat.ltb_lt, Hlen.
Qed.

Lemma truncated_length (p : jsstring) :
  List.length (truncated p)
  = if (maxLength <? List.length p)%nat then 63%nat else List.length p.
Proof.
  unfold truncated, substring0, maxLength.
  destruct (60 <? List.length p)%nat eqn:Hlen.
  - apply Nat.ltb_lt in Hlen. rewrite length_app, length_take.
    change (List.length (lit "...")) with 3%nat. lia.
  - apply Nat.ltb_ge in Hlen. rewrite app_nil_r, length_take. lia.
Qed.

Lemma truncated_head (p : jsstring) (c : N) (r : jsstring) :
  p = c :: r -> exists r', truncated p = c :: r'.
Proof. intros ->. unfold truncated, substring0, maxLength. cbn [take app]. eauto. Qed.

(** X10: a derived title is never empty and never starts with white space;
    a title that does not come from a heading line (no line of the refined
    text starts with ['#']) has between 4 and 63 characters: at most 60 of
    the line and the three dots. *)
Theorem derived_title_shape (polishedText title : jsstring) :
  derivedTitle polishedText = Some title ->
  (exists c r, title = c :: r /\ isWhiteSpace c = false)
  /\ (Forall (fun l => startsWith l 35 = false) (map trim (split 10 polishedText)) ->
      (3 < List.length title <= 63)%nat).
Proof.
  unfold derivedTitle. cbv zeta.
  destruct (headingLoop (map trim (split 10 polishedText))) as [t|] eqn:Hheading.
  - intros [= <-]. destruct (headingLoop_some _ _ Hheading) as (x & Hx & Ht). split.
    + destruct t as [|c r]; [discriminate Ht|]. exists c, r. split; [reflexivity|].
      symmetry in Hx. exact (proj1 (trim_ends x c r Hx)).
    + intros Hnone. rewrite (headingLoop_none _ Hnone) in Hheading. discriminate Hheading.
  - intros Hfirst. destruct (firstLineLoop_some _ _ Hfirst) as (line & -> & Hlen). split.
    + destruct (potentialTitle line) as [|c r] eqn:Hp; [cbn in Hlen; lia|].
      destruct (truncated_head _ c r eq_refl) as [r' Hr']. exists c, r'.
      split; [exact Hr'|].
      unfold potentialTitle in Hp. exact (proj1 (trim_ends _ c r Hp)).
    + intros _. rewrite truncated_length. unfold maxLength.
      destruct (60 <? List.length (potentialTitle line))%nat eqn:H60; [lia|].
      apply Nat.ltb_ge in H60. lia.
Qed.

Lemma derived_title_shape_witness :
  derivedTitle (lit "- Review action items and owners")
  = Some (lit "Review action items and owners")
  /\ (3 < List.length (lit "Review action items and owners") <= 63)%nat.
Proof.
  assert (H : derivedTitle (lit "- Review action items and owners")
              = Some (lit "Review action items and owners")) by (vm_compute; reflexivity).
  split; [exact H|].
  apply (derived_title_shape _ _ H). vm_compute. repeat constructor.
Defined.

End TitleShape.

(** ** More on the encoder *)

Section WavMore.
Import Js Wav.
Local Open Scope Z_scope.

Lemma le16_wraps (v : Z) :
  v mod 256 + 256 * ((v / 256) mod 256) = v mod 65536.
Proof. Z.div_mod_to_equations. lia. Qed.

Lemma le32_wraps (v : Z) :
  v mod 256 + 256 * ((v / 256) mod 256) + 65536 * ((v / 65536) mod 256)
  + 16777216 * ((v / 16777216) mod 256) = v mod 4294967296.
Proof. Z.div_mod_to_equations. lia. Qed.

Lemma le16_bytes (v : Z) : Forall (fun b => 0 <= b < 256) (le16 v).
Proof. unfold le16. repeat constructor; apply Z.mod_pos_bound; lia. Qed.

Lemma le32_bytes (v : Z) : Forall (fun b => 0 <= b < 256) (le32 v).
Proof. unfold le32. repeat constructor; apply Z.mod_pos_bound; lia. Qed.

Lemma payload_bytes (g : number -> Z) (l : list number) :
  Forall (fun b => 0 <= b < 256) (flat_map (fun x => le16 (g x)) l).
Proof.
  induction l as [|x l IH]; [constructor|]. cbn [flat_map].
  apply Forall_app. split; [apply le16_bytes|exact IH].
Qed.

(** X11: the encoder never fails and never writes out of range, whatever
    the decoded buffer: the output has [44 + 2 * length * channels] bytes,
    each between 0 and 255, and a header value that does not fit its field
    (sizes of 4 GiB and more, 32768 channels and more) is stored modulo
    [2^32], respectively [2^16], as [DataView] does. *)
Theorem convertToWav_total (ab : AudioBuffer) :
  exists out,
    convertToWav ab = Some out
    /\ List.length out = (44 + 2 * (length ab * numberOfChannels ab))%nat
    /\ Forall (fun b => 0 <= b < 256) out
    /\ getUint32 out 4
       = Some ((36 + Z.of_nat (length ab * numberOfChannels ab) * 2) mod 2 ^ 32)
    /\ getUint16 out 22 = Some (Z.of_nat (numberOfChannels ab) mod 2 ^ 16)
    /\ getUint32 out 24 = Some (sampleRate ab mod 2 ^ 32)
    /\ getUint32 out 28
       = Some ((sampleRate ab * Z.of_nat (numberOfChannels ab) * 2) mod 2 ^ 32)
    /\ getUint16 out 32 = Some ((Z.of_nat (numberOfChannels ab) * 2) mod 2 ^ 16)
    /\ getUint32 out 40 = Some ((Z.of_nat (length ab * numberOfChannels ab) * 2) mod 2 ^ 32).
Proof.
  eexists. split; [apply convertToWav_layout|].
  set (payload := flat_map (fun x => le16 (ToUint16 (scaled x))) (spec_frames ab)).
  set (D := Z.of_nat (length ab * numberOfChannels ab) * 2).
  set (C := Z.of_nat (numberOfChannels ab)).
  change (2 ^ 32) with 4294967296. change (2 ^ 16) with 65536.
  split; [|split].
  - rewrite length_app. unfold payload.
    rewrite (flat_map_constant_length (c := 2%nat)) by reflexivity.
    rewrite spec_frames_length. unfold spec_header. eval_lits.
    simpl List.length. lia.
  - apply Forall_app. split; [|apply payload_bytes].
    unfold spec_header. eval_lits.
    repeat (apply Forall_app; split);
      first [apply le32_bytes | apply le16_bytes | repeat constructor; lia].
  - unfold spec_header. eval_lits.
    repeat match goal with |- _ /\ _ => split end;
      cbn -[Z.modulo Z.div Z.mul Z.add Z.of_nat]; f_equal;
      first [apply le32_wraps | apply le16_wraps].
Qed.

Lemma div_le_cross (a da b db : Z) :
  0 < da -> 0 < db -> a * db <= b * da -> a / da <= b / db.
Proof.
  intros Hda Hdb H. apply Z.div_le_lower_bound; [exact Hdb|].
  pose proof (Z.mul_div_le a da Hda) as Hfloor.
  apply (Z.mul_le_mono_pos_l _ _ da Hda).
  assert (db * (da * (a / da)) <= db * a) by (apply Z.mul_le_mono_nonneg_l; lia).
  lia.
Qed.

Lemma quot_negative (n d : Z) : n < 0 -> 0 < d -> n ÷ d = - (- n / d).
Proof.
  intros Hn Hd. rewrite <- (Z.quot_div_nonneg (- n) d) by lia.
  rewrite Z.quot_opp_l by lia. lia.
Qed.

(** Truncation toward zero keeps the order of rationals. *)
Lemma truncate_monotone (a b : Q) :
  (a <= b)%Q -> truncate (Num a) <= truncate (Num b).
Proof.
  unfold Qle, truncate. destruct a as [na da], b as [nb db]. cbn [Qnum Qden].
  intros H.
  assert (Hda : 0 < Z.pos da) by lia. assert (Hdb : 0 < Z.pos db) by lia.
  destruct (Z_le_gt_dec 0 na) as [Ha|Ha], (Z_le_gt_dec 0 nb) as [Hb|Hb].
  - rewrite !Z.quot_div_nonneg by lia. apply div_le_cross; assumption.
  - exfalso. nia.
  - rewrite (Z.quot_div_nonneg nb) by lia. rewrite (quot_negative na) by lia.
    pose proof (Z.div_pos (- na) (Z.pos da) ltac:(lia) Hda).
    pose proof (Z.div_pos nb (Z.pos db) Hb Hdb). lia.
  - rewrite (quot_negative na), (quot_negative nb) by lia.
    apply -> Z.opp_le_mono. apply div_le_cross; [assumption|assumption|lia].
Qed.

Lemma Qle_bool_false (a b : Q) : Qle_bool a b = false -> (b < a)%Q.
Proof.
  intros H. apply Qnot_le_lt. intros Hle. apply Qle_bool_iff in Hle. congruence.
Qed.

Lemma clamp_scale_monotone (q1 q2 : Q) :
  (q1 <= q2)%Q ->
  ((let c := spec_clamp q1 in if Qle_bool 0 c then c * 32767 else c * 32768)
   <= (let c := spec_clamp q2 in if Qle_bool 0 c then c * 32767 else c * 32768))%Q.
Proof.
  intros H. cbv zeta. unfold spec_clamp.
  repeat match goal with
         | |- context [Qle_bool ?a ?b] =>
             let E := fresh "E" in
             destruct (Qle_bool a b) eqn:E;
               [apply Qle_bool_iff in E | apply Qle_bool_false in E]
         end;
    lra.
Qed.

(** X12: quantization keeps the order of the samples: of two finite
    samples the larger one is never stored as the smaller 16-bit value, so
    clamping and the two scale factors introduce no wrap-around and no
    inversion. *)
Theorem quantization_monotone (q1 q2 : Q) :
  (q1 <= q2)%Q -> ToInt16 (scaled (Num q1)) <= ToInt16 (scaled (Num q2)).
Proof.
  intros H. rewrite !ToInt16_scaled. unfold spec_quantize.
  exact (truncate_monotone _ _ (clamp_scale_monotone q1 q2 H)).
Qed.

Lemma quantization_monotone_witness :
  ((1 # 4) <= (1 # 2))%Q
  /\ ToInt16 (scaled (Num (1 # 4))) <= ToInt16 (scaled (Num (1 # 2))).
Proof.
  assert (H : ((1 # 4) <= (1 # 2))%Q) by (unfold Qle; cbn; lia).
  split; [exact H|]. exact (quantization_monotone _ _ H).
Defined.

End WavMore.

(** ** Saving notes *)

Section SaveFacts.
Import Js Dom App Save.

(** What is kept consists of text outside tags, which holds no ['<'],
    and at the end of a candidate tag that was never closed, which holds
    no ['>']. *)
Lemma stripTagsFrom_shape (s : jsstring) :
  forall held : option jsstring,
    ~ In 62%N (default [] held) ->
    exists u h, stripTagsFrom held s = u ++ h /\ ~ In 60%N u /\ ~ In 62%N h.
Proof.
  induction s as [|c r IH]; intros held Hheld.
  - exists [], (default [] held). cbn [stripTagsFrom app]. auto.
  - cbn [stripTagsFrom]. destruct held as [tag|].
    + destruct (c =? 62)%N eqn:Hc.
      * apply (IH None). cbn. auto.
      * apply (IH (Some (tag ++ [c]))). cbn [default] in *.
        intros Hin. apply in_app_iff in Hin as [Hin|[E|[]]]; [auto|].
        subst c. discriminate Hc.
    + destruct (c =? 60)%N eqn:Hc.
      * apply (IH (Some [c])). cbn [default]. intros [E|[]].
        subst c. discriminate Hc.
      * destruct (IH None) as (u & h & Heq & Hu & Hh); [cbn; auto|].
        exists (c :: u), h. rewrite Heq. split; [reflexivity|]. split; [|exact Hh].
        intros [E|Hin]; [|auto]. subst c. discriminate Hc.
Qed.

Lemma app_split_at (x : N) (u h a rest : jsstring) :
  u ++ h = a ++ x :: rest -> ~ In x u -> exists a', h = a' ++ x :: rest.
Proof.
  revert a. induction u as [|y u IH]; intros a Heq Hu.
  - exists a. exact Heq.
  - destruct a as [|z a]; cbn [app] in Heq; injection Heq as -> Heq.
    + exfalso. apply Hu. left. reflexivity.
    + apply (IH a Heq). intros Hin. apply Hu. right. exact Hin.
Qed.

Lemma stripTagsFrom_open (s tag : jsstring) :
  ~ In 62%N s -> stripTagsFrom (Some tag) s = tag ++ s.
Proof.
  revert tag. induction s as [|c r IH]; intros tag Hs.
  - cbn. symmetry. apply app_nil_r.
  - cbn [stripTagsFrom]. destruct (c =? 62)%N eqn:Hc.
    + exfalso. apply Hs. left. apply N.eqb_eq, Hc.
    + rewrite IH, <- app_assoc; [reflexivity|]. intros Hin. apply Hs. right. exact Hin.
Qed.

Lemma stripTags_unclosed (s : jsstring) : ~ In 62%N s -> stripTags s = s.
Proof.
  unfold stripTags. induction s as [|c r IH]; intros Hs; [reflexivity|].
  assert (Hr : ~ In 62%N r) by (intros Hin; apply Hs; right; exact Hin).
  cbn [stripTagsFrom]. destruct (c =? 60)%N.
  - apply stripTagsFrom_open, Hr.
  - rewrite (IH Hr). reflexivity.
Qed.

Lemma stripTags_plain (u s : jsstring) :
  ~ In 60%N u -> stripTags (u ++ s) = u ++ stripTags s.
Proof.
  unfold stripTags. induction u as [|c u IH]; intros Hu; [reflexivity|].
  cbn [app stripTagsFrom]. destruct (c =? 60)%N eqn:Hc.
  - exfalso. apply Hu. left. apply N.eqb_eq, Hc.
  - rewrite IH; [reflexivity|]. intros Hin. apply Hu. right. exact Hin.
Qed.

(** X13: the text that [saveNewNote] stores holds no tag: after
    [replace(/<[^>]*>/g, '')] no ['<'] is followed by a ['>'].  Text without
    ['<'] is stored as it is, and stripping twice changes nothing more. *)
Theorem stripTags_removes_tags (s : jsstring) :
  (forall a b c, stripTags s <> a ++ [60%N] ++ b ++ [62%N] ++ c)
  /\ (~ In 60%N s -> stripTags s = s)
  /\ stripTags (stripTags s) = stripTags s.
Proof.
  destruct (stripTagsFrom_shape s None) as (u & h & Heq & Hu & Hh); [cbn; auto|].
  fold (stripTags s) in Heq. split; [|split].
  - intros a b c E. rewrite Heq in E. cbn [app] in E.
    destruct (app_split_at 60%N u h a _ E Hu) as [a' Hh'].
    apply Hh. rewrite Hh'. apply in_app_iff. right. right.
    apply in_app_iff. right. left. reflexivity.
  - intros Hs. rewrite <- (app_nil_r s) at 1. rewrite (stripTags_plain s []) by exact Hs.
    cbn. apply app_nil_r.
  - rewrite Heq, stripTags_plain by exact Hu. rewrite (stripTags_unclosed h Hh). reflexivity.
Qed.

Example stripTags_paragraph :
  stripTags (lit "<p>Budget <em>approved</em></p>") = lit "Budget approved".
Proof. vm_compute. reflexivity. Qed.

Example stripTags_unclosed_tag : stripTags (lit "a < b") = lit "a < b".
Proof. vm_compute. reflexivity. Qed.

Lemma eqb_same (s : jsstring) : eqb s s = true.
Proof.
  induction s as [|c r IH]; [reflexivity|]. cbn [eqb]. rewrite N.eqb_refl. exact IH.
Qed.

Lemma hasValidNote_guard (polishedNote : option NoteElement) (el : NoteElement) :
  polishedNote = Some el ->
  note_placeholderActive el = true \/ trim (innerText el) = []
  \/ trim (innerText el) = note_placeholder el ->
  hasValidNote polishedNote = false.
Proof.
  intros -> H. cbn [hasValidNote]. cbv zeta.
  destruct H as [H|[H|H]].
  - rewrite H. apply andb_false_r.
  - rewrite H. reflexivity.
  - rewrite H, eqb_same. cbn [negb]. rewrite andb_false_r. reflexivity.
Qed.

(** X14: saving only ever appends to the stored notes, and stores
    nothing for a note without content.  Whatever the state, the item of
    [localStorage] afterwards starts with what it held before; when the
    polished note is missing, blank, equal to its placeholder or marked
    [placeholder-active], or when [setItem] throws, the item and the
    application state are unchanged; otherwise exactly one entry is added:
    the title (or "Nota sem título"), the number of segments, date and time,
    and the polished markup without its tags. *)
Theorem save_appends (polishedNote : option NoteElement)
        (dateFormatted timeFormatted : jsstring) (now : Z) (setItemThrows : bool)
        (savedNotes : option jsstring) (s : State) :
  (exists entry,
      default [] (store (saveNewNote polishedNote dateFormatted timeFormatted now
                                     setItemThrows savedNotes s))
      = default [] savedNotes ++ entry)
  /\ (hasValidNote polishedNote && negb setItemThrows = false ->
      store (saveNewNote polishedNote dateFormatted timeFormatted now
                         setItemThrows savedNotes s) = savedNotes
      /\ state (saveNewNote polishedNote dateFormatted timeFormatted now
                            setItemThrows savedNotes s) = s
      /\ download (saveNewNote polishedNote dateFormatted timeFormatted now
                               setItemThrows savedNotes s) = None)
  /\ (forall el, polishedNote = Some el ->
      note_placeholderActive el = true \/ trim (innerText el) = []
      \/ trim (innerText el) = note_placeholder el ->
      hasValidNote polishedNote = false)
  /\ (hasValidNote polishedNote && negb setItemThrows = true ->
      exists el,
        polishedNote = Some el
        /\ store (saveNewNote polishedNote dateFormatted timeFormatted now
                              setItemThrows savedNotes s)
           = Some (default [] savedNotes
                   ++ finalContent (noteTitle s) (segmentInfo s) dateFormatted
                        timeFormatted (stripTags (innerHTML el)))
        /\ download (saveNewNote polishedNote dateFormatted timeFormatted now
                                 setItemThrows savedNotes s)
           = store (saveNewNote polishedNote dateFormatted timeFormatted now
                                setItemThrows savedNotes s)
        /\ status (saveNewNote polishedNote dateFormatted timeFormatted now
                               setItemThrows savedNotes s) = NOTE_SAVED).
Proof.
  split; [|split; [|split; [exact (hasValidNote_guard polishedNote)|]]];
    unfold saveNewNote; cbv zeta;
    destruct (hasValidNote polishedNote) eqn:Hvalid, setItemThrows;
    cbn [negb andb store state download status default].
  all: try (exists []; symmetry; apply app_nil_r).
  all: try (intros _; repeat split; reflexivity).
  all: try discriminate.
  - eexists. reflexivity.
  - intros _. destruct polishedNote as [el|]; [|discriminate Hvalid].
    exists el. repeat split.
Qed.

End SaveFacts.

(** ** Placeholders and data URLs *)

Section PageFacts.
Import Js Dom Page Base64.

Lemma eqb_eq (a b : jsstring) : eqb a b = true <-> a = b.
Proof.
  split; [|intros ->; apply eqb_same].
  revert b. induction a as [|x a IH]; intros [|y b] H; try discriminate H; [reflexivity|].
  cbn [eqb] in H. apply andb_true_iff in H as [Hx Hab].
  apply N.eqb_eq in Hx. rewrite Hx, (IH b Hab). reflexivity.
Qed.

(** X15: the placeholder handlers agree with [hasValidContent]: after
    [updatePlaceholderState] (page load, blur) the class
    [placeholder-active] is set exactly when the element has no valid
    content; running it again changes nothing; and text that is neither
    blank nor the placeholder goes through focus and blur unchanged. *)
Theorem placeholder_state_consistent (el : Element) :
  placeholderActive (updatePlaceholderState el)
  = negb (hasValidContent (Some (updatePlaceholderState el)))
  /\ updatePlaceholderState (updatePlaceholderState el) = updatePlaceholderState el
  /\ (truthy (trim (textContent el)) = true ->
      eqb (trim (textContent el)) (placeholder el) = false ->
      textContent (onblur (onfocus el)) = textContent el
      /\ placeholderActive (onblur (onfocus el)) = false).
Proof.
  unfold onblur, onfocus, updatePlaceholderState. cbv zeta.
  destruct (truthy (trim (textContent el))) eqn:Ht;
    destruct (eqb (trim (textContent el)) (placeholder el)) eqn:He;
    cbn -[trim]; rewrite ?Ht, ?He; cbn -[trim];
    change (trim []) with (@nil N); rewrite ?Ht, ?He; cbn -[trim];
    rewrite ?Ht, ?He; cbn -[trim];
    repeat split; try discriminate; try reflexivity.
Qed.

Lemma split_plain (sep : N) (s : jsstring) : ~ In sep s -> split sep s = [s].
Proof.
  induction s as [|c r IH]; intros Hs; [reflexivity|]. cbn [split].
  destruct (c =? sep)%N eqn:Hc.
  - exfalso. apply Hs. left. apply N.eqb_eq, Hc.
  - rewrite IH; [reflexivity|]. intros Hin. apply Hs. right. exact Hin.
Qed.

Lemma split_first (sep : N) (a b : jsstring) :
  ~ In sep a -> split sep (a ++ sep :: b) = a :: split sep b.
Proof.
  induction a as [|c r IH]; intros Ha.
  - cbn [app split]. rewrite N.eqb_refl. reflexivity.
  - cbn [app split]. destruct (c =? sep)%N eqn:Hc.
    + exfalso. apply Ha. left. apply N.eqb_eq, Hc.
    + rewrite IH; [reflexivity|]. intros Hin. apply Ha. right. exact Hin.
Qed.

(** X16: of a data URL [header,payload] (the base64 alphabet has no comma)
    [blobToBase64] resolves with exactly the payload, and of a result
    without a comma with [undefined], which [processAudioSegment] turns
    into its conversion error. *)
Theorem blobToBase64_payload (header payload : jsstring) :
  ~ In 44%N header -> ~ In 44%N payload ->
  blobToBase64 (header ++ [44%N] ++ payload) = Some payload
  /\ blobToBase64 header = None.
Proof.
  intros Hh Hp. unfold blobToBase64. cbn [app].
  rewrite (split_first 44 header payload Hh), (split_plain 44 payload Hp),
    (split_plain 44 header Hh).
  split; reflexivity.
Qed.

Lemma blobToBase64_payload_witness :
  blobToBase64 (lit "data:audio/wav;base64,UklGRiQAAABXQVZF") = Some (lit "UklGRiQAAABXQVZF").
Proof.
  refine (proj1 (blobToBase64_payload (lit "data:audio/wav;base64") (lit "UklGRiQAAABXQVZF")
                   _ _)); vm_compute; intuition discriminate.
Defined.

End PageFacts.

(** ** Theme and timer *)

Section ThemeFacts.
Import Js Theme.

(** X17: the theme survives a reload.  After [toggleTheme] the item [theme]
    says "light" exactly when the body carries [light-mode], and loading the
    page again ([initTheme]) restores that mode and the icon that goes with
    it; toggling twice gives back the first mode; the icon shows the moon
    exactly in light mode and the sun otherwise. *)
Theorem theme_persists (p : Page) (iconClasses : bool * bool) :
  isLightTheme (savedTheme (toggleTheme p)) = lightMode (toggleTheme p)
  /\ lightMode (reload (Some iconClasses) (toggleTheme p)) = lightMode (toggleTheme p)
  /\ (icon p <> None ->
      icon (reload (Some iconClasses) (toggleTheme p)) = icon (toggleTheme p)
      /\ icon (toggleTheme p) = Some (negb (lightMode p), lightMode p))
  /\ lightMode (toggleTheme (toggleTheme p)) = lightMode p
  /\ lightMode (toggleTheme p) = negb (lightMode p).
Proof.
  destruct p as [light saved [[moon sun]|]]; destruct light;
    repeat split;
    first [reflexivity
          | exfalso; match goal with Hicon : _ <> _ |- _ => apply Hicon; reflexivity end].
Qed.

End ThemeFacts.

Section TimerFacts.
Import Js App Timer.
Local Open Scope Z_scope.

Lemma pad2_digits (n : Z) : 0 <= n < 100 -> pad2 n = digits2 n.
Proof.
  intros Hn.
  assert (H : forallb (fun k => Dom.eqb (pad2 (Z.of_nat k)) (digits2 (Z.of_nat k)))
                      (seq 0 100) = true) by (vm_compute; reflexivity).
  rewrite forallb_forall in H.
  specialize (H (Z.to_nat n)). rewrite Z2Nat.id in H by lia.
  apply eqb_eq, H, in_seq. lia.
Qed.

(** X18: while recording the live timer shows the elapsed time as
    [MM:SS.HH], rounded down to the hundredth of a second: for an elapsed
    time below 100 minutes the text starts with two digits each for the
    minutes, the seconds and the hundredths (and outside continuous mode
    that is the whole text), and these say the elapsed time to within
    10 ms. *)
Theorem timer_shows_elapsed (display : jsstring) (now recordingStartTime : Z) (s : State) :
  0 <= now - recordingStartTime < 6000000 ->
  isRecording s = true ->
  exists m sec h,
    updateLiveTimer (Some display) now recordingStartTime s
    = Some (timerText now recordingStartTime s)
    /\ take 8 (timerText now recordingStartTime s)
       = digits2 m ++ lit ":" ++ digits2 sec ++ lit "." ++ digits2 h
    /\ (isContinuousMode s = false ->
        timerText now recordingStartTime s
        = digits2 m ++ lit ":" ++ digits2 sec ++ lit "." ++ digits2 h)
    /\ 0 <= m < 100 /\ 0 <= sec < 60 /\ 0 <= h < 100
    /\ 60000 * m + 1000 * sec + 10 * h <= now - recordingStartTime
       < 60000 * m + 1000 * sec + 10 * h + 10.
Proof.
  intros Helapsed Hrec.
  set (e := now - recordingStartTime) in *.
  exists (e / 1000 / 60), (Z.rem (e / 1000) 60), (Z.rem e 1000 / 10).
  assert (Hs : 0 <= e / 1000) by (apply Z.div_pos; lia).
  assert (Hm : 0 <= e / 1000 / 60 < 100).
  { split; [apply Z.div_pos; lia|]. apply Z.div_lt_upper_bound; [lia|].
    apply Z.div_lt_upper_bound; lia. }
  assert (Hsec : 0 <= Z.rem (e / 1000) 60 < 60) by (apply Z.rem_bound_pos; lia).
  assert (Hr : 0 <= Z.rem e 1000 < 1000) by (apply Z.rem_bound_pos; lia).
  assert (Hh : 0 <= Z.rem e 1000 / 10 < 100).
  { split; [apply Z.div_pos; lia|]. apply Z.div_lt_upper_bound; lia. }
  assert (Hsec' : 0 <= Z.rem (e / 1000) 60 < 100) by lia.
  split; [unfold updateLiveTimer; rewrite Hrec; reflexivity|].
  split; [|split; [|split; [exact Hm|split; [exact Hsec|split; [exact Hh|]]]]].
  - unfold timerText. cbv zeta. fold e.
    rewrite (pad2_digits _ Hm), (pad2_digits _ Hsec'), (pad2_digits _ Hh).
    destruct (isContinuousMode s); [destruct (_ || _)|]; reflexivity.
  - intros Hcont. unfold timerText. cbv zeta. fold e. rewrite Hcont.
    rewrite (pad2_digits _ Hm), (pad2_digits _ Hsec'), (pad2_digits _ Hh). reflexivity.
  - rewrite !Z.rem_mod_nonneg in * by lia. Z.div_mod_to_equations. lia.
Qed.

(** Ten minutes, five seconds and 430 ms. *)
Lemma timer_shows_elapsed_witness :
  updateLiveTimer (Some []) 605430 0 (set_isRecording true Examples.fresh)
  = Some (lit "10:05.43").
Proof.
  destruct (timer_shows_elapsed [] 605430 0 (set_isRecording true Examples.fresh))
    as (m & sec & h & Hupdate & _); [lia|reflexivity|].
  refine (eq_trans Hupdate _). vm_compute. reflexivity.
Defined.

End TimerFacts.

(* ================================================================== *)
(** ** The single-recording variant                                    *)
(* ================================================================== *)

Section SingleFacts.
Import Js Dom Single.

Lemma lookup_end {A : Type} (l : list A) (x : A) : (l ++ [x]) !! length l = Some x.
Proof. exact (list_lookup_middle l [] x (length l) eq_refl). Qed.

Lemma insert_end {A : Type} (l : list A) (x y : A) :
  <[length l := y]> (l ++ [x]) = l ++ [y].
Proof.
  rewrite insert_app_r_alt by lia. rewrite Nat.sub_diag. reflexivity.
Qed.

Lemma delete_end {A : Type} (l : list A) (x : A) : delete (length l) (l ++ [x]) = l.
Proof. rewrite delete_middle. apply app_nil_r. Qed.

(** Text between brackets is its own trimmed form. *)
Lemma trim_bracketed (c0 : N) (a mid b : jsstring) (c1 : N) :
  isWhiteSpace c0 = false -> isWhiteSpace c1 = false ->
  trim ((c0 :: a) ++ mid ++ b ++ [c1]) = (c0 :: a) ++ mid ++ b ++ [c1].
Proof.
  intros H0 H1. rewrite <- app_comm_cons.
  apply (trim_fixed c0 (a ++ mid ++ b ++ [c1]) c1 H0); [|exact H1].
  rewrite app_comm_cons, !app_assoc. apply last_snoc.
Qed.

Lemma bracketed_tags (o c : jsstring) (c0 : N) (o' c' : jsstring) (c1 : N) :
  o = c0 :: o' -> c = c' ++ [c1] ->
  isWhiteSpace c0 = false -> isWhiteSpace c1 = false -> bracketed o c.
Proof.
  intros -> -> H0 H1. split; [reflexivity|].
  intros mid. exact (trim_bracketed c0 o' mid c' c1 H0 H1).
Qed.

(** A recording that started: the recorder records into an empty list of
    chunks, the tags name the sources, and what the pipeline works on is
    untouched. *)
Lemma startRecording_started (capture : App.Capture) (s : State) :
  isRecording (startRecording capture s) = true ->
  let r := startRecording capture s in
  mediaRecorder r = Some App.recording /\ audioChunks r = [] /\
  bracketed (openingTags r) (closingTags r) /\
  currentNote r = currentNote s /\ rawTranscription r = rawTranscription s /\
  editorTitle r = editorTitle s /\ stopTasks r = stopTasks s /\
  inflight r = inflight s /\ requests r = requests s.
Proof.
  destruct s as [mr chunks isRec note otags ctags st sst mst rawT title tasks jobs reqs].
  destruct capture as [|[[n]|] [m]]; [discriminate| |].
  - destruct n as [|n], m as [|m]; cbn; intros H; try discriminate H;
      (repeat split; try reflexivity);
      [ apply (bracketed_tags _ _ 91%N (tl App.USER_OPEN) (removelast App.USER_CLOSE) 93%N)
      | apply (bracketed_tags _ _ 91%N (tl App.MEETING_OPEN) (removelast App.MEETING_CLOSE) 93%N)
      | apply (bracketed_tags _ _ 91%N (tl (App.MEETING_OPEN ++ App.USER_OPEN))
                 (removelast (App.MEETING_CLOSE ++ App.USER_CLOSE)) 93%N) ];
      reflexivity.
  - destruct m as [|m]; cbn; intros H; try discriminate H;
      (repeat split; try reflexivity).
    apply (bracketed_tags _ _ 91%N (tl App.USER_OPEN) (removelast App.USER_CLOSE) 93%N);
      reflexivity.
Qed.

(** Reading fields through updates. *)
Ltac fields_single :=
  cbv beta iota zeta delta [mediaRecorder audioChunks isRecording currentNote openingTags closingTags stream
       screenStream micStream rawTranscription editorTitle stopTasks inflight requests
       set_mediaRecorder set_audioChunks set_isRecording set_currentNote
       set_openingTags set_closingTags set_stream set_screenStream
       set_micStream set_rawTranscription set_editorTitle set_stopTasks
       set_inflight set_requests
       set_note_rawTranscription set_note_polishedNote finish].

(** The three callbacks of a recording that ends well. *)
Lemma stopTask_state (data : App.Blob) (s : State) :
  stopTasks s = 1%nat -> audioChunks s = [] -> (0 < App.size data)%nat ->
  step (RecorderStopTask data) s
  = cleanupStreams
      (set_inflight (inflight s ++ [App.Transcribing])
         (set_audioChunks [data] (set_stopTasks 0 s))).
Proof.
  destruct s as [mr chunks isRec note otags ctags st sst mst rawT title tasks jobs reqs].
  cbn [stopTasks audioChunks]. intros -> -> Hdata.
  destruct data as [|d data]; [cbn in Hdata; lia|]. reflexivity.
Qed.

Lemma transcriptionDone_state (jobs : list App.Phase) (t : jsstring) (raw : Element)
    (s : State) :
  inflight s = jobs ++ [App.Transcribing] -> rawTranscription s = Some raw ->
  bracketed (openingTags s) (closingTags s) -> truthy t = true ->
  eqb (transcriptOf t s) (placeholder raw) = false ->
  transcriptionDone (length jobs) (App.TranscriptionText (Some t)) s
  = set_inflight (jobs ++ [App.Refining])
      (set_requests (requests s ++ [PROMPT ++ transcriptOf t s])
         (set_note_rawTranscription (transcriptOf t s)
            (set_rawTranscription
               (Some {| textContent := transcriptOf t s; placeholder := placeholder raw;
                        placeholderActive := false |}) s))).
Proof.
  destruct s as [mr chunks isRec note otags ctags st sst mst rawT title tasks jobs' reqs].
  unfold transcriptOf. fields_single.
  intros -> -> [Hopen Htrim] Ht Hph.
  destruct t as [|c t]; [discriminate|]. set (text := trim (c :: t)) in *.
  pose proof (Htrim (text ++ lit " ")) as Hfix. rewrite <- app_assoc in Hfix.
  set (transcript := otags ++ text ++ lit " " ++ ctags) in *.
  assert (Hshown : truthy transcript = true).
  { unfold transcript. destruct otags; [discriminate Hopen|reflexivity]. }
  unfold transcriptionDone. fields_single. rewrite lookup_end.
  cbn [truthy]. unfold addAudioTags. fields_single.
  rewrite Hopen. cbn [negb andb]. fold text. fold transcript.
  unfold updateTranscriptionDisplay. fields_single.
  cbn [setTextContent setPlaceholder placeholder placeholderActive textContent].
  rewrite Hfix, Hshown. cbn [negb setPlaceholder placeholder textContent].
  unfold getPolishedNote_begin.
  destruct note as [n|]; fields_single;
    cbn [hasValidContent textContent placeholder placeholderActive];
    rewrite Hfix, Hshown, Hph; cbn [negb andb]; fields_single;
    rewrite insert_end; reflexivity.
Qed.

Lemma refinementDone_state (jobs : list App.Phase) (p : jsstring) (s : State) :
  inflight s = jobs ++ [App.Refining] -> truthy p = true ->
  refinementDone (length jobs) (App.RefinementText (Some p)) s
  = set_inflight jobs
      (set_note_polishedNote p
         (set_editorTitle (Title.updateNoteTitle p (editorTitle s)) s)).
Proof.
  destruct s as [mr chunks isRec note otags ctags st sst mst rawT title tasks jobs' reqs].
  fields_single. intros -> Hp.
  unfold refinementDone. fields_single. rewrite lookup_end, Hp.
  destruct note as [n|]; fields_single; rewrite delete_end; reflexivity.
Qed.

(** From the stop task of the recorder to the end of the refinement. *)
Lemma stopped_pipeline (r : State) (data : App.Blob) (t p : jsstring) (raw : Element) :
  stopTasks r = 1%nat -> audioChunks r = [] -> rawTranscription r = Some raw ->
  bracketed (openingTags r) (closingTags r) ->
  (0 < App.size data)%nat -> truthy t = true -> truthy p = true ->
  eqb (transcriptOf t r) (placeholder raw) = false ->
  let i := length (inflight r) in
  let final := run [RecorderStopTask data;
                    TranscriptionDone i (App.TranscriptionText (Some t));
                    RefinementDone i (App.RefinementText (Some p))] r in
  rawTranscription final
    = Some {| textContent := transcriptOf t r; placeholder := placeholder raw;
              placeholderActive := false |} /\
  requests final = requests r ++ [PROMPT ++ transcriptOf t r] /\
  editorTitle final = Title.updateNoteTitle p (editorTitle r) /\
  currentNote final
    = option_map (fun n => {| App.id := App.id n;
                              App.note_rawTranscription := transcriptOf t r;
                              App.note_polishedNote := p;
                              App.timestamp := App.timestamp n |}) (currentNote r) /\
  inflight final = inflight r /\ isRecording final = isRecording r /\
  stopTasks final = 0%nat /\ stream final = None.
Proof.
  intros Htasks Hchunks Hraw Htags Hdata Ht Hp Hph i final. subst i final.
  cbn [run]. rewrite (stopTask_state data r Htasks Hchunks Hdata).
  destruct r as [mr chunks isRec note otags ctags st sst mst rawT title tasks jobs reqs].
  cbn [rawTranscription openingTags closingTags inflight step] in Hraw, Htags |- *.
  subst rawT.
  rewrite (transcriptionDone_state jobs t raw)
    by first [reflexivity | exact Htags | exact Ht | exact Hph].
  rewrite (refinementDone_state jobs p) by first [reflexivity | exact Hp].
  destruct note as [n|]; repeat split; reflexivity.
Qed.

(** The two ways a recording is stopped. *)
Lemma stopRecording_state (capture : App.Capture) (s : State) :
  isRecording s = true -> mediaRecorder s = Some App.recording ->
  step (ClickRecord capture) s
  = set_isRecording false
      (set_stopTasks (S (stopTasks s)) (set_mediaRecorder (Some App.inactive) s)).
Proof.
  destruct s as [mr chunks isRec note otags ctags st sst mst rawT title tasks jobs reqs].
  cbn [isRecording mediaRecorder]. intros -> ->. reflexivity.
Qed.

Lemma createNewNote_state (now : Z) (s : State) :
  isRecording s = true -> mediaRecorder s = Some App.recording ->
  step (ClickNew now) s
  = set_isRecording false
      (set_stopTasks (S (stopTasks s))
         (set_mediaRecorder (Some App.inactive)
            (set_editorTitle (setPlaceholder (editorTitle s) true)
               (set_rawTranscription (setPlaceholder (rawTranscription s) true)
                  (set_currentNote
                     (Some {| App.id := now; App.note_rawTranscription := [];
                              App.note_polishedNote := []; App.timestamp := now |})
                     s))))).
Proof.
  destruct s as [mr chunks isRec note otags ctags st sst mst rawT title tasks jobs reqs].
  cbn [isRecording mediaRecorder]. intros -> ->. reflexivity.
Qed.

Lemma toggle_starts (capture : App.Capture) (s : State) :
  isRecording s = false -> step (ClickRecord capture) s = startRecording capture s.
Proof. intros H. cbn [step]. unfold toggleRecording. rewrite H. reflexivity. Qed.

(** X19: one recording from the click that starts it to the refined note.
    From an idle state with no stop task pending, a capture that starts a
    recording, a click that stops it, the recorder's stop task with data,
    a transcription response and a refinement response that are not empty
    give: the raw transcription shows the trimmed response between the
    tags of the captured sources (which are not empty), the one prompt sent
    ends with that text, the note holds it and the refined text, the title
    is derived from the refined text, and the application is idle again
    with its streams released.  The shown text is assumed to differ from
    the placeholder of the raw transcription. *)
Theorem recording_round (s : State) (capture capture' : App.Capture) (data : App.Blob)
    (t p : jsstring) (raw : Element) :
  isRecording s = false -> stopTasks s = 0%nat -> rawTranscription s = Some raw ->
  let started := step (ClickRecord capture) s in
  isRecording started = true ->
  (0 < App.size data)%nat -> truthy t = true -> truthy p = true ->
  eqb (transcriptOf t started) (placeholder raw) = false ->
  let i := length (inflight s) in
  let final := run [ClickRecord capture'; RecorderStopTask data;
                    TranscriptionDone i (App.TranscriptionText (Some t));
                    RefinementDone i (App.RefinementText (Some p))] started in
  truthy (openingTags started) = true /\
  rawTranscription final
    = Some {| textContent := transcriptOf t started; placeholder := placeholder raw;
              placeholderActive := false |} /\
  requests final = requests s ++ [PROMPT ++ transcriptOf t started] /\
  editorTitle final = Title.updateNoteTitle p (editorTitle s) /\
  currentNote final
    = option_map (fun n => {| App.id := App.id n;
                              App.note_rawTranscription := transcriptOf t started;
                              App.note_polishedNote := p;
                              App.timestamp := App.timestamp n |}) (currentNote s) /\
  inflight final = inflight s /\ isRecording final = false /\
  stopTasks final = 0%nat /\ stream final = None.
Proof.
  intros Hrec Htasks Hraw started Hstarted Hdata Ht Hp Hph i final.
  assert (Estart : started = startRecording capture s) by exact (toggle_starts capture s Hrec).
  pose proof Hstarted as Hon. rewrite Estart in Hon.
  destruct (startRecording_started capture s Hon)
    as (Hmr & Hchunks & Htags & Hnote & Hraw' & Htitle & Htasks' & Hjobs & Hreqs).
  rewrite <- Estart in Hmr, Hchunks, Htags, Hnote, Hraw', Htitle, Htasks', Hjobs, Hreqs.
  rewrite Htasks in Htasks'. rewrite Hraw in Hraw'.
  subst final i. clear Estart Hon. clearbody started.
  destruct started as [mr chunks isRec note otags ctags st sst mst rawT title tasks jobs reqs].
  unfold transcriptOf in Hph |- *.
  cbn [mediaRecorder audioChunks isRecording currentNote openingTags closingTags
       rawTranscription editorTitle stopTasks inflight requests]
    in Hstarted, Hmr, Hchunks, Htags, Hnote, Hraw', Htitle, Htasks', Hjobs, Hreqs, Hph |- *.
  subst mr chunks isRec note rawT title tasks jobs reqs.
  cbn [run].
  rewrite (stopRecording_state capture') by reflexivity.
  assert (Hpipe := stopped_pipeline
                     (step (ClickRecord capture')
                        {| mediaRecorder := Some App.recording; audioChunks := [];
                           isRecording := true; currentNote := currentNote s;
                           openingTags := otags; closingTags := ctags; stream := st;
                           screenStream := sst; micStream := mst;
                           rawTranscription := Some raw; editorTitle := editorTitle s;
                           stopTasks := 0; inflight := inflight s;
                           requests := requests s |})
                     data t p
                     raw).
  rewrite (stopRecording_state capture') in Hpipe by reflexivity.
  specialize (Hpipe eq_refl eq_refl eq_refl Htags Hdata Ht Hp Hph).
  cbn [run] in Hpipe.
  destruct Hpipe as (H1 & H2 & H3 & H4 & H5 & H6 & H7 & H8).
  destruct Htags as [Hopen _].
  repeat split; assumption.
Qed.

(** X20: New during a recording does not discard it.  The click empties
    the note and stops the recorder; the stop task that follows still sends
    the audio, and the responses land in the new note: its raw transcription
    and refined text are those of the interrupted recording, and so are the
    text shown and the title. *)
Theorem new_note_takes_recording (s : State) (capture : App.Capture) (now : Z)
    (data : App.Blob) (t p : jsstring) (raw : Element) :
  isRecording s = false -> stopTasks s = 0%nat -> rawTranscription s = Some raw ->
  let started := step (ClickRecord capture) s in
  isRecording started = true ->
  (0 < App.size data)%nat -> truthy t = true -> truthy p = true ->
  eqb (transcriptOf t started) (placeholder raw) = false ->
  let i := length (inflight s) in
  let final := run [ClickNew now; RecorderStopTask data;
                    TranscriptionDone i (App.TranscriptionText (Some t));
                    RefinementDone i (App.RefinementText (Some p))] started in
  currentNote final
    = Some {| App.id := now; App.note_rawTranscription := transcriptOf t started;
              App.note_polishedNote := p; App.timestamp := now |} /\
  rawTranscription final
    = Some {| textContent := transcriptOf t started; placeholder := placeholder raw;
              placeholderActive := false |} /\
  requests final = requests s ++ [PROMPT ++ transcriptOf t started] /\
  editorTitle final = Title.updateNoteTitle p (setPlaceholder (editorTitle s) true) /\
  isRecording final = false.
Proof.
  intros Hrec Htasks Hraw started Hstarted Hdata Ht Hp Hph i final.
  assert (Estart : started = startRecording capture s) by exact (toggle_starts capture s Hrec).
  pose proof Hstarted as Hon. rewrite Estart in Hon.
  destruct (startRecording_started capture s Hon)
    as (Hmr & Hchunks & Htags & Hnote & Hraw' & Htitle & Htasks' & Hjobs & Hreqs).
  rewrite <- Estart in Hmr, Hchunks, Htags, Hnote, Hraw', Htitle, Htasks', Hjobs, Hreqs.
  rewrite Htasks in Htasks'. rewrite Hraw in Hraw'.
  subst final i. clear Estart Hon. clearbody started.
  destruct started as [mr chunks isRec note otags ctags st sst mst rawT title tasks jobs reqs].
  unfold transcriptOf in Hph |- *.
  cbn [mediaRecorder audioChunks isRecording currentNote openingTags closingTags
       rawTranscription editorTitle stopTasks inflight requests]
    in Hstarted, Hmr, Hchunks, Htags, Hnote, Hraw', Htitle, Htasks', Hjobs, Hreqs, Hph |- *.
  subst mr chunks isRec note rawT title tasks jobs reqs.
  cbn [run].
  rewrite (createNewNote_state now) by reflexivity.
  assert (Hpipe := stopped_pipeline
                     (step (ClickNew now)
                        {| mediaRecorder := Some App.recording; audioChunks := [];
                           isRecording := true; currentNote := currentNote s;
                           openingTags := otags; closingTags := ctags; stream := st;
                           screenStream := sst; micStream := mst;
                           rawTranscription := Some raw; editorTitle := editorTitle s;
                           stopTasks := 0; inflight := inflight s;
                           requests := requests s |})
                     data t p
                     {| textContent := placeholder raw; placeholder := placeholder raw;
                        placeholderActive := true |}).
  rewrite (createNewNote_state now) in Hpipe by reflexivity.
  specialize (Hpipe eq_refl eq_refl eq_refl Htags Hdata Ht Hp Hph).
  cbn [run] in Hpipe.
  destruct Hpipe as (H1 & H2 & H3 & H4 & H5 & H6 & H7 & H8).
  repeat split; assumption.
Qed.

Lemma recording_round_witness :
  rawTranscription
    (run (ClickRecord Examples.microphone :: recorded)
         (step (ClickRecord Examples.microphone) fresh))
  = Some {| textContent := lit "[EU]buy milk and eggs [/EU]";
            placeholder := placeholder rawIdle; placeholderActive := false |}
  /\ editorTitle
       (run (ClickRecord Examples.microphone :: recorded)
            (step (ClickRecord Examples.microphone) fresh))
     = Some {| textContent := lit "Shopping list"; placeholder := lit "Untitled Note";
               placeholderActive := false |}.
Proof.
  assert (Hidle : isRecording fresh = false) by (vm_compute; reflexivity).
  assert (Htasks : stopTasks fresh = 0%nat) by (vm_compute; reflexivity).
  assert (Hraw : rawTranscription fresh = Some rawIdle) by (vm_compute; reflexivity).
  assert (Hon : isRecording (step (ClickRecord Examples.microphone) fresh) = true)
    by (vm_compute; reflexivity).
  assert (Hdata : (0 < App.size [1; 2; 3]%Z)%nat) by (vm_compute; lia).
  assert (Ht : truthy (lit " buy milk and eggs ") = true) by (vm_compute; reflexivity).
  assert (Hp : truthy (lit "# Shopping list") = true) by (vm_compute; reflexivity).
  assert (Hph : eqb (transcriptOf (lit " buy milk and eggs ")
                       (step (ClickRecord Examples.microphone) fresh))
                    (placeholder rawIdle) = false) by (vm_compute; reflexivity).
  destruct (recording_round fresh Examples.microphone Examples.microphone [1; 2; 3]%Z
              (lit " buy milk and eggs ") (lit "# Shopping list") rawIdle
              Hidle Htasks Hraw Hon Hdata Ht Hp Hph)
    as (_ & Hshown & _ & Htitle & _).
  split.
  - refine (eq_trans Hshown _). vm_compute. reflexivity.
  - refine (eq_trans Htitle _). vm_compute. reflexivity.
Defined.

Lemma new_note_takes_recording_witness :
  currentNote
    (run (ClickNew 7000 :: recorded) (step (ClickRecord Examples.microphone) fresh))
  = Some {| App.id := 7000; App.note_rawTranscription := lit "[EU]buy milk and eggs [/EU]";
            App.note_polishedNote := lit "# Shopping list"; App.timestamp := 7000 |}.
Proof.
  assert (Hidle : isRecording fresh = false) by (vm_compute; reflexivity).
  assert (Htasks : stopTasks fresh = 0%nat) by (vm_compute; reflexivity).
  assert (Hraw : rawTranscription fresh = Some rawIdle) by (vm_compute; reflexivity).
  assert (Hon : isRecording (step (ClickRecord Examples.microphone) fresh) = true)
    by (vm_compute; reflexivity).
  assert (Hdata : (0 < App.size [1; 2; 3]%Z)%nat) by (vm_compute; lia).
  assert (Ht : truthy (lit " buy milk and eggs ") = true) by (vm_compute; reflexivity).
  assert (Hp : truthy (lit "# Shopping list") = true) by (vm_compute; reflexivity).
  assert (Hph : eqb (transcriptOf (lit " buy milk and eggs ")
                       (step (ClickRecord Examples.microphone) fresh))
                    (placeholder rawIdle) = false) by (vm_compute; reflexivity).
  destruct (new_note_takes_recording fresh Examples.microphone 7000 [1; 2; 3]%Z
              (lit " buy milk and eggs ") (lit "# Shopping list") rawIdle
              Hidle Htasks Hraw Hon Hdata Ht Hp Hph)
    as (Hnote & _).
  refine (eq_trans Hnote _). vm_compute. reflexivity.
Defined.

End SingleFacts.
